(** * Subquery resolution and caching rules of the analyzer

    A shallow embedding of [analyzer/resolve_subqueries.go] (the second
    document of [src/sql/plan/showvariables.go]): the rules
    [resolveSubqueries], [finalizeSubqueries], [flattenTableAliases],
    [cacheSubqueryResults], [cacheSubqueryAlisesInJoins] and
    [setJoinScopeLen], with the helpers they are written with.

    Go integers are [Z], slices are [list], a [(T, error)] return is
    [Fallible T] and a [(T, TreeIdentity, error)] return is [Result T]. *)

From Stdlib Require Import ZArith List String Bool Lia Permutation Sorted.
Import ListNotations.

Set Implicit Arguments.
Set Warnings "-register-all".
Local Open Scope Z_scope.

(** ** Errors and results *)

(** The error kinds the rules create or test with [Kind.Is]. *)
Inductive ErrorKind : Type :=
| ErrValidationResolved
| ErrTableColumnNotFound
| ErrColumnNotFound
| ErrColumnCountMismatch
| ErrInvalidChildrenNumber
| ErrOther (code : nat).

(** [kind.Is(err)] *)
Definition Is (kind err : ErrorKind) : bool :=
  match kind, err with
  | ErrValidationResolved, ErrValidationResolved => true
  | ErrTableColumnNotFound, ErrTableColumnNotFound => true
  | ErrColumnNotFound, ErrColumnNotFound => true
  | ErrColumnCountMismatch, ErrColumnCountMismatch => true
  | ErrInvalidChildrenNumber, ErrInvalidChildrenNumber => true
  | ErrOther a, ErrOther b => Nat.eqb a b
  | _, _ => false
  end.

(** A Go [(T, error)] pair: a value with a nil error, or the error (with
    the nil value the callers never read). *)
Inductive Fallible (A : Type) : Type :=
| Done (a : A)
| Raise (e : ErrorKind).

Arguments Raise {A} e.

(** [transform.TreeIdentity] is a Go [bool]: [SameTree = true],
    [NewTree = false]; the rules combine identities with [&&]. *)
Definition TreeIdentity := bool.
Definition SameTree : TreeIdentity := true.
Definition NewTree : TreeIdentity := false.

(** A Go [(T, transform.TreeIdentity, error)] triple. [Raise e] stands for
    the returns [nil, transform.SameTree, err], and for those on lines 156,
    211 and 346 whose first two components no caller reads. *)
Definition Result (A : Type) : Type := Fallible (A * TreeIdentity).

Definition Ok {A : Type} (a : A) (same : TreeIdentity) : Result A := Done (a, same).

Definition bind {A B : Type} (m : Fallible A) (k : A -> Fallible B) : Fallible B :=
  match m with
  | Done a => k a
  | Raise e => Raise e
  end.

Notation "x <- m ;; k" := (bind m (fun x => k))
  (at level 61, m at next level, right associativity).
Notation "' p <- m ;; k" := (bind m (fun p => k))
  (at level 61, p pattern, m at next level, right associativity).

(** ** Plan nodes and expressions *)

Inductive JoinType : Type := JoinTypeInner | JoinTypeLeft | JoinTypeRight.

Definition JoinType_eqb (a b : JoinType) : bool :=
  match a, b with
  | JoinTypeInner, JoinTypeInner => true
  | JoinTypeLeft, JoinTypeLeft => true
  | JoinTypeRight, JoinTypeRight => true
  | _, _ => false
  end.

(** Nodes without children. *)
Inductive LeafKind : Type :=
| KResolvedTable (name : string)
| KUnresolvedTable (name : string).

(** Nodes that embed [plan.UnaryNode]; [E] is the type of expressions. *)
Inductive UnaryKind (E : Type) : Type :=
| KProject (Projections : list E)
| KFilter (Expression : E)
| KSubqueryAlias (Name : string) (Columns : list string) (OuterScopeVisibility : bool)
| KTableAlias (Name : string)
| KQueryProcess
| KStartTransaction
| KTransactionCommittingNode
| KCachedResults
| KStripRowNode (numCols : Z)
| KTriggerBeginEndBlock.

Arguments KSubqueryAlias {E}.
Arguments KTableAlias {E}.
Arguments KQueryProcess {E}.
Arguments KStartTransaction {E}.
Arguments KTransactionCommittingNode {E}.
Arguments KCachedResults {E}.
Arguments KStripRowNode {E}.
Arguments KTriggerBeginEndBlock {E}.

(** Nodes that embed [plan.BinaryNode]. [KJoin] is the [plan.JoinNode]
    interface (inner, left and right joins); [*plan.IndexedJoin] is a type
    of its own, which the rules test for separately; [KUnion] is a node
    with two children that is neither. *)
Inductive BinaryKind (E : Type) : Type :=
| KJoin (joinType : JoinType) (Cond : E) (ScopeLen : Z)
| KIndexedJoin (joinType : JoinType) (Cond : E)
| KUnion.

Arguments KUnion {E}.

(** Modelled from the spec: the plan package is not under src/. Section 3:
    a PlanNode is a closed set of variants (scan, filter, join,
    subquery-derived-table, passthrough wrappers, ...) exposing its
    children and, for some variants, its scalar sub-expressions; an
    Expression has literals, field references and a Subquery variant
    wrapping an inner PlanNode plus cached-result metadata. *)
Inductive Node : Type :=
| Leaf (k : LeafKind)
| Unary (k : UnaryKind Expression) (Child : Node)
| Binary (k : BinaryKind Expression) (left right : Node)
with Expression : Type :=
| Literal (v : Z)
| GetField (index : Z)
| UnresolvedColumn (name : string)
| Call (name : string) (nonDeterministic : bool) (args : list Expression)
| Subquery (Query : Node) (canCacheResults : bool).

Definition SubqueryAlias name cols vis child : Node :=
  Unary (KSubqueryAlias name cols vis) child.
Definition TableAlias name child : Node := Unary (KTableAlias name) child.
Definition CachedResults child : Node := Unary KCachedResults child.
Definition StripRowNode child n : Node := Unary (KStripRowNode n) child.

(** [n.Children()] *)
Definition Children (n : Node) : list Node :=
  match n with
  | Leaf _ => []
  | Unary _ c => [c]
  | Binary _ l r => [l; r]
  end.

(** [n.WithChildren(children...)], with the arity check every node makes
    (as [ShowVariables.WithChildren] does for its zero children). *)
Definition WithChildren (n : Node) (children : list Node) : Fallible Node :=
  match n, children with
  | Leaf _, [] => Done n
  | Unary k _, [c] => Done (Unary k c)
  | Binary k _ _, [l; r] => Done (Binary k l r)
  | _, _ => Raise ErrInvalidChildrenNumber
  end.

(** The [sql.Expressioner] interface: [Some] of [n.Expressions()] for the
    nodes that implement it. *)
Definition Expressions (n : Node) : option (list Expression) :=
  match n with
  | Unary (KProject es) _ => Some es
  | Unary (KFilter e) _ => Some [e]
  | Binary (KJoin _ cond _) _ _ => Some [cond]
  | Binary (KIndexedJoin _ cond) _ _ => Some [cond]
  | _ => None
  end.

(** [n.WithExpressions(exprs...)] *)
Definition WithExpressions (n : Node) (exprs : list Expression) : Fallible Node :=
  match n, exprs with
  | Unary (KProject es) c, _ =>
      if Nat.eqb (List.length exprs) (List.length es) then Done (Unary (KProject exprs) c)
      else Raise ErrInvalidChildrenNumber
  | Unary (KFilter _) c, [e] => Done (Unary (KFilter e) c)
  | Binary (KJoin jt _ sl) l r, [e] => Done (Binary (KJoin jt e sl) l r)
  | Binary (KIndexedJoin jt _) l r, [e] => Done (Binary (KIndexedJoin jt e) l r)
  | _, _ => Raise ErrInvalidChildrenNumber
  end.

(** [e.Children()]: a [Subquery] holds a plan, not expressions. *)
Definition ExprChildren (e : Expression) : list Expression :=
  match e with
  | Call _ _ args => args
  | _ => []
  end.

(** [e.WithChildren(children...)] *)
Definition ExprWithChildren (e : Expression) (children : list Expression)
  : Fallible Expression :=
  match e, children with
  | Call name nd args, _ =>
      if Nat.eqb (List.length children) (List.length args) then Done (Call name nd children)
      else Raise ErrInvalidChildrenNumber
  | _, [] => Done e
  | _, _ => Raise ErrInvalidChildrenNumber
  end.

(** ** The tree transformation framework *)

(** Plans and expressions are trees of pointers in Go, and a rewrite
    function that reports [SameTree] returns the pointer it was given. The
    embedding is by value: a child that a rewritten node keeps by identity
    is represented by the value the rewrite of the child returned, so that
    a write made through the pointer of a node ([analyzeSubqueryAlias] sets
    [n.OuterScopeVisibility]) shows in the plan that still holds it. *)

(** The loop over the children that [transform.Node], [transform.NodeWithCtx]
    and [transform.Expr] share: [rec i child] rewrites child [i] ([None]
    when the selector prunes it); the first error stops the loop; a child
    reported [NewTree] replaces the original in the copy [newChildren].
    The identity returned is [SameTree] exactly when [newChildren] stayed
    nil; the list returned holds the children after the loop, the new ones
    and the ones kept by identity. *)
Fixpoint rewriteChildren {A : Type} (rec : Z -> A -> option (Result A))
  (i : Z) (children : list A) : Result (list A) :=
  match children with
  | [] => Ok [] SameTree
  | child :: rest =>
      match rec i child with
      | None =>
          '(rest', sameR) <- rewriteChildren rec (i + 1) rest ;;
          Ok (child :: rest') sameR
      | Some r =>
          '(child', same) <- r ;;
          '(rest', sameR) <- rewriteChildren rec (i + 1) rest ;;
          Ok (child' :: rest') (same && sameR)
      end
  end.

(** The node [n], not rebuilt, seen over its children after the loop. *)
Definition withSharedChildren (n : Node) (children : list Node) : Node :=
  match n, children with
  | Unary k _, [c] => Unary k c
  | Binary k _ _, [l; r] => Binary k l r
  | _, _ => n
  end.

(** The expression [e], not rebuilt, seen over its children after the
    loop. *)
Definition exprWithSharedChildren (e : Expression) (children : list Expression)
  : Expression :=
  match e with
  | Call name nd _ => Call name nd children
  | _ => e
  end.

(** What [transform.Node], [transform.NodeWithCtx] and [transform.Expr] do
    once the loop over the children is over: rebuild the node from
    [newChildren] if that is not nil, offer the node to [f], and report
    [sameC && sameN]. *)
Definition rebuildAndApply {A : Type} (shared : A -> list A -> A)
  (withChildren : A -> list A -> Fallible A)
  (f : A -> Result A) (node : A) (loop : Result (list A)) : Result A :=
  '(children, sameC) <- loop ;;
  node' <- (if sameC then Done (shared node children)
            else withChildren node children) ;;
  '(node'', sameN) <- f node' ;;
  Ok node'' (sameC && sameN).

(** Modelled from the spec: package transform is not under src/. Section
    4.1, context-free mode: bottom-up, the children are rewritten before the
    node itself is offered to [f]; the node is rebuilt (once) only when a
    child changed; the identity is [SameTree] only when neither a child nor
    the node changed. [transform.Node]. *)
Fixpoint transformNode (f : Node -> Result Node) (node : Node) : Result Node :=
  match node with
  | Leaf _ => f node
  | Unary _ c =>
      rebuildAndApply withSharedChildren WithChildren f node
        (rewriteChildren (fun _ child => Some (transformNode f child)) 0 [c])
  | Binary _ l r =>
      rebuildAndApply withSharedChildren WithChildren f node
        (rewriteChildren (fun _ child => Some (transformNode f child)) 0 [l; r])
  end.

(** Modelled from the spec: package transform is not under src/. The same
    bottom-up rewrite over the children of an expression.
    [transform.Expr]. *)
Fixpoint transformExpr (f : Expression -> Result Expression) (e : Expression)
  : Result Expression :=
  match e with
  | Call _ _ args =>
      match args with
      | [] => f e
      | _ :: _ =>
          rebuildAndApply exprWithSharedChildren ExprWithChildren f e
            (rewriteChildren (fun _ child => Some (transformExpr f child)) 0 args)
      end
  | _ => f e
  end.

(** [transform.Context]: the node, its parent (nil at the root) and its
    index among the parent's children. *)
Record Context : Type := mkContext {
  CtxNode : Node;
  Parent : option Node;
  ChildNum : Z
}.

(** [s == nil || s(cc)] *)
Definition selected (s : option (Context -> bool)) (cc : Context) : bool :=
  match s with
  | None => true
  | Some sel => sel cc
  end.

(** Modelled from the spec: package transform is not under src/. Section
    4.1, context-aware mode: [f] also receives the parent and the index of
    the node among its siblings, and the selector is consulted before
    descending into each child; a child it refuses is left as it is, with
    its whole subtree. *)
Fixpoint nodeWithCtxHelper (s : option (Context -> bool)) (f : Context -> Result Node)
  (node : Node) (parent : option Node) (childNum : Z) : Result Node :=
  let visit := fun (i : Z) (child : Node) (r : Result Node) =>
    if selected s (mkContext child (Some node) i) then Some r else None in
  let apply := fun node' => f (mkContext node' parent childNum) in
  match node with
  | Leaf _ => f (mkContext node parent childNum)
  | Unary _ c =>
      rebuildAndApply withSharedChildren WithChildren apply node
        (rewriteChildren
           (fun i child => visit i child (nodeWithCtxHelper s f child (Some node) i))
           0 [c])
  | Binary _ l r =>
      rebuildAndApply withSharedChildren WithChildren apply node
        (rewriteChildren
           (fun i child => visit i child (nodeWithCtxHelper s f child (Some node) i))
           0 [l; r])
  end.

(** [transform.NodeWithCtx] *)
Definition NodeWithCtx (n : Node) (s : option (Context -> bool))
  (f : Context -> Result Node) : Result Node :=
  nodeWithCtxHelper s f n None (-1).

(** Modelled from the spec: package transform is not under src/. Section
    4.1: the companion operation rewrites each scalar sub-expression of a
    node independently and, if any changed, rebuilds the node once with the
    full new expression list. [transform.OneNodeExprsWithNode]. *)
Definition OneNodeExprsWithNode (n : Node)
  (f : Node -> Expression -> Result Expression) : Result Node :=
  match Expressions n with
  | None => Ok n SameTree
  | Some exprs =>
      '(newExprs, same) <-
        rewriteChildren (fun _ e => Some (transformExpr (f n) e)) 0 exprs ;;
      if same then Ok n SameTree
      else (n' <- WithExpressions n newExprs ;; Ok n' NewTree)
  end.

(** [transform.NodeExprsWithNode] *)
Definition NodeExprsWithNode (n : Node)
  (f : Node -> Expression -> Result Expression) : Result Node :=
  transformNode (fun node => OneNodeExprsWithNode node f) n.

(** Modelled from the spec: package transform is not under src/.
    [transform.Inspect] walks a plan in depth-first order, parents first;
    a node for which the visitor answers false has its children skipped.
    The variables the Go closure captures and assigns are the state [S]
    threaded through the walk. *)
Fixpoint Inspect {S : Type} (f : Node -> S -> bool * S) (node : Node) (s : S) : S :=
  let '(descend, s1) := f node s in
  if descend then
    match node with
    | Leaf _ => s1
    | Unary _ c => fold_left (fun st child => Inspect f child st) [c] s1
    | Binary _ l r => fold_left (fun st child => Inspect f child st) [l; r] s1
    end
  else s1.

(** Modelled from the spec: package sql is not under src/. [sql.Inspect],
    the same walk over the children of an expression. *)
Fixpoint InspectExpr {S : Type} (f : Expression -> S -> bool * S)
  (e : Expression) (s : S) : S :=
  let '(descend, s1) := f e s in
  if descend then
    match e with
    | Call _ _ args => fold_left (fun st child => InspectExpr f child st) args s1
    | _ => s1
    end
  else s1.

(** ** Scopes *)

(** Modelled from the spec: the analyzer's Scope is not under src/. Section
    3: the enclosing plan nodes, innermost first, and a recursion-depth
    counter. A [*Scope] may be nil. *)
Record ScopeData : Type := mkScope {
  nodes : list Node;
  recursionDepth : Z
}.

Definition Scope : Type := option ScopeData.

(** [scope.RecursionDepth()]: 0 for the nil scope of the outermost query. *)
Definition RecursionDepth (scope : Scope) : Z :=
  match scope with
  | None => 0
  | Some s => recursionDepth s
  end.

(** [newScopeWithDepth(depth)] *)
Definition newScopeWithDepth (depth : Z) : ScopeData := mkScope [] depth.

(** [scope.InnerToOuter()] *)
Definition InnerToOuter (scope : Scope) : list Node :=
  match scope with
  | None => []
  | Some s => nodes s
  end.

(** [scope.IsEmpty()] *)
Definition IsEmpty (scope : Scope) : bool :=
  match scope with
  | None => true
  | Some s => Nat.eqb (List.length (nodes s)) 0
  end.

(** ** The analyzer the rules call back into *)

Definition RuleId : Type := nat.
Definition RuleSelector : Type := RuleId -> bool.
Definition BatchSelector : Type := string -> bool.
Definition SelectAllBatches : BatchSelector := fun _ => true.

(** What an entry point of the analyzer returns: Go's
    [(sql.Node, transform.TreeIdentity, error)], where the node is the
    work done so far also when the error is not nil. *)
Record Analysis : Type := mkAnalysis {
  analyzed : Node;
  analyzedSame : TreeIdentity;
  analyzedErr : option ErrorKind
}.

(** The methods of [*Analyzer] the rules call; their bodies are not under
    src/, so the rules are embedded for any analyzer [a]. *)
Record Analyzer : Type := mkAnalyzer {
  analyzeWithSelector : Node -> Scope -> BatchSelector -> RuleSelector -> Analysis;
  analyzeThroughBatch : Node -> Scope -> string -> RuleSelector -> Analysis;
  analyzeStartingAtBatch : Node -> Scope -> string -> RuleSelector -> Analysis
}.

(** ** Views of the nodes the rules type-switch on *)

(** The fields of a [*plan.SubqueryAlias]. *)
Record SubqueryAliasT : Type := mkSubqueryAlias {
  sqaName : string;
  sqaColumns : list string;
  OuterScopeVisibility : bool;
  sqaChild : Node
}.

Definition sqaNode (n : SubqueryAliasT) : Node :=
  SubqueryAlias (sqaName n) (sqaColumns n) (OuterScopeVisibility n) (sqaChild n).

(** The type assertion of [n] to [*plan.SubqueryAlias]. *)
Definition asSubqueryAlias (n : Node) : option SubqueryAliasT :=
  match n with
  | Unary (KSubqueryAlias name cols vis) c => Some (mkSubqueryAlias name cols vis c)
  | _ => None
  end.

Definition isSubqueryAlias (n : Node) : bool :=
  match asSubqueryAlias n with Some _ => true | None => false end.

(** The type assertion to [plan.JoinNode] of a parent that may be nil. *)
Definition isJoinNode (p : option Node) : bool :=
  match p with
  | Some (Binary (KJoin _ _ _) _ _) => true
  | _ => false
  end.

(** The type assertion to [*plan.IndexedJoin] of a parent that may be nil. *)
Definition isIndexedJoin (p : option Node) : bool :=
  match p with
  | Some (Binary (KIndexedJoin _ _) _ _) => true
  | _ => false
  end.

(** ** The rules *)

(** [StripPassthroughNodes]: the loop replaces [n] by its child as long as
    [n] is one of the three passthrough wrappers. *)
Fixpoint StripPassthroughNodes (n : Node) : Node :=
  match n with
  | Unary KQueryProcess child => StripPassthroughNodes child
  | Unary KStartTransaction child => StripPassthroughNodes child
  | Unary KTransactionCommittingNode child => StripPassthroughNodes child
  | _ => n
  end.

(** [sq.WithQuery(node)]: a copy of the subquery with the new plan. *)
Definition WithQuery (canCacheResults : bool) (node : Node) : Expression :=
  Subquery node canCacheResults.

(** [s.WithCachedResults()]: a copy with [canCacheResults] set. *)
Definition WithCachedResults (query : Node) : Expression :=
  Subquery query true.

(** [sa.WithName(name)] and [ta.WithName(name)]: a copy of the alias under
    the new name. *)
Definition WithName (name : string) (n : Node) : Node :=
  match n with
  | Unary (KSubqueryAlias _ cols vis) c => Unary (KSubqueryAlias name cols vis) c
  | Unary (KTableAlias _) c => Unary (KTableAlias name) c
  | _ => n
  end.

(** The type assertion of [n] to [*plan.TableAlias]. *)
Definition isTableAlias (n : Node) : bool :=
  match n with
  | Unary (KTableAlias _) _ => true
  | _ => false
  end.

(** [flattenTableAliases], the function passed to [transform.Node];
    [child] is [n.Children()[0]]. *)
Definition flattenTableAliasesFn (n : Node) : Result Node :=
  match n with
  | Unary (KTableAlias name) child =>
      if isSubqueryAlias child then Ok (WithName name child) NewTree
      else if isTableAlias child then Ok (WithName name child) NewTree
      else Ok n SameTree
  | _ => Ok n SameTree
  end.

Definition flattenTableAliases (n : Node) : Result Node :=
  transformNode flattenTableAliasesFn n.

Section Rules.

(** Parts of the repository the rules use that are not under src/. *)

(** [schemaLength(node)] of the analyzer package. *)
Variable schemaLength : Node -> Z.
(** [scope.newScope(node)]: the scope of a subquery expression written in
    [node]. *)
Variable newScope : Scope -> Node -> Scope.
(** [len(scope.Schema())] *)
Variable scopeSchemaLen : Scope -> Z.
(** [NewSubqueryExprResolveSelector(sel)] *)
Variable NewSubqueryExprResolveSelector : RuleSelector -> RuleSelector.
(** [n.Resolved()] on a plan; a [*plan.Subquery] is resolved when its
    query is. *)
Variable Resolved : Node -> bool.
(** Whether a [*plan.Subquery] with the given query and [canCacheResults]
    implements [sql.NonDeterministicExpression] and answers true. *)
Variable subqueryIsNonDeterministic : Node -> bool -> bool.

(** [sq.Resolved()] of an expression that is a subquery. *)
Definition subqueryResolved (query : Node) : bool := Resolved query.

(** [nd, ok := e.(sql.NonDeterministicExpression); ok && nd.IsNonDeterministic()] *)
Definition IsNonDeterministic (e : Expression) : bool :=
  match e with
  | Call _ nd _ => nd
  | Subquery q c => subqueryIsNonDeterministic q c
  | _ => false
  end.

(** The scope a subquery-derived-table is analyzed under, lines 326 to 333
    of [analyzeSubqueryAlias]. *)
Definition subqueryAliasScope (scope : Scope) : Scope :=
  let subScope := newScopeWithDepth (RecursionDepth scope + 1) in
  match scope with
  | Some s =>
      if (0 <? Z.of_nat (List.length (nodes s)))
      then Some (mkScope (InnerToOuter scope) (recursionDepth subScope))
      else Some subScope
  | None => Some subScope
  end.

(** The write [n.OuterScopeVisibility = true] of line 334, made through
    the pointer [n] under the same condition. *)
Definition grantOuterScopeVisibility (scope : Scope) (n : SubqueryAliasT)
  : SubqueryAliasT :=
  match scope with
  | Some s =>
      if (0 <? Z.of_nat (List.length (nodes s)))
      then mkSubqueryAlias (sqaName n) (sqaColumns n) true (sqaChild n)
      else n
  | None => n
  end.

(** [analyzeSubqueryAlias] *)
Definition analyzeSubqueryAlias (a : Analyzer) (n : SubqueryAliasT) (scope : Scope)
  (sel : RuleSelector) (finalize : bool) : Result Node :=
  let subScope := subqueryAliasScope scope in
  let n := grantOuterScopeVisibility scope n in
  let r :=
    if finalize
    then analyzeStartingAtBatch a (sqaChild n) subScope "default-rules" sel
    else analyzeThroughBatch a (sqaChild n) subScope "default-rules" sel in
  let child := analyzed r in
  let same := analyzedSame r in
  match analyzedErr r with
  | Some err => Raise err
  | None =>
      if (0 <? Z.of_nat (List.length (sqaColumns n)))
         && negb (schemaLength child =? Z.of_nat (List.length (sqaColumns n)))
      then Raise ErrColumnCountMismatch
      else if same then Ok (sqaNode n) SameTree
      else
        newn <- WithChildren (sqaNode n) [StripPassthroughNodes child] ;;
        Ok newn NewTree
  end.

(** [analyzeSubqueryExpression]; [sq] is given by its two fields. *)
Definition analyzeSubqueryExpression (a : Analyzer) (n : Node) (query : Node)
  (canCacheResults : bool) (scope : Scope) (sel : RuleSelector) (finalize : bool)
  : Result Expression :=
  let subScope := newScope scope n in
  let r :=
    if finalize
    then analyzeWithSelector a query subScope SelectAllBatches sel
    else analyzeWithSelector a query subScope SelectAllBatches
           (NewSubqueryExprResolveSelector sel) in
  match analyzedErr r with
  | Some err =>
      if negb finalize
         && (Is ErrValidationResolved err
             || Is ErrTableColumnNotFound err
             || Is ErrColumnNotFound err)
      then Ok (WithQuery canCacheResults (analyzed r)) NewTree
      else Raise err
  | None =>
      Ok (WithQuery canCacheResults (StripPassthroughNodes (analyzed r))) NewTree
  end.

(** [selectorFunc] of [resolveSubqueries] and [finalizeSubqueries]. *)
Definition selectorFunc (context : Context) : bool :=
  match Parent context with
  | Some p => negb (isSubqueryAlias p)
  | None => true
  end.

(** The function [ctxFunc] passes to [transform.Expr] for the expressions
    of [node]. *)
Definition subqueryExprFn (a : Analyzer) (scope : Scope) (sel : RuleSelector)
  (finalize : bool) (node : Node) (e : Expression) : Result Expression :=
  match e with
  | Subquery q c => analyzeSubqueryExpression a node q c scope sel finalize
  | _ => Ok e SameTree
  end.

(** [ctxFunc] of [resolveSubqueries] ([finalize = false]) and of
    [finalizeSubqueries] ([finalize = true]); the two Go closures differ in
    that argument only. *)
Definition ctxFunc (a : Analyzer) (scope : Scope) (sel : RuleSelector)
  (finalize : bool) (context : Context) : Result Node :=
  match asSubqueryAlias (CtxNode context) with
  | Some sqa => analyzeSubqueryAlias a sqa scope sel finalize
  | None =>
      match Expressions (CtxNode context) with
      | Some exprs =>
          '(newExprs, same) <-
            rewriteChildren
              (fun _ expr =>
                 Some (transformExpr
                         (subqueryExprFn a scope sel finalize (CtxNode context)) expr))
              0 exprs ;;
          if same then Ok (CtxNode context) SameTree
          else
            newNode <- WithExpressions (CtxNode context) newExprs ;;
            Ok newNode NewTree
      | None => Ok (CtxNode context) SameTree
      end
  end.

Definition resolveSubqueries (a : Analyzer) (n : Node) (scope : Scope)
  (sel : RuleSelector) : Result Node :=
  NodeWithCtx n (Some selectorFunc) (ctxFunc a scope sel false).

Definition finalizeSubqueries (a : Analyzer) (n : Node) (scope : Scope)
  (sel : RuleSelector) : Result Node :=
  NodeWithCtx n (Some selectorFunc) (ctxFunc a scope sel true).

(** [exprIsCacheable]: the captured [cacheable] is the state of the walk. *)
Definition exprIsCacheable (expr : Expression) (lowestAllowedIdx : Z) : bool :=
  InspectExpr
    (fun e cacheable =>
       let belowBoundary :=
         match e with
         | GetField index => index <? lowestAllowedIdx
         | _ => false
         end in
       if belowBoundary then (false, false)
       else if IsNonDeterministic e then (false, false)
       else (true, cacheable))
    expr true.

(** [nodeIsCacheable] *)
Definition nodeIsCacheable (n : Node) (lowestAllowedIdx : Z) : bool :=
  Inspect
    (fun node cacheable =>
       match Expressions node with
       | Some exprs =>
           if forallb (fun expr => exprIsCacheable expr lowestAllowedIdx) exprs
           then (true, cacheable)
           else (false, false)
       | None =>
           if isSubqueryAlias node then (false, false) else (true, cacheable)
       end)
    n true.

(** The function [cacheSubqueryResults] passes to
    [transform.NodeExprsWithNode]. *)
Definition cacheSubqueryResultsFn (scope : Scope) (n : Node) (e : Expression)
  : Result Expression :=
  match e with
  | Subquery query _ =>
      if negb (subqueryResolved query) then Ok e SameTree
      else
        let scopeLen := scopeSchemaLen (newScope scope n) in
        let cacheable := nodeIsCacheable query scopeLen in
        if cacheable then Ok (WithCachedResults query) NewTree
        else Ok e SameTree
  | _ => Ok e SameTree
  end.

(** [cacheSubqueryResults] *)
Definition cacheSubqueryResults (n : Node) (scope : Scope) : Result Node :=
  match n with
  | Unary KTriggerBeginEndBlock _ => Ok n SameTree
  | _ => NodeExprsWithNode n (cacheSubqueryResultsFn scope)
  end.

(** The first function of [cacheSubqueryAlisesInJoins]: wrap. *)
Definition cacheAliasFn (c : Context) : Result Node :=
  let isJoin := isJoinNode (Parent c) in
  let isIndexedJoin := isIndexedJoin (Parent c) in
  if isJoin || isIndexedJoin then
    if isSubqueryAlias (CtxNode c) then Ok (CachedResults (CtxNode c)) NewTree
    else Ok (CtxNode c) SameTree
  else Ok (CtxNode c) SameTree.

(** The selector of the cleanup of [cacheSubqueryAlisesInJoins]. *)
Definition primarySelector (c : Context) : bool :=
  match Parent c with
  | Some (Binary (KIndexedJoin _ _) _ _) => ChildNum c =? 0
  | Some (Binary (KJoin jt _ _) _ _) =>
      if JoinType_eqb jt JoinTypeRight then ChildNum c =? 1 else ChildNum c =? 0
  | _ => true
  end.

(** The second function of [cacheSubqueryAlisesInJoins]: unwrap. *)
Definition uncacheFn (c : Context) : Result Node :=
  match CtxNode c with
  | Unary KCachedResults child => Ok child NewTree
  | _ => Ok (CtxNode c) SameTree
  end.

(** [cacheSubqueryAlisesInJoins] *)
Definition cacheSubqueryAlisesInJoins (n : Node) (scope : Scope) : Result Node :=
  '(n, sameA) <- NodeWithCtx n None cacheAliasFn ;;
  if IsEmpty scope then
    '(n, sameD) <- NodeWithCtx n (Some primarySelector) uncacheFn ;;
    Ok n (sameA && sameD)
  else Ok n (sameA && SameTree).

(** The function [setJoinScopeLen] passes to [transform.Node]. *)
Definition setJoinScopeLenFn (scopeLen : Z) (n : Node) : Result Node :=
  match n with
  | Binary (KJoin jt cond _) l r =>
      let nj := Binary (KJoin jt cond scopeLen) l r in
      match l with
      | Unary (KStripRowNode _) _ => Ok nj NewTree
      | _ =>
          nj <- WithChildren nj [StripRowNode l scopeLen; StripRowNode r scopeLen] ;;
          Ok nj NewTree
      end
  | _ => Ok n SameTree
  end.

(** [setJoinScopeLen] *)
Definition setJoinScopeLen (n : Node) (scope : Scope) : Result Node :=
  let scopeLen := scopeSchemaLen scope in
  if scopeLen =? 0 then Ok n SameTree
  else transformNode (setJoinScopeLenFn scopeLen) n.

(** ** Vocabulary of the properties *)

(** The passthrough wrappers: query tracking and transaction logic. *)
Definition isPassthrough (n : Node) : bool :=
  match n with
  | Unary KQueryProcess _ => true
  | Unary KStartTransaction _ => true
  | Unary KTransactionCommittingNode _ => true
  | _ => false
  end.

(** The errors that mean "not enough information yet". *)
Definition deferrable (err : ErrorKind) : bool :=
  Is ErrValidationResolved err || Is ErrTableColumnNotFound err
  || Is ErrColumnNotFound err.

(** The call [analyzeSubqueryExpression] makes to the analyzer. *)
Definition subqueryExpressionAnalysis (a : Analyzer) (n query : Node)
  (scope : Scope) (sel : RuleSelector) (finalize : bool) : Analysis :=
  if finalize
  then analyzeWithSelector a query (newScope scope n) SelectAllBatches sel
  else analyzeWithSelector a query (newScope scope n) SelectAllBatches
         (NewSubqueryExprResolveSelector sel).

(** The call [analyzeSubqueryAlias] makes to the analyzer. *)
Definition subqueryAliasAnalysis (a : Analyzer) (child : Node) (scope : Scope)
  (sel : RuleSelector) (finalize : bool) : Analysis :=
  if finalize
  then analyzeStartingAtBatch a child (subqueryAliasScope scope) "default-rules" sel
  else analyzeThroughBatch a child (subqueryAliasScope scope) "default-rules" sel.

(** A subquery expression occurs in [e], at [e] or below it. *)
Fixpoint containsSubquery (e : Expression) : bool :=
  match e with
  | Subquery _ _ => true
  | Call _ _ args => existsb containsSubquery args
  | _ => false
  end.

(** One of the expressions of the node [n] holds a subquery expression. *)
Definition exprsHaveSubquery (n : Node) : bool :=
  match Expressions n with
  | Some exprs => existsb containsSubquery exprs
  | None => false
  end.

(** A subquery expression sits in the part of the plan one pass of
    [resolveSubqueries] walks itself: not below a subquery-derived-table,
    whose body the pass hands to the analyzer. *)
Fixpoint subqueryInPass (n : Node) : bool :=
  match n with
  | Leaf _ => false
  | Unary k c =>
      if isSubqueryAlias n then false
      else exprsHaveSubquery n || subqueryInPass c
  | Binary k l r => exprsHaveSubquery n || subqueryInPass l || subqueryInPass r
  end.

(** A subquery expression sits in an expression of some node of the plan,
    bodies of subquery-derived-tables included. *)
Fixpoint subqueryInPlan (n : Node) : bool :=
  match n with
  | Leaf _ => false
  | Unary k c => exprsHaveSubquery n || subqueryInPlan c
  | Binary k l r => exprsHaveSubquery n || subqueryInPlan l || subqueryInPlan r
  end.

(** A table alias over a subquery-derived-table or over a table alias. *)
Definition flattenable (n : Node) : bool :=
  match n with
  | Unary (KTableAlias _) child => isSubqueryAlias child || isTableAlias child
  | _ => false
  end.

(** Some node of the plan is [flattenable]. *)
Fixpoint hasFlattenable (n : Node) : bool :=
  match n with
  | Leaf _ => false
  | Unary _ c => flattenable n || hasFlattenable c
  | Binary _ l r => hasFlattenable l || hasFlattenable r
  end.

(** The scope of the [depth]-th of a chain of nested
    subquery-derived-tables under [outer]. *)
Fixpoint nestedAliasScope (depth : nat) (outer : Scope) : Scope :=
  match depth with
  | O => outer
  | S d => subqueryAliasScope (nestedAliasScope d outer)
  end.

(** [m] is a node of the plan [n]. *)
Inductive InPlan (m : Node) : Node -> Prop :=
| InPlan_here : InPlan m m
| InPlan_child : forall k c, InPlan m c -> InPlan m (Unary k c)
| InPlan_left : forall k l r, InPlan m l -> InPlan m (Binary k l r)
| InPlan_right : forall k l r, InPlan m r -> InPlan m (Binary k l r).

(** A subquery-derived-table or a table alias. *)
Definition aliasLike (n : Node) : bool := isSubqueryAlias n || isTableAlias n.

(** The type assertion of [n] to [*plan.StripRowNode]. *)
Definition isStripRowNode (n : Node) : bool :=
  match n with
  | Unary (KStripRowNode _) _ => true
  | _ => false
  end.

(** Some node of the plan is a [plan.JoinNode]. *)
Fixpoint hasJoinNode (n : Node) : bool :=
  match n with
  | Leaf _ => false
  | Unary _ c => hasJoinNode c
  | Binary k l r =>
      match k with
      | KJoin _ _ _ => true
      | _ => hasJoinNode l || hasJoinNode r
      end
  end.

(** Every [plan.JoinNode] of the plan carries the scope length [scopeLen]
    and has a strip-wrapper as its left child. *)
Fixpoint joinsAnnotated (scopeLen : Z) (n : Node) : bool :=
  match n with
  | Leaf _ => true
  | Unary _ c => joinsAnnotated scopeLen c
  | Binary k l r =>
      match k with
      | KJoin _ _ sl => (sl =? scopeLen) && isStripRowNode l
      | _ => true
      end && joinsAnnotated scopeLen l && joinsAnnotated scopeLen r
  end.

(** The plan with every [plan.JoinNode] annotated with [scopeLen], and with
    strip-wrappers inserted around both children of a join unless its left
    child already is one. *)
Fixpoint withJoinScopeLen (scopeLen : Z) (n : Node) : Node :=
  match n with
  | Leaf _ => n
  | Unary k c => Unary k (withJoinScopeLen scopeLen c)
  | Binary k l r =>
      let l' := withJoinScopeLen scopeLen l in
      let r' := withJoinScopeLen scopeLen r in
      match k with
      | KJoin jt cond _ =>
          if isStripRowNode l' then Binary (KJoin jt cond scopeLen) l' r'
          else Binary (KJoin jt cond scopeLen)
                 (StripRowNode l' scopeLen) (StripRowNode r' scopeLen)
      | _ => Binary k l' r'
      end
  end.

(** The type assertion of [n] to [*plan.CachedResults]. *)
Definition isCachedResults (n : Node) : bool :=
  match n with
  | Unary KCachedResults _ => true
  | _ => false
  end.

(** A [plan.JoinNode] or a [*plan.IndexedJoin]. *)
Definition isJoinKind (k : BinaryKind Expression) : bool :=
  match k with
  | KJoin _ _ _ => true
  | KIndexedJoin _ _ => true
  | KUnion => false
  end.

(** The parent (nil at the root) is a join or an indexed join. *)
Definition underJoin (parent : option Node) : bool :=
  isJoinNode parent || isIndexedJoin parent.

(** The plan with every subquery-derived-table that is a direct child of a
    join or an indexed join wrapped in a caching node; [joined] tells
    whether the parent of [n] is such a join. *)
Fixpoint wrapJoined (joined : bool) (n : Node) : Node :=
  let n' :=
    match n with
    | Leaf _ => n
    | Unary k c => Unary k (wrapJoined false c)
    | Binary k l r => Binary k (wrapJoined (isJoinKind k) l) (wrapJoined (isJoinKind k) r)
    end in
  if joined && isSubqueryAlias n then CachedResults n' else n'.

(** Some subquery-derived-table of the plan is a direct child of a join or
    an indexed join. *)
Fixpoint hasJoinedAlias (joined : bool) (n : Node) : bool :=
  (joined && isSubqueryAlias n)
  || match n with
     | Leaf _ => false
     | Unary _ c => hasJoinedAlias false c
     | Binary k l r =>
         hasJoinedAlias (isJoinKind k) l || hasJoinedAlias (isJoinKind k) r
     end.

(** The children of a binary node on its most primary branch: child 0 of a
    join or an indexed join, child 1 of a right join; a node that is no
    join has no non-primary side. *)
Definition leftIsPrimary (k : BinaryKind Expression) : bool :=
  match k with
  | KIndexedJoin _ _ => true
  | KJoin jt _ _ => negb (JoinType_eqb jt JoinTypeRight)
  | KUnion => true
  end.

Definition rightIsPrimary (k : BinaryKind Expression) : bool :=
  match k with
  | KIndexedJoin _ _ => false
  | KJoin jt _ _ => JoinType_eqb jt JoinTypeRight
  | KUnion => true
  end.

(** The plan without the caching nodes of its most primary branch. *)
Fixpoint uncachePrimary (n : Node) : Node :=
  match n with
  | Leaf _ => n
  | Unary k c =>
      match k with
      | KCachedResults => uncachePrimary c
      | _ => Unary k (uncachePrimary c)
      end
  | Binary k l r =>
      Binary k (if leftIsPrimary k then uncachePrimary l else l)
               (if rightIsPrimary k then uncachePrimary r else r)
  end.

(** A caching node sits on the most primary branch of the plan. *)
Fixpoint primaryCached (n : Node) : bool :=
  match n with
  | Leaf _ => false
  | Unary k c => isCachedResults n || primaryCached c
  | Binary k l r =>
      (leftIsPrimary k && primaryCached l) || (rightIsPrimary k && primaryCached r)
  end.

(** No join or indexed join of the plan has a bare subquery-derived-table
    as the child on its non-primary side. *)
Fixpoint nonPrimaryWrapped (n : Node) : bool :=
  match n with
  | Leaf _ => true
  | Unary _ c => nonPrimaryWrapped c
  | Binary k l r =>
      (leftIsPrimary k || negb (isJoinKind k && isSubqueryAlias l))
      && (rightIsPrimary k || negb (isJoinKind k && isSubqueryAlias r))
      && nonPrimaryWrapped l && nonPrimaryWrapped r
  end.

(** No join or indexed join of the plan has a bare subquery-derived-table
    as a child. *)
Fixpoint joinedWrapped (n : Node) : bool :=
  match n with
  | Leaf _ => true
  | Unary _ c => joinedWrapped c
  | Binary k l r =>
      negb (isJoinKind k && isSubqueryAlias l)
      && negb (isJoinKind k && isSubqueryAlias r)
      && joinedWrapped l && joinedWrapped r
  end.

(** What [nodeWithCtxHelper] gets for child [i] of [node]: the rewrite of
    the child, or the child as it is when the selector refuses it. *)
Definition visitChild (s : option (Context -> bool)) (f : Context -> Result Node)
  (node : Node) (i : Z) (child : Node) : Result Node :=
  if selected s (mkContext child (Some node) i)
  then nodeWithCtxHelper s f child (Some node) i
  else Ok child SameTree.

(** [x] is [e] or an expression below it. *)
Inductive InExpr (x : Expression) : Expression -> Prop :=
| InExpr_here : InExpr x x
| InExpr_arg : forall name nd args a,
    In a args -> InExpr x a -> InExpr x (Call name nd args).

(** [x] occurs in an expression of some node of the plan [q]. *)
Definition exprOfPlan (q : Node) (x : Expression) : Prop :=
  exists m exprs e,
    InPlan m q /\ Expressions m = Some exprs /\ In e exprs /\ InExpr x e.

(** The body [q] of a subquery expression may be cached: every field
    reference in it has an index at or above [lowest], no expression in it
    is non-deterministic, and it holds no subquery-derived-table. *)
Definition bodyCacheable (q : Node) (lowest : Z) : Prop :=
  (forall i, exprOfPlan q (GetField i) -> lowest <= i)
  /\ (forall x, exprOfPlan q x -> IsNonDeterministic x = false)
  /\ (forall m, InPlan m q -> isSubqueryAlias m = false).

(** The same with the fourth condition as the specification words it: no
    subquery-derived-table with outer-scope visibility. *)
Definition bodyCacheableOuterOnly (q : Node) (lowest : Z) : Prop :=
  (forall i, exprOfPlan q (GetField i) -> lowest <= i)
  /\ (forall x, exprOfPlan q x -> IsNonDeterministic x = false)
  /\ (forall m s, InPlan m q -> asSubqueryAlias m = Some s ->
                  OuterScopeVisibility s = false).

(** What [exprIsCacheable] tests at one expression. *)
Definition exprOk (lowest : Z) (e : Expression) : bool :=
  negb (match e with GetField index => index <? lowest | _ => false end)
  && negb (IsNonDeterministic e).

Fixpoint allExprOk (lowest : Z) (e : Expression) : bool :=
  exprOk lowest e
  && match e with
     | Call _ _ args => forallb (allExprOk lowest) args
     | _ => true
     end.

(** What [nodeIsCacheable] tests at one node. *)
Definition nodeOk (lowest : Z) (n : Node) : bool :=
  match Expressions n with
  | Some exprs => forallb (allExprOk lowest) exprs
  | None => negb (isSubqueryAlias n)
  end.

Fixpoint allNodesOk (lowest : Z) (n : Node) : bool :=
  nodeOk lowest n
  && match n with
     | Leaf _ => true
     | Unary _ c => allNodesOk lowest c
     | Binary _ l r => allNodesOk lowest l && allNodesOk lowest r
     end.

(** ** Sample plans, scopes and analyzers *)

Definition sampleTable : Node := Leaf (KResolvedTable "t").

(** [SELECT a, b FROM t] *)
Definition sampleTwoColumns : Node :=
  Unary (KProject [GetField 0; GetField 1]) sampleTable.

(** [(SELECT a, b FROM t) AS x (c)]: one declared column, two produced. *)
Definition sampleBadAlias : SubqueryAliasT :=
  mkSubqueryAlias "x" ["c"%string] false sampleTwoColumns.

(** [(SELECT a, b FROM t) AS y] *)
Definition sampleAlias : SubqueryAliasT :=
  mkSubqueryAlias "y" [] false sampleTwoColumns.

(** A derived table over a table that does not exist. *)
Definition sampleMissingAlias : SubqueryAliasT :=
  mkSubqueryAlias "z" [] false (Leaf (KUnresolvedTable "missing")).

(** [z JOIN x (c)] *)
Definition sampleJoinOfAliases : Node :=
  Binary (KJoin JoinTypeInner (Literal 1) 0)
    (sqaNode sampleMissingAlias) (sqaNode sampleBadAlias).

(** [x JOIN y], two derived tables. *)
Definition sampleJoin : Node :=
  Binary (KJoin JoinTypeInner (Literal 1) 0) (sqaNode sampleAlias) (sqaNode sampleAlias).

(** A projection of two columns of its own table, read under a scope of
    one column. *)
Definition sampleInnerColumns : Node :=
  Unary (KProject [GetField 1; GetField 2]) sampleTable.

(** The same projection as a derived table without outer-scope
    visibility. *)
Definition sampleDerivedBody : Node :=
  SubqueryAlias "y" [] false sampleInnerColumns.

(** [WHERE (subquery)] over [t], for a subquery with the given body. *)
Definition sampleFilter (body : Node) : Node :=
  Unary (KFilter (Subquery body false)) sampleTable.

(** [WHERE missing_column] over [t]. *)
Definition sampleUnresolvedFilter : Node :=
  Unary (KFilter (UnresolvedColumn "missing_column")) sampleTable.

(** [SELECT FROM (SELECT a, b FROM t) AS y], the derived table below a
    projection. *)
Definition sampleProjectOfAlias (outerScopeVisibility : bool) : Node :=
  Unary (KProject [])
    (SubqueryAlias "y" [] outerScopeVisibility sampleTwoColumns).

(** A derived table whose body filters by a subquery expression. *)
Definition sampleAliasOfFilter : Node :=
  SubqueryAlias "y" [] false (sampleFilter sampleTwoColumns).

(** [t AS a AS b] *)
Definition sampleNestedAlias : Node :=
  TableAlias "b" (TableAlias "a" sampleTable).

Definition sampleSelector : RuleSelector := fun _ => true.

(** A scope with one enclosing node. *)
Definition sampleScope : Scope := Some (mkScope [sampleTable] 0).

(** The number of projections of a projection, and 0 otherwise. *)
Definition sampleSchemaLength (n : Node) : Z :=
  match n with
  | Unary (KProject projections) _ => Z.of_nat (List.length projections)
  | _ => 0
  end.

Definition sampleNewScope (scope : Scope) (n : Node) : Scope :=
  Some (mkScope (n :: InnerToOuter scope) (RecursionDepth scope)).

(** One column for each node of the scope. *)
Definition sampleScopeSchemaLen (scope : Scope) : Z :=
  Z.of_nat (List.length (InnerToOuter scope)).

Definition sampleResolveSelector (sel : RuleSelector) : RuleSelector := sel.

Fixpoint sampleResolved (n : Node) : bool :=
  match n with
  | Leaf (KResolvedTable _) => true
  | Leaf (KUnresolvedTable _) => false
  | Unary _ c => sampleResolved c
  | Binary _ l r => sampleResolved l && sampleResolved r
  end.

Definition sampleSubqueryNonDeterministic (q : Node) (canCacheResults : bool) : bool :=
  negb canCacheResults.

(** An analysis that leaves the plan as it is, and fails on an unresolved
    table and on a filter by an unresolved column. *)
Definition sampleAnalysis (q : Node) : Analysis :=
  match q with
  | Leaf (KUnresolvedTable _) => mkAnalysis q SameTree (Some (ErrOther 1))
  | Unary (KFilter (UnresolvedColumn _)) _ =>
      mkAnalysis q SameTree (Some ErrColumnNotFound)
  | _ => mkAnalysis q SameTree None
  end.

Definition sampleAnalyzer : Analyzer :=
  mkAnalyzer (fun q _ _ _ => sampleAnalysis q) (fun q _ _ _ => sampleAnalysis q)
    (fun q _ _ _ => sampleAnalysis q).

(** An analyzer that leaves every plan as it is and never fails. *)
Definition sampleLenientAnalyzer : Analyzer :=
  let analysis := fun q => mkAnalysis q SameTree None in
  mkAnalyzer (fun q _ _ _ => analysis q) (fun q _ _ _ => analysis q)
    (fun q _ _ _ => analysis q).

(** An analyzer that wraps every plan in a query-tracking node and reports
    it changed. *)
Definition sampleTrackingAnalyzer : Analyzer :=
  let analysis := fun q => mkAnalysis (Unary KQueryProcess q) NewTree None in
  mkAnalyzer (fun q _ _ _ => analysis q) (fun q _ _ _ => analysis q)
    (fun q _ _ _ => analysis q).

(** ** Further functions of the file and the vocabulary of their properties *)

(** [getSubqueryAlias]: the captured [sq] is the state of the walk. *)
Definition getSubqueryAlias (node : Node) : option SubqueryAliasT :=
  Inspect
    (fun node sq =>
       match sq with
       | Some _ => (false, sq)
       | None =>
           match asSubqueryAlias node with
           | Some n => (false, Some n)
           | None => (true, None)
           end
       end)
    node None.

(** The nodes of a plan, parents first, left to right. *)
Fixpoint preorder (n : Node) : list Node :=
  n :: match n with
       | Leaf _ => []
       | Unary _ c => preorder c
       | Binary _ l r => preorder l ++ preorder r
       end.

(** The first subquery-derived-table of a list of nodes. *)
Fixpoint firstAlias (l : list Node) : option SubqueryAliasT :=
  match l with
  | [] => None
  | m :: rest =>
      match asSubqueryAlias m with
      | Some s => Some s
      | None => firstAlias rest
      end
  end.

(** Some node of the plan is a subquery-derived-table. *)
Fixpoint hasAlias (n : Node) : bool :=
  isSubqueryAlias n
  || match n with
     | Leaf _ => false
     | Unary _ c => hasAlias c
     | Binary _ l r => hasAlias l || hasAlias r
     end.

(** [base] under a stack of table aliases, the first name outermost. *)
Definition aliasChain (names : list string) (base : Node) : Node :=
  fold_right TableAlias base names.

(** The kinds of the passthrough wrappers. *)
Definition passthroughKind (k : UnaryKind Expression) : bool :=
  match k with
  | KQueryProcess => true
  | KStartTransaction => true
  | KTransactionCommittingNode => true
  | _ => false
  end.

(** [n] under a stack of unary nodes of the given kinds, the first
    outermost. *)
Definition wrapAll (kinds : list (UnaryKind Expression)) (n : Node) : Node :=
  fold_right (fun k m => Unary k m) n kinds.

(** The call failed. *)
Definition Fails {A : Type} (r : Fallible A) : Prop := exists err, r = Raise err.

(** [m] is a node one pass of [resolveSubqueries] or [finalizeSubqueries]
    offers to its function: a node of the plan that is not below a
    subquery-derived-table. *)
Inductive ReachedByPass (m : Node) : Node -> Prop :=
| Reached_here : ReachedByPass m m
| Reached_child : forall k c,
    isSubqueryAlias (Unary k c) = false ->
    ReachedByPass m c -> ReachedByPass m (Unary k c)
| Reached_left : forall k l r, ReachedByPass m l -> ReachedByPass m (Binary k l r)
| Reached_right : forall k l r, ReachedByPass m r -> ReachedByPass m (Binary k l r).

(** A derived table whose body filters by a column that does not exist. *)
Definition sampleUnresolvedAlias : SubqueryAliasT :=
  mkSubqueryAlias "u" [] false sampleUnresolvedFilter.

(** [SELECT FROM (... WHERE missing_column) AS u] *)
Definition sampleProjectOfUnresolved : Node :=
  Unary (KProject []) (sqaNode sampleUnresolvedAlias).

(** The subquery expression [Subquery q c] occurs in an expression of a
    node the pass reaches that is no subquery-derived-table. *)
Definition SubqueryReachedByPass (q : Node) (c : bool) (n : Node) : Prop :=
  exists m exprs e,
    ReachedByPass m n /\ isSubqueryAlias m = false
    /\ Expressions m = Some exprs /\ In e exprs /\ InExpr (Subquery q c) e.

(** An analyzer that leaves every plan as it is and fails, with an error
    of the deferrable class, on a filter by an unresolved column only. *)
Definition sampleDeferringAnalyzer : Analyzer :=
  let analysis := fun q =>
    match q with
    | Unary (KFilter (UnresolvedColumn _)) _ =>
        mkAnalysis q SameTree (Some ErrColumnNotFound)
    | _ => mkAnalysis q SameTree None
    end in
  mkAnalyzer (fun q _ _ _ => analysis q) (fun q _ _ _ => analysis q)
    (fun q _ _ _ => analysis q).

(** [e'] is [e] with the [canCacheResults] flag of some of its subquery
    expressions set: nothing else differs, the bodies of the subqueries
    included. *)
Inductive flagsRaised : Expression -> Expression -> Prop :=
| Raised_same : forall e, flagsRaised e e
| Raised_cached : forall q c, flagsRaised (Subquery q c) (Subquery q true)
| Raised_call : forall name nd args args',
    Forall2 flagsRaised args args' ->
    flagsRaised (Call name nd args) (Call name nd args').

(** [n'] is [n] with the flags of some subquery expressions of its own
    expressions set; the children are the same. *)
Definition nodeFlagsRaised (n n' : Node) : Prop :=
  match Expressions n with
  | Some exprs =>
      exists exprs', Forall2 flagsRaised exprs exprs' /\ WithExpressions n exprs' = Done n'
  | None => n' = n
  end.

(** [n'] is the plan [n] with the flags of some subquery expressions
    set. *)
Inductive planFlagsRaised : Node -> Node -> Prop :=
| PlanRaised_leaf : forall k n',
    nodeFlagsRaised (Leaf k) n' -> planFlagsRaised (Leaf k) n'
| PlanRaised_unary : forall k c c' n',
    planFlagsRaised c c' -> nodeFlagsRaised (Unary k c') n' ->
    planFlagsRaised (Unary k c) n'
| PlanRaised_binary : forall k l r l' r' n',
    planFlagsRaised l l' -> planFlagsRaised r r' ->
    nodeFlagsRaised (Binary k l' r') n' ->
    planFlagsRaised (Binary k l r) n'.

(** ** The [SHOW VARIABLES] node

    [plan/showvariables.go], the first document of
    [src/sql/plan/showvariables.go]. *)

(** A Go [interface{}] value, as far as [RowIter] tells values apart. *)
Inductive Value : Type :=
| VBool (b : bool)
| VString (s : string)
| VInt (i : Z)
| VNil.

(** What a call ends with that may return an error or panic. *)
Inductive Outcome (A : Type) : Type :=
| Returns (a : A)
| Errors (err : ErrorKind)
| Panics.

Arguments Errors {A} err.
Arguments Panics {A}.

(** [ShowVariables]: the field [filter] is nil or an expression, which is
    given by what its [Eval] returns for the row [sql.Row{k}]. *)
Record ShowVariables : Type := mkShowVariables {
  svFilter : option (string -> Fallible Value)
}.

Definition NewShowVariables (filter : option (string -> Fallible Value))
  : ShowVariables :=
  mkShowVariables filter.

(** [sql.NewRow(k, v)]: a row of two columns of which the first is the
    string [k], so that the type assertion of its first column to string
    in the comparison of [RowIter] holds. *)
Definition Row : Type := (string * Value)%type.

Definition NewRow (k : string) (v : Value) : Row := (k, v).

(** The loop of [RowIter] over the session variables, in the order the
    iteration over the map yields them; [rows] is the slice built so far.
    The type assertion of the result of the filter to bool panics on a
    value that is no bool. *)
Fixpoint ShowVariables_loop (sv : ShowVariables) (vars : list (string * Value))
  (rows : list Row) : Outcome (list Row) :=
  match vars with
  | [] => Returns rows
  | (k, v) :: rest =>
      match svFilter sv with
      | Some eval =>
          match eval k with
          | Raise err => Errors err
          | Done (VBool true) => ShowVariables_loop sv rest (rows ++ [NewRow k v])
          | Done (VBool false) => ShowVariables_loop sv rest rows
          | Done _ => Panics
          end
      | None => ShowVariables_loop sv rest (rows ++ [NewRow k v])
      end
  end.

(** The comparison [RowIter] hands to [sort.Slice]: Go compares strings
    byte by byte. *)
Definition rowLess (r r' : Row) : bool := String.ltb (fst r) (fst r').

(** [RowIter]; [sortSlice] is [sort.Slice] of the Go library, [vars] the
    session variables in the order the iteration over the map yields
    them. *)
Definition ShowVariables_RowIter
  (sortSlice : (Row -> Row -> bool) -> list Row -> list Row)
  (sv : ShowVariables) (vars : list (string * Value)) : Outcome (list Row) :=
  match ShowVariables_loop sv vars [] with
  | Returns rows => Returns (sortSlice rowLess rows)
  | Errors err => Errors err
  | Panics => Panics
  end.

(** [less] describes a transitive ordering, as [sort.Slice] asks. *)
Definition transitiveOrdering {A : Type} (less : A -> A -> bool) : Prop :=
  (forall a, less a a = false)
  /\ (forall a b c, less a b = true -> less b c = true -> less a c = true)
  /\ (forall a b c, less a b = false -> less b c = false -> less a c = false).

(** What [sort.Slice] promises: the slice holds the same elements after
    the call and, for a transitive ordering, no element is less than one
    before it. The sort need not be stable. *)
Definition sortsSlices (sortSlice : (Row -> Row -> bool) -> list Row -> list Row)
  : Prop :=
  forall less rows,
    Permutation rows (sortSlice less rows)
    /\ (transitiveOrdering less ->
        StronglySorted (fun a b => less b a = false) (sortSlice less rows)).

(** The filter lets the variable [k] through. *)
Definition passesFilter (sv : ShowVariables) (k : string) : Prop :=
  match svFilter sv with
  | Some eval => eval k = Done (VBool true)
  | None => True
  end.

(** The filter answers with a bool for the variable [k]. *)
Definition filterAnswers (sv : ShowVariables) (k : string) : Prop :=
  match svFilter sv with
  | Some eval => exists b, eval k = Done (VBool b)
  | None => True
  end.

(** The test of the loop, for a filter that answers. *)
Definition keeps (sv : ShowVariables) (kv : string * Value) : bool :=
  match svFilter sv with
  | Some eval =>
      match eval (fst kv) with
      | Done (VBool true) => true
      | _ => false
      end
  | None => true
  end.

(** A sort by insertion, for the samples. *)
Fixpoint sampleInsert (less : Row -> Row -> bool) (x : Row) (rows : list Row)
  : list Row :=
  match rows with
  | [] => [x]
  | y :: rest => if less x y then x :: y :: rest else y :: sampleInsert less x rest
  end.

Definition sampleSortSlice (less : Row -> Row -> bool) (rows : list Row) : list Row :=
  fold_right (sampleInsert less) [] rows.

(** Three session variables, as a map may yield them. *)
Definition sampleVariables : list (string * Value) :=
  [("sql_mode"%string, VString "ANSI"); ("autocommit"%string, VInt 1);
   ("max_connections"%string, VInt 151)].

Definition sampleVariablesReordered : list (string * Value) :=
  [("max_connections"%string, VInt 151); ("sql_mode"%string, VString "ANSI");
   ("autocommit"%string, VInt 1)].

(** [WHERE Variable_name <> 'sql_mode'] *)
Definition sampleShowVariables : ShowVariables :=
  NewShowVariables
    (Some (fun k => Done (VBool (negb (String.eqb k "sql_mode"))))).

(** The plan without its caching nodes. *)
Fixpoint withoutCachedResults (n : Node) : Node :=
  match n with
  | Leaf _ => n
  | Unary k c =>
      match k with
      | KCachedResults => withoutCachedResults c
      | _ => Unary k (withoutCachedResults c)
      end
  | Binary k l r => Binary k (withoutCachedResults l) (withoutCachedResults r)
  end.

(** [sampleAnalyzer] with another answer for the bodies of subquery
    expressions. *)
Definition sampleAnalyzerOtherSelector : Analyzer :=
  mkAnalyzer (fun q _ _ _ => mkAnalysis q NewTree (Some (ErrOther 7)))
    (analyzeThroughBatch sampleAnalyzer) (analyzeStartingAtBatch sampleAnalyzer).

(** [sampleAnalyzer] with another answer for the bodies of
    subquery-derived-tables. *)
Definition sampleAnalyzerOtherBatches : Analyzer :=
  mkAnalyzer (analyzeWithSelector sampleAnalyzer)
    (fun q _ _ _ => mkAnalysis q NewTree (Some (ErrOther 7)))
    (fun q _ _ _ => mkAnalysis q NewTree (Some (ErrOther 7))).

(** The plan without its strip-wrappers and with the scope length of its
    join nodes reset. *)
Fixpoint withoutScopeLen (n : Node) : Node :=
  match n with
  | Leaf _ => n
  | Unary k c =>
      match k with
      | KStripRowNode _ => withoutScopeLen c
      | _ => Unary k (withoutScopeLen c)
      end
  | Binary k l r =>
      match k with
      | KJoin jt cond _ => Binary (KJoin jt cond 0) (withoutScopeLen l) (withoutScopeLen r)
      | _ => Binary k (withoutScopeLen l) (withoutScopeLen r)
      end
  end.

(** ** General facts about results and the rewrite loop *)

Lemma bind_Done_inv {A B : Type} (m : Fallible A) (k : A -> Fallible B) (b : B) :
  bind m k = Done b -> exists a, m = Done a /\ k a = Done b.
Proof.
  destruct m as [a|e]; simpl; intros H; [exists a; auto | discriminate].
Qed.

Lemma Ok_inj {A : Type} (a b : A) (s t : TreeIdentity) :
  Ok a s = Ok b t -> a = b /\ s = t.
Proof. unfold Ok; intros H; inversion H; auto. Qed.

Ltac bind_inv H :=
  let x := fresh "x" in
  let Hm := fresh "Hm" in
  apply bind_Done_inv in H; destruct H as [x [Hm H]].

(** An induction principle for expressions that reaches the arguments of a
    call. *)
Lemma Expression_ind' (P : Expression -> Prop) :
  (forall v, P (Literal v)) ->
  (forall i, P (GetField i)) ->
  (forall name, P (UnresolvedColumn name)) ->
  (forall name nd args, Forall P args -> P (Call name nd args)) ->
  (forall q c, P (Subquery q c)) ->
  forall e, P e.
Proof.
  intros HL HG HU HC HS.
  fix IH 1.
  intros [v|i|name|name nd args|q c].
  - apply HL.
  - apply HG.
  - apply HU.
  - apply HC. induction args as [|x t IHt]; constructor; [apply IH | exact IHt].
  - apply HS.
Qed.

(** A loop over children of which one can only be reported [NewTree]
    reports [NewTree]. *)
Lemma rewriteChildren_new {A : Type} (g : A -> Result A) :
  forall children i out same c,
    In c children ->
    (forall x s, g c = Ok x s -> s = NewTree) ->
    rewriteChildren (fun _ child => Some (g child)) i children = Ok out same ->
    same = NewTree.
Proof.
  induction children as [|c0 rest IH]; simpl; intros i out same c Hin Hg H.
  - contradiction.
  - bind_inv H. destruct x as [c' s0]. bind_inv H. destruct x as [rest' sameR].
    apply Ok_inj in H. destruct H as [_ Hs]. subst same.
    destruct Hin as [->|Hin].
    + rewrite (Hg _ _ Hm). reflexivity.
    + rewrite (IH _ _ _ _ Hin Hg Hm0). apply andb_false_r.
Qed.

(** ** The generic shape of the rewrites *)

(** [transformNode] is the rewrite of [transform.Node], written over
    [Children] and [WithChildren]. *)
Lemma transformNode_unfold (f : Node -> Result Node) (node : Node) :
  transformNode f node =
  match Children node with
  | [] => f node
  | children =>
      rebuildAndApply withSharedChildren WithChildren f node
        (rewriteChildren (fun _ child => Some (transformNode f child)) 0 children)
  end.
Proof. destruct node; reflexivity. Qed.

(** [nodeWithCtxHelper] is the rewrite of [transform.NodeWithCtx], written
    over [Children] and [WithChildren]. *)
Lemma nodeWithCtxHelper_unfold s f node parent childNum :
  nodeWithCtxHelper s f node parent childNum =
  match Children node with
  | [] => f (mkContext node parent childNum)
  | children =>
      rebuildAndApply withSharedChildren WithChildren
        (fun node' => f (mkContext node' parent childNum)) node
        (rewriteChildren
           (fun i child =>
              if selected s (mkContext child (Some node) i)
              then Some (nodeWithCtxHelper s f child (Some node) i)
              else None)
           0 children)
  end.
Proof. destruct node; reflexivity. Qed.

(** One step of [transformNode] at a node whose children have been
    rewritten. *)
Lemma transformNode_unary (f : Node -> Result Node) k c c' sc :
  transformNode f c = Ok c' sc ->
  transformNode f (Unary k c)
  = ('(node'', sameN) <- f (Unary k c') ;; Ok node'' (sc && sameN)).
Proof.
  intros Hc. simpl. rewrite Hc. unfold rebuildAndApply. simpl.
  destruct sc; reflexivity.
Qed.

Lemma transformNode_binary (f : Node -> Result Node) k l r l' r' sl sr :
  transformNode f l = Ok l' sl ->
  transformNode f r = Ok r' sr ->
  transformNode f (Binary k l r)
  = ('(node'', sameN) <- f (Binary k l' r') ;; Ok node'' (sl && sr && sameN)).
Proof.
  intros Hl Hr. simpl. rewrite Hl. simpl. rewrite Hr.
  unfold rebuildAndApply. simpl.
  destruct sl, sr; reflexivity.
Qed.

(** The guarantee of the framework: a rewrite function that returns every
    node as it is, reporting [SameTree], leaves the plan as it is and
    [SameTree] is reported. *)
Lemma transformNode_identity (f : Node -> Result Node) :
  (forall n, f n = Ok n SameTree) ->
  forall n, transformNode f n = Ok n SameTree.
Proof.
  intros Hf. induction n as [k|k c IH|k l IHl r IHr].
  - apply Hf.
  - rewrite (@transformNode_unary f k _ _ _ IH), Hf. reflexivity.
  - rewrite (@transformNode_binary f k _ _ _ _ _ _ IHl IHr), Hf. reflexivity.
Qed.

(** *** Passthrough stripping *)

Lemma StripPassthroughNodes_not_passthrough (n : Node) :
  isPassthrough (StripPassthroughNodes n) = false.
Proof.
  induction n as [k|k c IH|k l IHl r IHr]; simpl; auto.
  destruct k; simpl; auto.
Qed.

Lemma StripPassthroughNodes_fixed (n : Node) :
  isPassthrough n = false -> StripPassthroughNodes n = n.
Proof.
  destruct n as [k|k c|k l r]; simpl; auto.
  destruct k; simpl; auto; discriminate.
Qed.

Lemma grantOuterScopeVisibility_fields (scope : Scope) (n : SubqueryAliasT) :
  sqaName (grantOuterScopeVisibility scope n) = sqaName n
  /\ sqaColumns (grantOuterScopeVisibility scope n) = sqaColumns n
  /\ sqaChild (grantOuterScopeVisibility scope n) = sqaChild n.
Proof.
  unfold grantOuterScopeVisibility.
  destruct scope as [s|]; auto. destruct (0 <? _); auto.
Qed.

(** C8. [StripPassthroughNodes] is idempotent and never returns a
    [QueryProcess], [StartTransaction] or [TransactionCommittingNode]; and
    when the analysis of a subquery succeeds, the plan put back into the
    subquery expression, or under the subquery-derived-table, is the
    analyzed plan with these wrappers stripped. *)
Theorem StripPassthroughNodes_idempotent :
  (forall n, StripPassthroughNodes (StripPassthroughNodes n) = StripPassthroughNodes n)
  /\ (forall n, isPassthrough (StripPassthroughNodes n) = false)
  /\ (forall a n query c scope sel finalize,
        analyzedErr (subqueryExpressionAnalysis a n query scope sel finalize) = None ->
        analyzeSubqueryExpression a n query c scope sel finalize
        = Ok (Subquery
                (StripPassthroughNodes
                   (analyzed (subqueryExpressionAnalysis a n query scope sel finalize))) c)
             NewTree)
  /\ (forall a n scope sel finalize newn,
        analyzeSubqueryAlias a n scope sel finalize = Ok newn NewTree ->
        newn = SubqueryAlias (sqaName n) (sqaColumns n)
                 (OuterScopeVisibility (grantOuterScopeVisibility scope n))
                 (StripPassthroughNodes
                    (analyzed (subqueryAliasAnalysis a (sqaChild n) scope sel finalize)))).
Proof.
  split; [|split; [|split]].
  - intros n. apply StripPassthroughNodes_fixed, StripPassthroughNodes_not_passthrough.
  - apply StripPassthroughNodes_not_passthrough.
  - intros a n query c scope sel finalize H.
    unfold analyzeSubqueryExpression, subqueryExpressionAnalysis in *.
    destruct finalize; rewrite H; reflexivity.
  - intros a n scope sel finalize newn H.
    unfold analyzeSubqueryAlias, subqueryAliasAnalysis in *.
    pose proof (grantOuterScopeVisibility_fields scope n) as [Hn [Hcol Hc]].
    rewrite Hc, Hcol in H.
    set (r := if finalize then _ else _) in *.
    destruct (analyzedErr r); [discriminate|].
    destruct (_ && _); [discriminate|].
    destruct (analyzedSame r).
    + apply Ok_inj in H. destruct H as [_ H]. discriminate.
    + simpl in H. apply Ok_inj in H. destruct H as [H _]. subst newn.
      rewrite Hn, Hcol. reflexivity.
Qed.

(** *** Errors of the analysis of a subquery expression *)

Lemma analyzeSubqueryExpression_raises a n query c scope sel finalize err :
  analyzedErr (subqueryExpressionAnalysis a n query scope sel finalize) = Some err ->
  finalize = true \/ deferrable err = false ->
  analyzeSubqueryExpression a n query c scope sel finalize = Raise err.
Proof.
  intros Herr Hcase.
  unfold analyzeSubqueryExpression, subqueryExpressionAnalysis in *.
  fold (deferrable err). destruct Hcase as [-> | Hd].
  - rewrite Herr. reflexivity.
  - destruct finalize; rewrite Herr; fold (deferrable err); rewrite ?Hd;
      reflexivity.
Qed.

(** C2. When the analysis of the body of a subquery expression fails: in
    the tentative phase an error of the deferrable class is swallowed, the
    partial result is put back into the subquery and [NewTree] is
    reported; in the finalize phase, and for every other error, the error
    is returned and no node is. *)
Theorem analyzeSubqueryExpression_errors
  (a : Analyzer) (n query : Node) (c : bool) (scope : Scope) (sel : RuleSelector)
  (finalize : bool) (err : ErrorKind) :
  analyzedErr (subqueryExpressionAnalysis a n query scope sel finalize) = Some err ->
  (finalize = false -> deferrable err = true ->
   analyzeSubqueryExpression a n query c scope sel finalize
   = Ok (Subquery (analyzed (subqueryExpressionAnalysis a n query scope sel false)) c)
        NewTree)
  /\ (finalize = true \/ deferrable err = false ->
      analyzeSubqueryExpression a n query c scope sel finalize = Raise err).
Proof.
  intros Herr. split.
  - intros -> Hd.
    unfold analyzeSubqueryExpression, subqueryExpressionAnalysis in *.
    rewrite Herr. fold (deferrable err). rewrite Hd. reflexivity.
  - apply analyzeSubqueryExpression_raises. exact Herr.
Qed.

(** *** Subquery expressions are always reported changed *)

Lemma analyzeSubqueryExpression_new a n query c scope sel finalize e same :
  analyzeSubqueryExpression a n query c scope sel finalize = Ok e same ->
  same = NewTree.
Proof.
  unfold analyzeSubqueryExpression.
  destruct (analyzedErr _) as [err|].
  - destruct (_ && _); [|discriminate].
    intros H. apply Ok_inj in H. destruct H; auto.
  - intros H. apply Ok_inj in H. destruct H; auto.
Qed.

Lemma transformExpr_subquery_new a scope sel finalize node :
  forall e, containsSubquery e = true ->
  forall e' same,
    transformExpr (subqueryExprFn a scope sel finalize node) e = Ok e' same ->
    same = NewTree.
Proof.
  induction e as [v|i|name|name nd args IH|q c] using Expression_ind';
    simpl; intros Hc e' same H; try discriminate.
  - destruct args as [|x t]; [discriminate|].
    unfold rebuildAndApply in H.
    bind_inv H. destruct x0 as [newChildren sameC].
    bind_inv H. bind_inv H. destruct x1 as [e'' sameN].
    apply Ok_inj in H. destruct H as [_ <-].
    apply existsb_exists in Hc. destruct Hc as [y [Hin Hy]].
    rewrite Forall_forall in IH.
    rewrite (rewriteChildren_new _ _ _ y Hin (IH y Hin Hy) Hm).
    reflexivity.
  - eapply analyzeSubqueryExpression_new; eauto.
Qed.

Lemma ctxFunc_new a scope sel finalize node parent i n' same :
  isSubqueryAlias node = false ->
  exprsHaveSubquery node = true ->
  ctxFunc a scope sel finalize (mkContext node parent i) = Ok n' same ->
  same = NewTree.
Proof.
  unfold ctxFunc, isSubqueryAlias, exprsHaveSubquery. simpl.
  destruct (asSubqueryAlias node); [discriminate|]. intros _.
  destruct (Expressions node) as [exprs|]; [|discriminate].
  intros He H. bind_inv H. destruct x as [newExprs s].
  apply existsb_exists in He. destruct He as [y [Hin Hy]].
  assert (s = NewTree).
  { eapply rewriteChildren_new; eauto.
    intros. eapply transformExpr_subquery_new; eauto. }
  subst s. simpl in H. bind_inv H. apply Ok_inj in H. destruct H; auto.
Qed.

Lemma isSubqueryAlias_kind k (c c' : Node) :
  isSubqueryAlias (Unary k c') = isSubqueryAlias (Unary k c).
Proof. destruct k; reflexivity. Qed.

Lemma exprsHaveSubquery_unary k (c c' : Node) :
  exprsHaveSubquery (Unary k c') = exprsHaveSubquery (Unary k c).
Proof. destruct k; reflexivity. Qed.

Lemma exprsHaveSubquery_binary k (l r l' r' : Node) :
  exprsHaveSubquery (Binary k l' r') = exprsHaveSubquery (Binary k l r).
Proof. destruct k; reflexivity. Qed.

Lemma resolve_helper_new a scope sel finalize :
  forall n parent i n' same,
    subqueryInPass n = true ->
    nodeWithCtxHelper (Some selectorFunc) (ctxFunc a scope sel finalize) n parent i
    = Ok n' same ->
    same = NewTree.
Proof.
  induction n as [k|k c IH|k l IHl r IHr]; intros parent i n' same Hin H.
  - discriminate.
  - simpl in Hin.
    destruct (isSubqueryAlias (Unary k c)) eqn:Hsqa; [discriminate|].
    simpl in H. unfold selectorFunc in H. simpl in H. rewrite Hsqa in H. simpl in H.
    unfold rebuildAndApply in H.
    bind_inv H. destruct x as [newChildren sameC].
    bind_inv Hm. destruct x as [c' sc]. simpl in Hm.
    apply Ok_inj in Hm. destruct Hm as [<- <-].
    bind_inv H. bind_inv H. destruct x0 as [node'' sameN].
    apply Ok_inj in H. destruct H as [_ <-].
    apply orb_prop in Hin. destruct Hin as [He|Hc].
    + assert (sameN = NewTree).
      { destruct sc; simpl in Hm; inversion Hm; subst x;
          apply ctxFunc_new in Hm1; auto;
          try (rewrite (isSubqueryAlias_kind k c c'); auto);
          try (rewrite (exprsHaveSubquery_unary k c c'); auto). }
      subst sameN. apply andb_false_r.
    + rewrite (IH _ _ _ _ Hc Hm0). reflexivity.
  - simpl in Hin.
    simpl in H. unfold selectorFunc in H. simpl in H.
    unfold rebuildAndApply in H.
    bind_inv H. destruct x as [newChildren sameC].
    bind_inv Hm. destruct x as [l' sl]. bind_inv Hm. destruct x as [rest sr].
    bind_inv Hm1. destruct x as [r' sr']. simpl in Hm1.
    apply Ok_inj in Hm1. destruct Hm1 as [<- <-].
    apply Ok_inj in Hm. destruct Hm as [<- <-].
    bind_inv H. bind_inv H. destruct x0 as [node'' sameN].
    apply Ok_inj in H. destruct H as [_ <-].
    apply orb_prop in Hin. destruct Hin as [Hin|Hr].
    + apply orb_prop in Hin. destruct Hin as [He|Hl].
      * assert (sameN = NewTree).
        { assert (Hx : exists lx rx, x = Binary k lx rx)
            by (destruct (sl && _); inversion Hm; eauto).
          destruct Hx as [lx [rx ->]].
          apply ctxFunc_new in Hm1; auto. }
        subst sameN. apply andb_false_r.
      * rewrite (IHl _ _ _ _ Hl Hm0). reflexivity.
    + rewrite (IHr _ _ _ _ Hr Hm2). simpl. rewrite andb_false_r. reflexivity.
Qed.




(** *** Flattening of table aliases *)

Lemma flattenTableAliasesFn_flattenable (n : Node) :
  flattenable n = true ->
  exists name child,
    n = TableAlias name child /\ flattenTableAliasesFn n = Ok (WithName name child) NewTree.
Proof.
  destruct n as [k|k c|k l r]; try discriminate.
  destruct k; try discriminate. simpl. intros H.
  exists Name, c. split; [reflexivity|].
  destruct (isSubqueryAlias c); [reflexivity|]. simpl in H. rewrite H. reflexivity.
Qed.

Lemma flattenTableAliasesFn_other (n : Node) :
  flattenable n = false -> flattenTableAliasesFn n = Ok n SameTree.
Proof.
  destruct n as [k|k c|k l r]; try reflexivity.
  destruct k; try reflexivity. simpl. intros H.
  apply orb_false_elim in H. destruct H as [-> ->]. reflexivity.
Qed.

Lemma flattenable_kind k (c c' : Node) :
  aliasLike c' = aliasLike c -> flattenable (Unary k c') = flattenable (Unary k c).
Proof. destruct k; simpl; auto. Qed.

Lemma aliasLike_kind k (c c' : Node) : aliasLike (Unary k c') = aliasLike (Unary k c).
Proof. destruct k; reflexivity. Qed.

Lemma WithName_flat name (n : Node) :
  aliasLike n = true -> hasFlattenable n = false ->
  hasFlattenable (WithName name n) = false /\ aliasLike (WithName name n) = true.
Proof.
  destruct n as [k|k c|k l r]; try discriminate.
  destruct k; try discriminate; simpl; auto.
Qed.

Lemma hasFlattenable_unary k (c : Node) :
  hasFlattenable (Unary k c) = flattenable (Unary k c) || hasFlattenable c.
Proof. reflexivity. Qed.

Lemma flattenTableAliases_tree :
  forall n, exists n' same,
    transformNode flattenTableAliasesFn n = Ok n' same
    /\ hasFlattenable n' = false
    /\ (same = SameTree <-> hasFlattenable n = false)
    /\ (same = SameTree -> n' = n)
    /\ aliasLike n' = aliasLike n.
Proof.
  induction n as [k|k c IH|k l IHl r IHr].
  - exists (Leaf k), SameTree. simpl. repeat split; auto.
  - destruct IH as [c' [sc [Hc [Hflat [Hsame [Heq Hal]]]]]].
    rewrite (@transformNode_unary _ k _ _ _ Hc).
    destruct (flattenable (Unary k c')) eqn:Hf.
    + destruct (flattenTableAliasesFn_flattenable _ Hf) as [name [child [Hn Hfn]]].
      rewrite Hfn. cbn [bind].
      inversion Hn; subst k child. simpl in Hf. fold (aliasLike c') in Hf.
      destruct (WithName_flat name c' Hf Hflat) as [Hw1 Hw2].
      exists (WithName name c'), (sc && NewTree).
      split; [reflexivity|]. split; [exact Hw1|].
      rewrite andb_false_r.
      split; [|split].
      * simpl. fold (aliasLike c). rewrite <- Hal, Hf. simpl.
        split; discriminate.
      * discriminate.
      * rewrite Hw2. reflexivity.
    + rewrite (flattenTableAliasesFn_other _ Hf). cbn [bind].
      exists (Unary k c'), (sc && SameTree).
      split; [reflexivity|].
      split; [rewrite hasFlattenable_unary, Hf, Hflat; reflexivity|].
      rewrite !andb_true_r.
      split; [|split].
      * rewrite hasFlattenable_unary, <- (flattenable_kind k c c' Hal), Hf.
        simpl. exact Hsame.
      * intros Hs. rewrite (Heq Hs). reflexivity.
      * apply aliasLike_kind.
  - destruct IHl as [l' [sl [Hl [Hfl [Hsl [Heql _]]]]]].
    destruct IHr as [r' [sr [Hr [Hfr [Hsr [Heqr _]]]]]].
    rewrite (@transformNode_binary _ k _ _ _ _ _ _ Hl Hr).
    exists (Binary k l' r'), (sl && sr && SameTree).
    split; [reflexivity|].
    split; [simpl; rewrite Hfl, Hfr; reflexivity|].
    rewrite !andb_true_r.
    split; [|split].
    + simpl. rewrite orb_false_iff, <- Hsl, <- Hsr. apply andb_true_iff.
    + intros Hs. apply andb_prop in Hs. destruct Hs as [H1 H2].
      rewrite (Heql H1), (Heqr H2). reflexivity.
    + reflexivity.
Qed.

(** C10. [flattenTableAliases] rewrites a [TableAlias] whose child is a
    [SubqueryAlias] or a [TableAlias] into that child renamed with the name
    of the outer alias, reporting [NewTree], and returns every other node
    as it is, reporting [SameTree]; over a whole plan, no such table alias
    is left, and the plan is reported, and is, unchanged exactly when it
    had none. *)
Theorem flattenTableAliases_rewrites :
  (forall name child,
      aliasLike child = true ->
      flattenTableAliasesFn (TableAlias name child) = Ok (WithName name child) NewTree)
  /\ (forall n, flattenable n = false -> flattenTableAliasesFn n = Ok n SameTree)
  /\ (forall n, exists n' same,
         flattenTableAliases n = Ok n' same
         /\ hasFlattenable n' = false
         /\ (same = SameTree <-> hasFlattenable n = false)
         /\ (same = SameTree -> n' = n)).
Proof.
  split; [|split].
  - intros name child H.
    destruct (flattenTableAliasesFn_flattenable (TableAlias name child) H)
      as [name' [child' [Hn Hfn]]].
    inversion Hn; subst. exact Hfn.
  - apply flattenTableAliasesFn_other.
  - intros n. destruct (flattenTableAliases_tree n) as [n' [same [H1 [H2 [H3 [H4 _]]]]]].
    exists n', same. auto.
Qed.

(** *** The column count of a subquery-derived-table *)

Lemma ctxFunc_alias a n scope sel finalize parent i :
  ctxFunc a scope sel finalize (mkContext (sqaNode n) parent i)
  = analyzeSubqueryAlias a n scope sel finalize.
Proof. destruct n; reflexivity. Qed.

Lemma resolve_helper_alias a n scope sel finalize parent i :
  nodeWithCtxHelper (Some selectorFunc) (ctxFunc a scope sel finalize)
    (sqaNode n) parent i
  = ('(node'', sameN) <- analyzeSubqueryAlias a n scope sel finalize ;;
     Ok node'' (SameTree && sameN)).
Proof. rewrite <- (ctxFunc_alias a n scope sel finalize parent i). reflexivity. Qed.

Lemma nodeWithCtxHelper_left_fails s f k l r parent i err :
  selected s (mkContext l (Some (Binary k l r)) 0) = true ->
  nodeWithCtxHelper s f l (Some (Binary k l r)) 0 = Raise err ->
  nodeWithCtxHelper s f (Binary k l r) parent i = Raise err.
Proof.
  intros Hsel H. cbn [nodeWithCtxHelper rewriteChildren].
  rewrite Hsel, H. reflexivity.
Qed.

Lemma resolve_root_alias a n scope sel finalize :
  NodeWithCtx (sqaNode n) (Some selectorFunc) (ctxFunc a scope sel finalize)
  = ('(node'', sameN) <- analyzeSubqueryAlias a n scope sel finalize ;;
     Ok node'' (SameTree && sameN)).
Proof. apply resolve_helper_alias. Qed.

Lemma resolve_left_alias_fails a n scope sel finalize k right err :
  analyzeSubqueryAlias a n scope sel finalize = Raise err ->
  NodeWithCtx (Binary k (sqaNode n) right) (Some selectorFunc)
    (ctxFunc a scope sel finalize)
  = Raise err.
Proof.
  intros H. unfold NodeWithCtx.
  apply nodeWithCtxHelper_left_fails; [reflexivity|].
  rewrite resolve_helper_alias, H. reflexivity.
Qed.

(** C3, amended. For a subquery-derived-table that declares column names,
    once the analysis of its own body has returned without error, a number
    of columns of the analyzed body different from the declared count
    makes [analyzeSubqueryAlias] fail with the column-count-mismatch
    error, in the tentative and in the finalize phase; [resolveSubqueries]
    and [finalizeSubqueries] return that error, also when the table is the
    left child of a node whose right child is then never analyzed, and
    [analyzeSubqueryExpression] never defers it. *)
Theorem analyzeSubqueryAlias_column_count
  (a : Analyzer) (n : SubqueryAliasT) (scope : Scope) (sel : RuleSelector)
  (finalize : bool) :
  analyzedErr (subqueryAliasAnalysis a (sqaChild n) scope sel finalize) = None ->
  sqaColumns n <> [] ->
  schemaLength (analyzed (subqueryAliasAnalysis a (sqaChild n) scope sel finalize))
  <> Z.of_nat (List.length (sqaColumns n)) ->
  analyzeSubqueryAlias a n scope sel finalize = Raise ErrColumnCountMismatch
  /\ (if finalize then finalizeSubqueries else resolveSubqueries) a (sqaNode n) scope sel
     = Raise ErrColumnCountMismatch
  /\ (forall k right,
         (if finalize then finalizeSubqueries else resolveSubqueries)
           a (Binary k (sqaNode n) right) scope sel
         = Raise ErrColumnCountMismatch)
  /\ (forall a' n' query c scope' sel' finalize',
         analyzedErr (subqueryExpressionAnalysis a' n' query scope' sel' finalize')
         = Some ErrColumnCountMismatch ->
         analyzeSubqueryExpression a' n' query c scope' sel' finalize'
         = Raise ErrColumnCountMismatch).
Proof.
  intros Herr Hcols Hlen.
  assert (H : analyzeSubqueryAlias a n scope sel finalize = Raise ErrColumnCountMismatch).
  { unfold analyzeSubqueryAlias, subqueryAliasAnalysis in *.
    pose proof (grantOuterScopeVisibility_fields scope n) as [_ [Hcol Hc]].
    rewrite Hc, Hcol.
    set (r := if finalize then _ else _) in *.
    rewrite Herr.
    apply Z.eqb_neq in Hlen. rewrite Hlen.
    destruct (sqaColumns n) as [|x t]; [contradiction|]. reflexivity. }
  split; [exact H|]. split; [|split].
  - destruct finalize; unfold finalizeSubqueries, resolveSubqueries;
      rewrite resolve_root_alias, H; reflexivity.
  - intros k right.
    destruct finalize; unfold finalizeSubqueries, resolveSubqueries;
      apply resolve_left_alias_fails; exact H.
  - intros a' n' query c scope' sel' finalize' H'.
    apply analyzeSubqueryExpression_raises; [exact H'|]. right. reflexivity.
Qed.

(** *** The scope of a subquery-derived-table *)

Lemma scope_nonempty_test (s : ScopeData) :
  (0 <? Z.of_nat (List.length (nodes s))) = negb (IsEmpty (Some s)).
Proof.
  simpl. destruct (nodes s); reflexivity.
Qed.

Lemma subqueryAliasScope_depth (scope : Scope) :
  RecursionDepth (subqueryAliasScope scope) = RecursionDepth scope + 1.
Proof.
  unfold subqueryAliasScope. destruct scope as [s|]; simpl; auto.
  destruct (0 <? _); reflexivity.
Qed.

Lemma nestedAliasScope_depth (depth : nat) (outer : Scope) :
  RecursionDepth (nestedAliasScope depth outer) = RecursionDepth outer + Z.of_nat depth.
Proof.
  induction depth as [|d IH].
  - simpl. lia.
  - cbn [nestedAliasScope]. rewrite subqueryAliasScope_depth, IH. lia.
Qed.

(** C4. The scope a subquery-derived-table is analyzed under has the
    recursion depth of the enclosing scope plus one, so that the scope of
    the N-th of a chain of nested subquery-derived-tables has depth N, which
    is 0 for the outermost query only; the analyzer is consulted under that
    scope and no other; the scope carries the nodes of the enclosing chain,
    and the outer-visibility flag of the table is set exactly when the
    enclosing scope is not empty (and is otherwise left as it was). *)
Theorem subqueryAliasScope_recursion_depth :
  (forall scope, RecursionDepth (subqueryAliasScope scope) = RecursionDepth scope + 1)
  /\ (forall depth, RecursionDepth (nestedAliasScope depth None) = Z.of_nat depth)
  /\ (forall depth, RecursionDepth (nestedAliasScope depth None) = 0 <-> depth = O)
  /\ (forall scope,
         InnerToOuter (subqueryAliasScope scope) = InnerToOuter scope
         /\ IsEmpty (subqueryAliasScope scope) = IsEmpty scope)
  /\ (forall scope n,
         OuterScopeVisibility (grantOuterScopeVisibility scope n)
         = negb (IsEmpty scope) || OuterScopeVisibility n)
  /\ (forall a a' n scope sel finalize,
         (forall child batch sel',
             analyzeThroughBatch a child (subqueryAliasScope scope) batch sel'
             = analyzeThroughBatch a' child (subqueryAliasScope scope) batch sel') ->
         (forall child batch sel',
             analyzeStartingAtBatch a child (subqueryAliasScope scope) batch sel'
             = analyzeStartingAtBatch a' child (subqueryAliasScope scope) batch sel') ->
         analyzeSubqueryAlias a n scope sel finalize
         = analyzeSubqueryAlias a' n scope sel finalize)
  /\ (forall a n scope sel finalize newn same,
         analyzeSubqueryAlias a n scope sel finalize = Ok newn same ->
         exists m,
           asSubqueryAlias newn = Some m
           /\ OuterScopeVisibility m = negb (IsEmpty scope) || OuterScopeVisibility n).
Proof.
  assert (Hvis : forall scope n,
             OuterScopeVisibility (grantOuterScopeVisibility scope n)
             = negb (IsEmpty scope) || OuterScopeVisibility n).
  { intros scope n. unfold grantOuterScopeVisibility.
    destruct scope as [s|]; [|reflexivity].
    rewrite scope_nonempty_test. destruct (IsEmpty (Some s)); reflexivity. }
  split; [apply subqueryAliasScope_depth|].
  split; [intros depth; rewrite nestedAliasScope_depth; simpl; lia|].
  split; [intros depth; rewrite nestedAliasScope_depth; simpl; lia|].
  split; [|split; [exact Hvis|split]].
  - intros scope. unfold subqueryAliasScope.
    destruct scope as [s|]; [|split; reflexivity].
    rewrite scope_nonempty_test.
    destruct (IsEmpty (Some s)) eqn:He; simpl in *; split; auto.
    destruct (nodes s); [reflexivity|discriminate].
  - intros a a' n scope sel finalize Ht Hs.
    unfold analyzeSubqueryAlias. destruct finalize; rewrite ?Ht, ?Hs; reflexivity.
  - intros a n scope sel finalize newn same H.
    unfold analyzeSubqueryAlias in H.
    set (r := if finalize then _ else _) in *.
    destruct (analyzedErr r); [discriminate|].
    destruct (_ && _); [discriminate|].
    destruct (analyzedSame r).
    + apply Ok_inj in H. destruct H as [<- _].
      eexists. split; [reflexivity|]. simpl. apply Hvis.
    + simpl in H. apply Ok_inj in H. destruct H as [<- _].
      eexists. split; [reflexivity|]. simpl. apply Hvis.
Qed.

(** *** The scope length of joins *)

Lemma setJoinScopeLen_tree (scopeLen : Z) :
  forall n, exists same,
    transformNode (setJoinScopeLenFn scopeLen) n = Ok (withJoinScopeLen scopeLen n) same
    /\ (same = SameTree <-> hasJoinNode n = false)
    /\ (same = SameTree -> withJoinScopeLen scopeLen n = n).
Proof.
  induction n as [k|k c IH|k l IHl r IHr].
  - exists SameTree. simpl. repeat split; auto.
  - destruct IH as [sc [Hc [Hs Heq]]].
    rewrite (@transformNode_unary _ k _ _ _ Hc).
    exists (sc && SameTree). cbn [setJoinScopeLenFn bind withJoinScopeLen hasJoinNode].
    split; [reflexivity|]. rewrite andb_true_r.
    split; [exact Hs|]. intros H. rewrite (Heq H). reflexivity.
  - destruct IHl as [sl [Hl [Hsl Heql]]]. destruct IHr as [sr [Hr [Hsr Heqr]]].
    rewrite (@transformNode_binary _ k _ _ _ _ _ _ Hl Hr).
    destruct k as [jt cond sl0|jt cond|].
    + exists (sl && sr && NewTree).
      split; [|rewrite andb_false_r].
      * cbn [setJoinScopeLenFn withJoinScopeLen].
        generalize (withJoinScopeLen scopeLen l) (withJoinScopeLen scopeLen r).
        intros l' r'. destruct l' as [k'|k' c'|k' l'' r'']; try reflexivity.
        destruct k'; reflexivity.
      * simpl. split; [split; discriminate | discriminate].
    + exists (sl && sr && SameTree).
      split; [reflexivity|]. rewrite andb_true_r. cbn [hasJoinNode withJoinScopeLen].
      split.
      * rewrite orb_false_iff, <- Hsl, <- Hsr. apply andb_true_iff.
      * intros H. apply andb_prop in H. destruct H as [H1 H2].
        rewrite (Heql H1), (Heqr H2). reflexivity.
    + exists (sl && sr && SameTree).
      split; [reflexivity|]. rewrite andb_true_r. cbn [hasJoinNode withJoinScopeLen].
      split.
      * rewrite orb_false_iff, <- Hsl, <- Hsr. apply andb_true_iff.
      * intros H. apply andb_prop in H. destruct H as [H1 H2].
        rewrite (Heql H1), (Heqr H2). reflexivity.
Qed.

Lemma withJoinScopeLen_annotated (scopeLen : Z) :
  forall n, joinsAnnotated scopeLen (withJoinScopeLen scopeLen n) = true.
Proof.
  induction n as [k|k c IH|k l IHl r IHr]; simpl; auto.
  destruct k as [jt cond sl0|jt cond|]; simpl; rewrite ?IHl, ?IHr; auto.
  destruct (isStripRowNode (withJoinScopeLen scopeLen l)) eqn:Hs; simpl;
    rewrite ?Hs, ?IHl, ?IHr, Z.eqb_refl; reflexivity.
Qed.

(** C7. [setJoinScopeLen] returns the plan as it is, reporting [SameTree],
    when the schema of the enclosing scope has no column; when it has
    [scopeLen > 0] columns, it returns the plan in which every join node is
    annotated with [scopeLen] and has strip-wrappers inserted around both
    children unless the left one already is a strip-wrapper, so that every
    join node of the result carries [scopeLen] over a strip-wrapper, and it
    reports [SameTree] only for a plan without join node. *)
Theorem setJoinScopeLen_annotates (n : Node) (scope : Scope) :
  (scopeSchemaLen scope = 0 -> setJoinScopeLen n scope = Ok n SameTree)
  /\ (scopeSchemaLen scope <> 0 ->
      exists same,
        setJoinScopeLen n scope = Ok (withJoinScopeLen (scopeSchemaLen scope) n) same
        /\ (same = SameTree <-> hasJoinNode n = false)
        /\ joinsAnnotated (scopeSchemaLen scope)
             (withJoinScopeLen (scopeSchemaLen scope) n) = true).
Proof.
  unfold setJoinScopeLen. split.
  - intros ->. reflexivity.
  - intros H. apply Z.eqb_neq in H. rewrite H.
    destruct (setJoinScopeLen_tree (scopeSchemaLen scope) n) as [same [H1 [H2 _]]].
    exists same. split; [exact H1|]. split; [exact H2|].
    apply withJoinScopeLen_annotated.
Qed.

(** *** Caching of subquery-derived-tables in joins *)

(** One step of [nodeWithCtxHelper] at a node whose children have been
    visited. *)
Lemma nodeWithCtxHelper_unary s f k c parent i c' sc :
  visitChild s f (Unary k c) 0 c = Ok c' sc ->
  nodeWithCtxHelper s f (Unary k c) parent i
  = ('(node'', sameN) <- f (mkContext (Unary k c') parent i) ;; Ok node'' (sc && sameN)).
Proof.
  unfold visitChild. intros Hc. cbn [nodeWithCtxHelper rewriteChildren].
  destruct (selected s _).
  - rewrite Hc. unfold rebuildAndApply. simpl. destruct sc; reflexivity.
  - apply Ok_inj in Hc. destruct Hc as [<- <-]. reflexivity.
Qed.

Lemma nodeWithCtxHelper_binary s f k l r parent i l' r' sl sr :
  visitChild s f (Binary k l r) 0 l = Ok l' sl ->
  visitChild s f (Binary k l r) 1 r = Ok r' sr ->
  nodeWithCtxHelper s f (Binary k l r) parent i
  = ('(node'', sameN) <- f (mkContext (Binary k l' r') parent i) ;;
     Ok node'' (sl && sr && sameN)).
Proof.
  unfold visitChild. intros Hl Hr.
  cbn [nodeWithCtxHelper rewriteChildren]. change (0 + 1) with 1.
  destruct (selected s (mkContext l _ _)), (selected s (mkContext r _ _)).
  - rewrite Hl. simpl. rewrite Hr. unfold rebuildAndApply. simpl.
    destruct sl, sr; reflexivity.
  - apply Ok_inj in Hr. destruct Hr as [<- <-].
    rewrite Hl. unfold rebuildAndApply. simpl. destruct sl; reflexivity.
  - apply Ok_inj in Hl. destruct Hl as [<- <-].
    rewrite Hr. unfold rebuildAndApply. simpl. destruct sr; reflexivity.
  - apply Ok_inj in Hl. destruct Hl as [<- <-].
    apply Ok_inj in Hr. destruct Hr as [<- <-]. reflexivity.
Qed.

(** The same guarantee for the context-aware rewrite, whatever the
    selector. *)
Lemma nodeWithCtxHelper_identity s (f : Context -> Result Node) :
  (forall c, f c = Ok (CtxNode c) SameTree) ->
  forall n parent i, nodeWithCtxHelper s f n parent i = Ok n SameTree.
Proof.
  intros Hf. induction n as [k|k c IH|k l IHl r IHr]; intros parent i.
  - apply Hf.
  - rewrite nodeWithCtxHelper_unary with (c' := c) (sc := SameTree).
    + rewrite Hf. reflexivity.
    + unfold visitChild. destruct (selected s _); [apply IH | reflexivity].
  - rewrite nodeWithCtxHelper_binary
      with (l' := l) (r' := r) (sl := SameTree) (sr := SameTree).
    + rewrite Hf. reflexivity.
    + unfold visitChild. destruct (selected s _); [apply IHl | reflexivity].
    + unfold visitChild. destruct (selected s _); [apply IHr | reflexivity].
Qed.

Lemma wrapJoined_same :
  forall n joined, hasJoinedAlias joined n = false -> wrapJoined joined n = n.
Proof.
  induction n as [k|k c IH|k l IHl r IHr]; intros joined H;
    cbn [hasJoinedAlias] in H; apply orb_false_elim in H; destruct H as [H1 H2];
    cbn [wrapJoined]; rewrite H1.
  - reflexivity.
  - rewrite (IH _ H2). reflexivity.
  - apply orb_false_elim in H2. destruct H2 as [Hl Hr].
    rewrite (IHl _ Hl), (IHr _ Hr). reflexivity.
Qed.

Lemma cacheAliasFn_spec (n : Node) parent i :
  cacheAliasFn (mkContext n parent i)
  = Ok (if underJoin parent && isSubqueryAlias n then CachedResults n else n)
       (negb (underJoin parent && isSubqueryAlias n)).
Proof.
  unfold cacheAliasFn, underJoin. simpl.
  destruct (isJoinNode parent || isIndexedJoin parent), (isSubqueryAlias n); reflexivity.
Qed.

Lemma wrap_helper :
  forall n parent i,
    nodeWithCtxHelper None cacheAliasFn n parent i
    = Ok (wrapJoined (underJoin parent) n)
         (negb (hasJoinedAlias (underJoin parent) n)).
Proof.
  induction n as [k|k c IH|k l IHl r IHr]; intros parent i.
  - cbn [nodeWithCtxHelper]. rewrite cacheAliasFn_spec.
    cbn [wrapJoined hasJoinedAlias]. rewrite orb_false_r. reflexivity.
  - rewrite nodeWithCtxHelper_unary
      with (c' := wrapJoined false c) (sc := negb (hasJoinedAlias false c)).
    + rewrite cacheAliasFn_spec. cbn [bind wrapJoined hasJoinedAlias].
      rewrite (isSubqueryAlias_kind k c (wrapJoined false c)).
      unfold Ok. f_equal. f_equal.
      destruct (underJoin parent && isSubqueryAlias (Unary k c)),
        (hasJoinedAlias false c); reflexivity.
    + unfold visitChild. simpl selected. cbv iota. apply IH.
  - assert (Hu : underJoin (Some (Binary k l r)) = isJoinKind k)
      by (destruct k; reflexivity).
    rewrite nodeWithCtxHelper_binary
      with (l' := wrapJoined (isJoinKind k) l) (r' := wrapJoined (isJoinKind k) r)
           (sl := negb (hasJoinedAlias (isJoinKind k) l))
           (sr := negb (hasJoinedAlias (isJoinKind k) r)).
    + rewrite cacheAliasFn_spec. cbn [bind wrapJoined hasJoinedAlias].
      assert (Hb : isSubqueryAlias (Binary k l r) = false) by reflexivity.
      assert (Hb' : forall x y, isSubqueryAlias (Binary k x y) = false) by reflexivity.
      rewrite Hb, Hb', !andb_false_r. simpl.
      unfold Ok. f_equal. f_equal.
      destruct (hasJoinedAlias (isJoinKind k) l), (hasJoinedAlias (isJoinKind k) r);
        reflexivity.
    + unfold visitChild. simpl selected. cbv iota. rewrite IHl, Hu. reflexivity.
    + unfold visitChild. simpl selected. cbv iota. rewrite IHr, Hu. reflexivity.
Qed.

Lemma uncachePrimary_same :
  forall n, primaryCached n = false -> uncachePrimary n = n.
Proof.
  induction n as [k|k c IH|k l IHl r IHr]; intros H; cbn [primaryCached] in H.
  - reflexivity.
  - apply orb_false_elim in H. destruct H as [H1 H2].
    cbn [uncachePrimary]. rewrite (IH H2). destruct k; try reflexivity. discriminate.
  - apply orb_false_elim in H. destruct H as [H1 H2].
    cbn [uncachePrimary].
    destruct (leftIsPrimary k), (rightIsPrimary k); simpl in *;
      rewrite ?(IHl H1), ?(IHr H2); reflexivity.
Qed.

Lemma primarySelector_left k (l r : Node) :
  primarySelector (mkContext l (Some (Binary k l r)) 0) = leftIsPrimary k.
Proof. destruct k; reflexivity. Qed.

Lemma primarySelector_right k (l r : Node) :
  primarySelector (mkContext r (Some (Binary k l r)) 1) = rightIsPrimary k.
Proof. destruct k as [jt ? ?|? ?|]; try reflexivity. destruct jt; reflexivity. Qed.

Lemma cleanup_helper :
  forall n parent i,
    nodeWithCtxHelper (Some primarySelector) uncacheFn n parent i
    = Ok (uncachePrimary n) (negb (primaryCached n)).
Proof.
  induction n as [k|k c IH|k l IHl r IHr]; intros parent i.
  - reflexivity.
  - rewrite nodeWithCtxHelper_unary
      with (c' := uncachePrimary c) (sc := negb (primaryCached c)).
    + cbn [uncachePrimary primaryCached].
      destruct k; simpl; rewrite ?andb_true_r, ?andb_false_r; reflexivity.
    + unfold visitChild. simpl selected. cbv iota. apply IH.
  - rewrite nodeWithCtxHelper_binary
      with (l' := if leftIsPrimary k then uncachePrimary l else l)
           (r' := if rightIsPrimary k then uncachePrimary r else r)
           (sl := negb (leftIsPrimary k && primaryCached l))
           (sr := negb (rightIsPrimary k && primaryCached r)).
    + cbn [uncachePrimary primaryCached]. simpl.
      rewrite andb_true_r, negb_orb. reflexivity.
    + unfold visitChild. cbn [selected]. rewrite primarySelector_left.
      destruct (leftIsPrimary k); [apply IHl | reflexivity].
    + unfold visitChild. cbn [selected]. rewrite primarySelector_right.
      destruct (rightIsPrimary k); [apply IHr | reflexivity].
Qed.

Lemma cacheSubqueryAlisesInJoins_eq (n : Node) (scope : Scope) :
  cacheSubqueryAlisesInJoins n scope
  = if IsEmpty scope
    then Ok (uncachePrimary (wrapJoined false n))
            (negb (hasJoinedAlias false n)
             && negb (primaryCached (wrapJoined false n)))
    else Ok (wrapJoined false n) (negb (hasJoinedAlias false n) && SameTree).
Proof.
  unfold cacheSubqueryAlisesInJoins, NodeWithCtx.
  rewrite wrap_helper. unfold Ok at 1. cbn [bind underJoin isJoinNode isIndexedJoin orb].
  destruct (IsEmpty scope); [|reflexivity].
  rewrite cleanup_helper. reflexivity.
Qed.

Lemma uncachePrimary_not_cached :
  forall m, isCachedResults (uncachePrimary m) = false.
Proof.
  induction m as [k|k c IH|k l IHl r IHr]; try reflexivity.
  cbn [uncachePrimary]. destruct k; try reflexivity. exact IH.
Qed.

Lemma joinKind_sides k :
  isJoinKind k = true -> rightIsPrimary k = negb (leftIsPrimary k).
Proof.
  destruct k as [jt ? ?|? ?|]; try reflexivity; try discriminate.
  intros _. simpl. destruct (JoinType_eqb jt JoinTypeRight); reflexivity.
Qed.

(** C5. At a scope that is not empty [cacheSubqueryAlisesInJoins] returns
    what its first pass built: no caching node is removed. At an empty
    scope the cleanup removes the caching nodes of the most primary branch
    (child 0 of a join or indexed join, child 1 of a right join) and leaves
    the other side of every join on that branch as it was: a join whose two
    children are caching nodes keeps the one on its non-primary side and
    loses the one on its primary side. *)
Theorem cacheSubqueryAlisesInJoins_cleanup :
  (forall n scope,
      IsEmpty scope = false ->
      cacheSubqueryAlisesInJoins n scope = NodeWithCtx n None cacheAliasFn)
  /\ (forall n scope,
         IsEmpty scope = true ->
         exists wrapped sameA sameD,
           NodeWithCtx n None cacheAliasFn = Ok wrapped sameA
           /\ NodeWithCtx wrapped (Some primarySelector) uncacheFn
              = Ok (uncachePrimary wrapped) sameD
           /\ cacheSubqueryAlisesInJoins n scope
              = Ok (uncachePrimary wrapped) (sameA && sameD)
           /\ (sameD = SameTree <-> primaryCached wrapped = false))
  /\ (forall m, isCachedResults (uncachePrimary m) = false)
  /\ (forall m, primaryCached m = false -> uncachePrimary m = m)
  /\ (forall k l r,
         isJoinKind k = true ->
         uncachePrimary (Binary k l r)
         = if leftIsPrimary k then Binary k (uncachePrimary l) r
           else Binary k l (uncachePrimary r))
  /\ (forall k x y,
         isJoinKind k = true -> leftIsPrimary k = true -> primaryCached x = false ->
         NodeWithCtx (Binary k (CachedResults x) (CachedResults y))
           (Some primarySelector) uncacheFn
         = Ok (Binary k x (CachedResults y)) NewTree)
  /\ (forall k n1 c1 v1 b1 n2 c2 v2 b2 scope,
         isJoinKind k = true -> leftIsPrimary k = true ->
         hasJoinedAlias false b1 = false -> hasJoinedAlias false b2 = false ->
         primaryCached b1 = false ->
         cacheSubqueryAlisesInJoins
           (Binary k (SubqueryAlias n1 c1 v1 b1) (SubqueryAlias n2 c2 v2 b2)) scope
         = if IsEmpty scope
           then Ok (Binary k (SubqueryAlias n1 c1 v1 b1)
                      (CachedResults (SubqueryAlias n2 c2 v2 b2))) NewTree
           else Ok (Binary k (CachedResults (SubqueryAlias n1 c1 v1 b1))
                      (CachedResults (SubqueryAlias n2 c2 v2 b2))) NewTree).
Proof.
  assert (Hjoin : forall k l r,
             isJoinKind k = true ->
             uncachePrimary (Binary k l r)
             = if leftIsPrimary k then Binary k (uncachePrimary l) r
               else Binary k l (uncachePrimary r)).
  { intros k l r Hk. cbn [uncachePrimary]. rewrite (joinKind_sides k Hk).
    destruct (leftIsPrimary k); reflexivity. }
  split; [|split; [|split; [|split; [|split; [|split]]]]].
  - intros n scope He. rewrite cacheSubqueryAlisesInJoins_eq, He.
    unfold NodeWithCtx. rewrite wrap_helper.
    unfold SameTree. rewrite andb_true_r. reflexivity.
  - intros n scope He.
    exists (wrapJoined false n), (negb (hasJoinedAlias false n)),
      (negb (primaryCached (wrapJoined false n))).
    split; [unfold NodeWithCtx; apply wrap_helper|].
    split; [unfold NodeWithCtx; apply cleanup_helper|].
    split; [rewrite cacheSubqueryAlisesInJoins_eq, He; reflexivity|].
    unfold SameTree. apply negb_true_iff.
  - apply uncachePrimary_not_cached.
  - apply uncachePrimary_same.
  - exact Hjoin.
  - intros k x y Hk Hl Hx. unfold NodeWithCtx. rewrite cleanup_helper.
    rewrite (Hjoin _ _ _ Hk), Hl. cbn [uncachePrimary CachedResults].
    rewrite (uncachePrimary_same x Hx).
    cbn [primaryCached CachedResults isCachedResults]. rewrite Hl. reflexivity.
  - intros k n1 c1 v1 b1 n2 c2 v2 b2 scope Hk Hl H1 H2 Hp.
    rewrite cacheSubqueryAlisesInJoins_eq.
    cbn [wrapJoined hasJoinedAlias SubqueryAlias]. rewrite Hk.
    change (isSubqueryAlias (Unary (KSubqueryAlias n1 c1 v1) b1)) with true.
    change (isSubqueryAlias (Unary (KSubqueryAlias n2 c2 v2) b2)) with true.
    cbn [andb orb negb].
    rewrite (wrapJoined_same b1 false H1), (wrapJoined_same b2 false H2).
    destruct (IsEmpty scope); [|reflexivity].
    rewrite (Hjoin _ _ _ Hk), Hl. cbn [uncachePrimary CachedResults].
    rewrite (uncachePrimary_same b1 Hp). reflexivity.
Qed.

Lemma wrapJoined_alias :
  forall n joined,
    isSubqueryAlias (wrapJoined joined n) = negb joined && isSubqueryAlias n.
Proof.
  intros n joined.
  destruct n as [k|k c|k l r]; cbn [wrapJoined].
  - rewrite andb_false_r. destruct joined; reflexivity.
  - pose proof (isSubqueryAlias_kind k c (wrapJoined false c)) as Hk.
    destruct joined; cbn [andb negb]; [|exact Hk].
    destruct (isSubqueryAlias (Unary k c)) eqn:H; [reflexivity|].
    rewrite Hk. reflexivity.
  - rewrite andb_false_r. destruct joined; reflexivity.
Qed.

Lemma wrapJoined_wrapped :
  forall n joined, joinedWrapped (wrapJoined joined n) = true.
Proof.
  induction n as [k|k c IH|k l IHl r IHr]; intros joined.
  - cbn [wrapJoined]. rewrite andb_false_r. reflexivity.
  - cbn [wrapJoined].
    destruct (joined && isSubqueryAlias (Unary k c)); cbn [joinedWrapped CachedResults];
      apply IH.
  - cbn [wrapJoined]. rewrite andb_false_r. cbn [joinedWrapped].
    rewrite IHl, IHr, !wrapJoined_alias.
    destruct (isJoinKind k); reflexivity.
Qed.

Lemma joinedWrapped_nonPrimary :
  forall n, joinedWrapped n = true -> nonPrimaryWrapped n = true.
Proof.
  induction n as [k|k c IH|k l IHl r IHr]; cbn [joinedWrapped nonPrimaryWrapped]; auto.
  intros H. apply andb_prop in H. destruct H as [H Hr].
  apply andb_prop in H. destruct H as [H Hl].
  apply andb_prop in H. destruct H as [H1 H2].
  rewrite H1, H2, (IHl Hl), (IHr Hr), !orb_true_r. reflexivity.
Qed.

Lemma uncachePrimary_nonPrimary :
  forall n, joinedWrapped n = true -> nonPrimaryWrapped (uncachePrimary n) = true.
Proof.
  induction n as [k|k c IH|k l IHl r IHr]; cbn [joinedWrapped]; intros H.
  - reflexivity.
  - cbn [uncachePrimary]. destruct k; cbn [nonPrimaryWrapped]; auto.
  - apply andb_prop in H. destruct H as [H Hr].
    apply andb_prop in H. destruct H as [H Hl].
    apply andb_prop in H. destruct H as [H1 H2].
    cbn [uncachePrimary nonPrimaryWrapped].
    destruct (leftIsPrimary k), (rightIsPrimary k); cbn [orb andb];
      rewrite ?H1, ?H2, ?(IHl Hl), ?(IHr Hr),
        ?(joinedWrapped_nonPrimary l Hl), ?(joinedWrapped_nonPrimary r Hr);
      reflexivity.
Qed.

(** C6. A subquery-derived-table that is a direct child of a join or of an
    indexed join is wrapped in a caching node by the first function of
    [cacheSubqueryAlisesInJoins], which reports [NewTree]; the rule never
    fails, reports [NewTree] for a plan with such a table, and returns a
    plan in which no join or indexed join has a bare subquery-derived-table
    on its non-primary side: at the root, a table on the non-primary side
    comes back under a caching node. *)
Theorem cacheSubqueryAlisesInJoins_wraps :
  (forall node parent i,
      underJoin parent = true -> isSubqueryAlias node = true ->
      cacheAliasFn (mkContext node parent i) = Ok (CachedResults node) NewTree)
  /\ (forall n scope, exists n' same,
         cacheSubqueryAlisesInJoins n scope = Ok n' same
         /\ nonPrimaryWrapped n' = true
         /\ (hasJoinedAlias false n = true -> same = NewTree))
  /\ (forall k l r scope,
         isJoinKind k = true -> leftIsPrimary k = true -> isSubqueryAlias r = true ->
         exists l' r0,
           cacheSubqueryAlisesInJoins (Binary k l r) scope
           = Ok (Binary k l' (CachedResults r0)) NewTree
           /\ isSubqueryAlias r0 = true)
  /\ (forall k l r scope,
         isJoinKind k = true -> leftIsPrimary k = false -> isSubqueryAlias l = true ->
         exists l0 r',
           cacheSubqueryAlisesInJoins (Binary k l r) scope
           = Ok (Binary k (CachedResults l0) r') NewTree
           /\ isSubqueryAlias l0 = true).
Proof.
  split; [|split; [|split]].
  - intros node parent i Hj Hs. rewrite cacheAliasFn_spec, Hj, Hs. reflexivity.
  - intros n scope. rewrite cacheSubqueryAlisesInJoins_eq.
    destruct (IsEmpty scope).
    + eexists _, _. split; [reflexivity|].
      split; [apply uncachePrimary_nonPrimary, wrapJoined_wrapped|].
      intros ->. reflexivity.
    + eexists _, _. split; [reflexivity|].
      split; [apply joinedWrapped_nonPrimary, wrapJoined_wrapped|].
      intros ->. reflexivity.
  - intros k l r scope Hk Hl Hr.
    rewrite cacheSubqueryAlisesInJoins_eq.
    assert (Hw : exists r0, wrapJoined true r = CachedResults r0
                            /\ isSubqueryAlias r0 = true).
    { destruct r as [kk|kk c|kk x y]; try discriminate.
      cbn [wrapJoined]. rewrite Hr. cbn [andb].
      exists (Unary kk (wrapJoined false c)). split; [reflexivity|].
      rewrite (isSubqueryAlias_kind kk c (wrapJoined false c)). exact Hr. }
    destruct Hw as [r0 [Hw Hr0]].
    assert (Hn : hasJoinedAlias false (Binary k l r) = true).
    { cbn [hasJoinedAlias]. rewrite Hk.
      destruct r; cbn [hasJoinedAlias]; rewrite Hr, ?orb_true_r; reflexivity. }
    rewrite Hn. cbn [wrapJoined]. rewrite Hk, Hw.
    change (false && isSubqueryAlias (Binary k l r)) with false. cbv iota.
    destruct (IsEmpty scope).
    + cbn [uncachePrimary]. rewrite (joinKind_sides k Hk), Hl. cbn [negb].
      eexists _, r0. split; [reflexivity | exact Hr0].
    + eexists _, r0. split; [reflexivity | exact Hr0].
  - intros k l r scope Hk Hl Hr.
    rewrite cacheSubqueryAlisesInJoins_eq.
    assert (Hw : exists l0, wrapJoined true l = CachedResults l0
                            /\ isSubqueryAlias l0 = true).
    { destruct l as [kk|kk c|kk x y]; try discriminate.
      cbn [wrapJoined]. rewrite Hr. cbn [andb].
      exists (Unary kk (wrapJoined false c)). split; [reflexivity|].
      rewrite (isSubqueryAlias_kind kk c (wrapJoined false c)). exact Hr. }
    destruct Hw as [l0 [Hw Hl0]].
    assert (Hn : hasJoinedAlias false (Binary k l r) = true).
    { cbn [hasJoinedAlias]. rewrite Hk.
      destruct l; cbn [hasJoinedAlias]; rewrite Hr; reflexivity. }
    rewrite Hn. cbn [wrapJoined]. rewrite Hk, Hw.
    change (false && isSubqueryAlias (Binary k l r)) with false. cbv iota.
    destruct (IsEmpty scope).
    + cbn [uncachePrimary]. rewrite (joinKind_sides k Hk), Hl. cbn [negb].
      eexists l0, _. split; [reflexivity | exact Hl0].
    + eexists l0, _. split; [reflexivity | exact Hl0].
Qed.

(** *** Cacheable subquery expressions *)

Lemma exprIsCacheable_walk (lowest : Z) :
  forall e cacheable,
    InspectExpr
      (fun e cacheable =>
         let belowBoundary :=
           match e with
           | GetField index => index <? lowest
           | _ => false
           end in
         if belowBoundary then (false, false)
         else if IsNonDeterministic e then (false, false)
         else (true, cacheable))
      e cacheable
    = cacheable && allExprOk lowest e.
Proof.
  induction e as [v|i|name|name nd args IH|q c] using Expression_ind';
    intros cacheable; cbn [InspectExpr allExprOk]; unfold exprOk.
  - simpl. rewrite andb_true_r. reflexivity.
  - destruct (i <? lowest); simpl; rewrite ?andb_false_r, ?andb_true_r; reflexivity.
  - simpl. rewrite andb_true_r. reflexivity.
  - cbn [negb andb IsNonDeterministic].
    destruct nd; cbn [negb andb]; [rewrite andb_false_r; reflexivity|].
    revert cacheable. induction IH as [|a args Ha _ IHargs]; intros cacheable.
    + simpl. rewrite andb_true_r. reflexivity.
    + cbn [fold_left forallb]. rewrite Ha, IHargs, andb_assoc. reflexivity.
  - cbn [negb andb]. destruct (IsNonDeterministic (Subquery q c));
      simpl; rewrite ?andb_false_r, ?andb_true_r; reflexivity.
Qed.

Lemma exprIsCacheable_eq (lowest : Z) (e : Expression) :
  exprIsCacheable e lowest = allExprOk lowest e.
Proof. unfold exprIsCacheable. rewrite exprIsCacheable_walk. reflexivity. Qed.

Lemma nodeIsCacheable_walk (lowest : Z) :
  forall n cacheable,
    Inspect
      (fun node cacheable =>
         match Expressions node with
         | Some exprs =>
             if forallb (fun expr => exprIsCacheable expr lowest) exprs
             then (true, cacheable)
             else (false, false)
         | None =>
             if isSubqueryAlias node then (false, false) else (true, cacheable)
         end)
      n cacheable
    = cacheable && allNodesOk lowest n.
Proof.
  assert (Hf : forall exprs,
             forallb (fun expr => exprIsCacheable expr lowest) exprs
             = forallb (allExprOk lowest) exprs).
  { induction exprs as [|e t IHt]; [reflexivity|].
    cbn [forallb]. rewrite exprIsCacheable_eq, IHt. reflexivity. }
  induction n as [k|k c IH|k l IHl r IHr]; intros cacheable;
    cbn [Inspect allNodesOk]; unfold nodeOk.
  - simpl. rewrite andb_true_r. reflexivity.
  - destruct (Expressions (Unary k c)) as [exprs|].
    + rewrite Hf. destruct (forallb (allExprOk lowest) exprs);
        cbn [fold_left andb]; [apply IH | rewrite andb_false_r; reflexivity].
    + destruct (isSubqueryAlias (Unary k c));
        cbn [fold_left andb negb]; [rewrite andb_false_r; reflexivity | apply IH].
  - destruct (Expressions (Binary k l r)) as [exprs|].
    + rewrite Hf. destruct (forallb (allExprOk lowest) exprs);
        cbn [fold_left andb]; [|rewrite andb_false_r; reflexivity].
      rewrite IHr, IHl, andb_assoc. reflexivity.
    + change (isSubqueryAlias (Binary k l r)) with false.
      cbn [fold_left andb negb]. rewrite IHr, IHl, andb_assoc. reflexivity.
Qed.

Lemma nodeIsCacheable_eq (n : Node) (lowest : Z) :
  nodeIsCacheable n lowest = allNodesOk lowest n.
Proof. unfold nodeIsCacheable. rewrite nodeIsCacheable_walk. reflexivity. Qed.

Lemma allExprOk_spec (lowest : Z) :
  forall e, allExprOk lowest e = true <-> (forall x, InExpr x e -> exprOk lowest x = true).
Proof.
  induction e as [v|i|name|name nd args IH|q c] using Expression_ind';
    cbn [allExprOk]; rewrite ?andb_true_r.
  1-3,5: split; [intros H x Hx; inversion Hx; subst; exact H
                | intros H; apply H; constructor].
  rewrite andb_true_iff, forallb_forall. rewrite Forall_forall in IH.
  split.
  - intros [H1 H2] x Hx. inversion Hx; subst; [exact H1|].
    apply (IH a); auto.
  - intros H. split; [apply H; constructor|].
    intros a Ha. apply IH; auto.
    intros x Hx. apply H. econstructor; eauto.
Qed.

Lemma allNodesOk_spec (lowest : Z) :
  forall n, allNodesOk lowest n = true <-> (forall m, InPlan m n -> nodeOk lowest m = true).
Proof.
  induction n as [k|k c IH|k l IHl r IHr]; cbn [allNodesOk]; rewrite ?andb_true_r.
  - split; [intros H m Hm; inversion Hm; subst; exact H | intros H; apply H; constructor].
  - rewrite andb_true_iff, IH. split.
    + intros [H1 H2] m Hm. inversion Hm; subst; auto.
    + intros H. split; [apply H; constructor|].
      intros m Hm. apply H. constructor. exact Hm.
  - rewrite !andb_true_iff, IHl, IHr. split.
    + intros [H1 [H2 H3]] m Hm. inversion Hm; subst; auto.
    + intros H. split; [apply H; constructor|]. split.
      * intros m Hm. apply H. apply InPlan_left. exact Hm.
      * intros m Hm. apply H. apply InPlan_right. exact Hm.
Qed.

Lemma exprOk_spec (lowest : Z) (x : Expression) :
  exprOk lowest x = true
  <-> (forall i, x = GetField i -> lowest <= i) /\ IsNonDeterministic x = false.
Proof.
  unfold exprOk. rewrite andb_true_iff, !negb_true_iff. split.
  - intros [H1 H2]. split; [|exact H2].
    intros i ->. apply Z.ltb_ge. exact H1.
  - intros [H1 H2]. split; [|exact H2].
    destruct x; auto. apply Z.ltb_ge. apply H1. reflexivity.
Qed.

Lemma expressioner_not_alias (m : Node) exprs :
  Expressions m = Some exprs -> isSubqueryAlias m = false.
Proof.
  destruct m as [k|k c|k l r]; try discriminate; try reflexivity.
  destruct k; try discriminate; reflexivity.
Qed.

Lemma nodeIsCacheable_spec (q : Node) (lowest : Z) :
  nodeIsCacheable q lowest = true <-> bodyCacheable q lowest.
Proof.
  rewrite nodeIsCacheable_eq, allNodesOk_spec. unfold bodyCacheable, exprOfPlan.
  split.
  - intros H.
    assert (Hx : forall x, (exists m exprs e,
                   InPlan m q /\ Expressions m = Some exprs /\ In e exprs /\ InExpr x e)
                 -> exprOk lowest x = true).
    { intros x [m [exprs [e [Hm [He [Hin Hx]]]]]].
      specialize (H m Hm). unfold nodeOk in H. rewrite He in H.
      rewrite forallb_forall in H. specialize (H e Hin).
      rewrite allExprOk_spec in H. apply H. exact Hx. }
    split; [|split].
    + intros i Hi. apply Hx in Hi. apply exprOk_spec in Hi. destruct Hi as [Hi _].
      apply Hi. reflexivity.
    + intros x Hi. apply Hx in Hi. apply exprOk_spec in Hi. apply Hi.
    + intros m Hm. specialize (H m Hm). unfold nodeOk in H.
      destruct (Expressions m) as [exprs|] eqn:He.
      * eapply expressioner_not_alias; eauto.
      * apply negb_true_iff in H. exact H.
  - intros [H1 [H2 H3]] m Hm. unfold nodeOk.
    destruct (Expressions m) as [exprs|] eqn:He.
    + apply forallb_forall. intros e Hin. apply allExprOk_spec. intros x Hx.
      apply exprOk_spec. split.
      * intros i ->. apply H1. exists m, exprs, e. auto.
      * apply H2. exists m, exprs, e. auto.
    + apply negb_true_iff. apply H3. exact Hm.
Qed.

Lemma cacheSubqueryResultsFn_eq (scope : Scope) (n query : Node) (c : bool) :
  cacheSubqueryResultsFn scope n (Subquery query c)
  = if Resolved query && nodeIsCacheable query (scopeSchemaLen (newScope scope n))
    then Ok (WithCachedResults query) NewTree
    else Ok (Subquery query c) SameTree.
Proof.
  unfold cacheSubqueryResultsFn, subqueryResolved.
  destruct (Resolved query); [|reflexivity].
  destruct (nodeIsCacheable _ _); reflexivity.
Qed.

Lemma cacheSubqueryResults_filter (scope : Scope) (query : Node) (c : bool)
  (t : LeafKind) :
  cacheSubqueryResults (Unary (KFilter (Subquery query c)) (Leaf t)) scope
  = if Resolved query
       && nodeIsCacheable query
            (scopeSchemaLen
               (newScope scope (Unary (KFilter (Subquery query c)) (Leaf t))))
    then Ok (Unary (KFilter (WithCachedResults query)) (Leaf t)) NewTree
    else Ok (Unary (KFilter (Subquery query c)) (Leaf t)) SameTree.
Proof.
  unfold cacheSubqueryResults, NodeExprsWithNode.
  rewrite transformNode_unary with (c' := Leaf t) (sc := SameTree);
    [|reflexivity].
  unfold OneNodeExprsWithNode. cbn [Expressions rewriteChildren transformExpr].
  rewrite cacheSubqueryResultsFn_eq.
  destruct (Resolved query && _); reflexivity.
Qed.

(** C1, amended. [cacheSubqueryResults] marks a resolved subquery
    expression cacheable, reporting [NewTree], if and only if every field
    reference in its body has an index at or above the schema length of
    the scope extended with the containing node, no expression in its body
    is non-deterministic, and its body holds no subquery-derived-table at
    all, with or without outer-scope visibility; otherwise, and for an
    unresolved subquery and for every other expression, the expression is
    returned as it is, reporting [SameTree]. A trigger block is returned
    as it is. *)
Theorem cacheSubqueryResults_marks_cacheable :
  (forall scope n query c,
      Resolved query = true ->
      (cacheSubqueryResultsFn scope n (Subquery query c)
       = Ok (WithCachedResults query) NewTree
       <-> bodyCacheable query (scopeSchemaLen (newScope scope n)))
      /\ (cacheSubqueryResultsFn scope n (Subquery query c)
          = Ok (Subquery query c) SameTree
          <-> ~ bodyCacheable query (scopeSchemaLen (newScope scope n))))
  /\ (forall scope n query c,
         Resolved query = false ->
         cacheSubqueryResultsFn scope n (Subquery query c)
         = Ok (Subquery query c) SameTree)
  /\ (forall scope n e,
         (forall query c, e <> Subquery query c) ->
         cacheSubqueryResultsFn scope n e = Ok e SameTree)
  /\ (forall scope body,
         cacheSubqueryResults (Unary KTriggerBeginEndBlock body) scope
         = Ok (Unary KTriggerBeginEndBlock body) SameTree)
  /\ (forall scope query c t,
         Resolved query = true ->
         let plan := Unary (KFilter (Subquery query c)) (Leaf t) in
         (bodyCacheable query (scopeSchemaLen (newScope scope plan)) ->
          cacheSubqueryResults plan scope
          = Ok (Unary (KFilter (WithCachedResults query)) (Leaf t)) NewTree)
         /\ (~ bodyCacheable query (scopeSchemaLen (newScope scope plan)) ->
             cacheSubqueryResults plan scope = Ok plan SameTree)).
Proof.
  split; [|split; [|split; [|split]]].
  - intros scope n query c Hr.
    rewrite cacheSubqueryResultsFn_eq, Hr. cbn [andb].
    rewrite <- nodeIsCacheable_spec.
    destruct (nodeIsCacheable query _).
    + split.
      * split; intros _; reflexivity.
      * split; [intros H; apply Ok_inj in H; destruct H; discriminate
               | intros H; contradiction H; reflexivity].
    + split.
      * split; [intros H; apply Ok_inj in H; destruct H; discriminate
               | intros H; discriminate].
      * split; [intros _ H; discriminate | intros _; reflexivity].
  - intros scope n query c Hr. rewrite cacheSubqueryResultsFn_eq, Hr. reflexivity.
  - intros scope n e H. destruct e; try reflexivity.
    contradiction (H Query canCacheResults). reflexivity.
  - reflexivity.
  - intros scope query c t Hr plan. subst plan.
    rewrite cacheSubqueryResults_filter, Hr. cbn [andb].
    rewrite <- nodeIsCacheable_spec.
    destruct (nodeIsCacheable query _); split; intros H;
      try reflexivity; try discriminate.
    contradiction H. reflexivity.
Qed.

(** ** Further properties of the rules *)

(** *** The first derived table of a plan *)

Lemma firstAlias_app (l1 l2 : list Node) :
  firstAlias (l1 ++ l2)
  = match firstAlias l1 with
    | Some s => Some s
    | None => firstAlias l2
    end.
Proof.
  induction l1 as [|m t IH]; simpl; [reflexivity|].
  destruct (asSubqueryAlias m); [reflexivity | exact IH].
Qed.

Lemma getSubqueryAlias_walk :
  forall n sq,
    Inspect
      (fun node sq =>
         match sq with
         | Some _ => (false, sq)
         | None =>
             match asSubqueryAlias node with
             | Some n => (false, Some n)
             | None => (true, None)
             end
         end)
      n sq
    = match sq with
      | Some _ => sq
      | None => firstAlias (preorder n)
      end.
Proof.
  induction n as [k|k c IH|k l IHl r IHr]; intros [s|]; try reflexivity;
    cbn [Inspect preorder firstAlias].
  - destruct (asSubqueryAlias (Unary k c)); [reflexivity|].
    cbn [fold_left]. apply IH.
  - destruct (asSubqueryAlias (Binary k l r)); [reflexivity|].
    cbn [fold_left]. rewrite IHl, firstAlias_app.
    destruct (firstAlias (preorder l)) as [s|].
    + apply (IHr (Some s)).
    + apply IHr.
Qed.

Lemma preorder_InPlan (m : Node) :
  forall n, In m (preorder n) <-> InPlan m n.
Proof.
  induction n as [k|k c IH|k l IHl r IHr]; cbn [preorder].
  - split.
    + intros [<-|[]]. constructor.
    + intros H. inversion H; subst. left. reflexivity.
  - split.
    + intros [<-|H]; [constructor|]. constructor. apply IH. exact H.
    + intros H. inversion H; subst; [left; reflexivity|]. right. apply IH. assumption.
  - split.
    + intros [<-|H]; [constructor|]. apply in_app_or in H.
      destruct H as [H|H]; [apply InPlan_left, IHl | apply InPlan_right, IHr]; exact H.
    + intros H. inversion H; subst; [left; reflexivity| |]; right; apply in_or_app.
      * left. apply IHl. assumption.
      * right. apply IHr. assumption.
Qed.

Lemma firstAlias_None (l : list Node) :
  firstAlias l = None <-> (forall m, In m l -> isSubqueryAlias m = false).
Proof.
  unfold isSubqueryAlias. induction l as [|x t IH]; simpl.
  - split; [intros _ m [] | reflexivity].
  - destruct (asSubqueryAlias x) as [s|] eqn:Hx.
    + split; [discriminate|]. intros H. specialize (H x (or_introl eq_refl)).
      rewrite Hx in H. discriminate.
    + rewrite IH. split.
      * intros H m [<-|Hm]; [rewrite Hx; reflexivity | apply H; exact Hm].
      * intros H m Hm. apply H. right. exact Hm.
Qed.

Lemma firstAlias_Some (l : list Node) (s : SubqueryAliasT) :
  firstAlias l = Some s ->
  exists before after,
    l = before ++ sqaNode s :: after
    /\ (forall m, In m before -> isSubqueryAlias m = false).
Proof.
  induction l as [|x t IH]; simpl; [discriminate|].
  destruct (asSubqueryAlias x) as [s'|] eqn:Hx.
  - intros H. inversion H; subst s'. exists [], t. split; [|intros m []].
    destruct x as [k|k c|k a b]; try discriminate.
    destruct k; try discriminate. inversion Hx. reflexivity.
  - intros H. destruct (IH H) as [before [after [-> Hb]]].
    exists (x :: before), after. split; [reflexivity|].
    intros m [<-|Hm]; [unfold isSubqueryAlias; rewrite Hx; reflexivity | apply Hb; exact Hm].
Qed.

(** X1. [getSubqueryAlias] returns the first subquery-derived-table of the
    plan, parents before children and left before right: the nodes before
    it in that order are no derived tables; it returns nil exactly when the
    plan holds none, and what it returns is a node of the plan. *)
Theorem getSubqueryAlias_first (n : Node) :
  getSubqueryAlias n = firstAlias (preorder n)
  /\ (getSubqueryAlias n = None <-> forall m, InPlan m n -> isSubqueryAlias m = false)
  /\ (forall s,
         getSubqueryAlias n = Some s ->
         InPlan (sqaNode s) n
         /\ exists before after,
              preorder n = before ++ sqaNode s :: after
              /\ (forall m, In m before -> isSubqueryAlias m = false)).
Proof.
  assert (H : getSubqueryAlias n = firstAlias (preorder n))
    by (unfold getSubqueryAlias; rewrite getSubqueryAlias_walk; reflexivity).
  split; [exact H|]. rewrite H. split.
  - rewrite firstAlias_None. split; intros Hm m Hin; apply Hm; apply preorder_InPlan;
      exact Hin.
  - intros s Hs. destruct (firstAlias_Some _ Hs) as [before [after [Hp Hb]]].
    split; [|exists before, after; auto].
    apply preorder_InPlan. rewrite Hp. apply in_or_app. right. left. reflexivity.
Qed.

(** *** Running a rule on its own result *)

Lemma wrapJoined_idempotent :
  forall n joined, wrapJoined joined (wrapJoined joined n) = wrapJoined joined n.
Proof.
  induction n as [k|k c IH|k l IHl r IHr]; intros joined.
  - cbn [wrapJoined]. rewrite andb_false_r. cbn [wrapJoined]. rewrite andb_false_r.
    reflexivity.
  - cbn [wrapJoined]. destruct (joined && isSubqueryAlias (Unary k c)) eqn:H.
    + unfold CachedResults. cbn [wrapJoined]. rewrite andb_false_r. cbn [andb].
      rewrite IH. reflexivity.
    + cbn [wrapJoined]. rewrite (isSubqueryAlias_kind k c (wrapJoined false c)), H, IH.
      reflexivity.
  - cbn [wrapJoined]. rewrite andb_false_r. cbn [wrapJoined]. rewrite andb_false_r, IHl, IHr.
    reflexivity.
Qed.

Lemma hasJoinedAlias_wrapJoined :
  forall n joined, hasJoinedAlias joined (wrapJoined joined n) = false.
Proof.
  induction n as [k|k c IH|k l IHl r IHr]; intros joined.
  - cbn [wrapJoined]. rewrite andb_false_r. cbn [hasJoinedAlias].
    rewrite andb_false_r. reflexivity.
  - cbn [wrapJoined]. destruct (joined && isSubqueryAlias (Unary k c)) eqn:H.
    + unfold CachedResults. cbn [hasJoinedAlias]. rewrite andb_false_r. cbn [andb orb].
      apply IH.
    + cbn [hasJoinedAlias].
      rewrite (isSubqueryAlias_kind k c (wrapJoined false c)), H. apply IH.
  - cbn [wrapJoined]. rewrite andb_false_r. cbn [hasJoinedAlias].
    rewrite andb_false_r, IHl, IHr. reflexivity.
Qed.

Lemma uncachePrimary_wrapJoined (n : Node) (joined : bool) :
  uncachePrimary (wrapJoined joined n) = uncachePrimary (wrapJoined false n).
Proof.
  destruct n as [k|k c|k l r]; cbn [wrapJoined andb];
    destruct (joined && _); reflexivity.
Qed.

Lemma primaryCached_uncachePrimary :
  forall m, primaryCached (uncachePrimary m) = false.
Proof.
  induction m as [k|k c IH|k l IHl r IHr]; try reflexivity.
  - assert (H : primaryCached (Unary k (uncachePrimary c)) = isCachedResults (Unary k c)).
    { cbn [primaryCached]. rewrite IH, orb_false_r. destruct k; reflexivity. }
    destruct k; try exact H. exact IH.
  - cbn [uncachePrimary primaryCached].
    destruct (leftIsPrimary k), (rightIsPrimary k); cbn [andb orb];
      rewrite ?IHl, ?IHr; reflexivity.
Qed.

Lemma uncachePrimary_idempotent (m : Node) :
  uncachePrimary (uncachePrimary m) = uncachePrimary m.
Proof. apply uncachePrimary_same, primaryCached_uncachePrimary. Qed.

Lemma uncache_wrap_idempotent :
  forall n,
    uncachePrimary (wrapJoined false (uncachePrimary (wrapJoined false n)))
    = uncachePrimary (wrapJoined false n).
Proof.
  induction n as [k|k c IH|k l IHl r IHr].
  - reflexivity.
  - cbn [wrapJoined andb].
    assert (H : uncachePrimary
                  (wrapJoined false (Unary k (uncachePrimary (wrapJoined false c))))
                = Unary k (uncachePrimary (wrapJoined false c)) ->
                forall k', k' = k ->
                uncachePrimary (wrapJoined false (uncachePrimary (Unary k' (wrapJoined false c))))
                = uncachePrimary (Unary k' (wrapJoined false c))).
    { intros H k' ->. destruct k; try exact H. exact IH. }
    destruct k; try (apply H; [|reflexivity]; cbn [wrapJoined andb uncachePrimary];
                     rewrite IH; reflexivity).
    exact IH.
  - cbn [wrapJoined andb uncachePrimary].
    rewrite !uncachePrimary_wrapJoined with (joined := isJoinKind k).
    destruct (leftIsPrimary k), (rightIsPrimary k);
      rewrite ?uncachePrimary_wrapJoined with (joined := isJoinKind k),
              ?IHl, ?IHr, ?wrapJoined_idempotent; reflexivity.
Qed.

(** X2. [cacheSubqueryAlisesInJoins] run on its own result returns that
    result again: no derived table is wrapped twice. At a scope that is not
    empty the second run reports [SameTree]. At an empty scope the second
    run reports [SameTree] only when no join of the result has a bare
    derived table as a child: the cleanup has unwrapped the derived tables
    of the most primary branch, so the wrapping pass wraps them again and
    the cleanup unwraps them again, and the rule keeps reporting a new
    tree for a plan it does not change. *)
Theorem cacheSubqueryAlisesInJoins_idempotent (n : Node) (scope : Scope) :
  exists n1 same1 same2,
    cacheSubqueryAlisesInJoins n scope = Ok n1 same1
    /\ cacheSubqueryAlisesInJoins n1 scope = Ok n1 same2
    /\ (same2 = SameTree <-> hasJoinedAlias false n1 = false)
    /\ (IsEmpty scope = false -> same2 = SameTree).
Proof.
  rewrite cacheSubqueryAlisesInJoins_eq.
  destruct (IsEmpty scope) eqn:He.
  - eexists _, _, _. split; [reflexivity|].
    rewrite cacheSubqueryAlisesInJoins_eq, He, uncache_wrap_idempotent.
    split; [reflexivity|]. split; [|discriminate].
    unfold SameTree. rewrite andb_true_iff, !negb_true_iff. split.
    + intros [H _]. exact H.
    + intros H. split; [exact H|].
      rewrite (wrapJoined_same _ _ H). apply primaryCached_uncachePrimary.
  - eexists _, _, _. split; [reflexivity|].
    rewrite cacheSubqueryAlisesInJoins_eq, He, wrapJoined_idempotent.
    split; [reflexivity|].
    rewrite hasJoinedAlias_wrapJoined. unfold SameTree. cbn [negb andb].
    repeat split; reflexivity.
Qed.

Lemma withJoinScopeLen_idempotent (scopeLen : Z) :
  forall n,
    withJoinScopeLen scopeLen (withJoinScopeLen scopeLen n) = withJoinScopeLen scopeLen n.
Proof.
  induction n as [k|k c IH|k l IHl r IHr].
  - reflexivity.
  - cbn [withJoinScopeLen]. rewrite IH. reflexivity.
  - cbn [withJoinScopeLen].
    destruct k as [jt cond sl|jt cond|].
    + destruct (isStripRowNode (withJoinScopeLen scopeLen l)) eqn:Hs.
      * cbn [withJoinScopeLen]. rewrite IHl, IHr, Hs. reflexivity.
      * unfold StripRowNode. cbn [withJoinScopeLen isStripRowNode]. rewrite IHl, IHr.
        reflexivity.
    + cbn [withJoinScopeLen]. rewrite IHl, IHr. reflexivity.
    + cbn [withJoinScopeLen]. rewrite IHl, IHr. reflexivity.
Qed.

Lemma hasJoinNode_withJoinScopeLen (scopeLen : Z) :
  forall n, hasJoinNode (withJoinScopeLen scopeLen n) = hasJoinNode n.
Proof.
  induction n as [k|k c IH|k l IHl r IHr].
  - reflexivity.
  - cbn [withJoinScopeLen hasJoinNode]. exact IH.
  - cbn [withJoinScopeLen].
    destruct k as [jt cond sl|jt cond|].
    + destruct (isStripRowNode (withJoinScopeLen scopeLen l)); reflexivity.
    + cbn [hasJoinNode]. rewrite IHl, IHr. reflexivity.
    + cbn [hasJoinNode]. rewrite IHl, IHr. reflexivity.
Qed.

(** X3. [setJoinScopeLen] run on its own result returns that result again,
    with the identity of the first run: the children of a join are not
    wrapped in a second strip-wrapper, but a plan with a join is reported
    as a new tree every time the rule runs under a scope whose schema has
    a column. *)
Theorem setJoinScopeLen_idempotent (n : Node) (scope : Scope) :
  exists n1 same,
    setJoinScopeLen n scope = Ok n1 same
    /\ setJoinScopeLen n1 scope = Ok n1 same
    /\ (scopeSchemaLen scope <> 0 -> (same = NewTree <-> hasJoinNode n = true)).
Proof.
  unfold setJoinScopeLen.
  destruct (scopeSchemaLen scope =? 0) eqn:Hz.
  - exists n, SameTree. repeat split; try reflexivity; intros; exfalso;
      apply Z.eqb_eq in Hz; contradiction.
  - destruct (setJoinScopeLen_tree (scopeSchemaLen scope) n) as [s1 [H1 [Hs1 _]]].
    destruct (setJoinScopeLen_tree (scopeSchemaLen scope)
                (withJoinScopeLen (scopeSchemaLen scope) n)) as [s2 [H2 [Hs2 _]]].
    rewrite withJoinScopeLen_idempotent, hasJoinNode_withJoinScopeLen in *.
    exists (withJoinScopeLen (scopeSchemaLen scope) n), s1.
    split; [exact H1|]. split.
    + rewrite H2. f_equal. f_equal. unfold SameTree in *.
      destruct Hs1 as [Ha Hb], Hs2 as [Hc Hd].
      destruct s1, s2; try reflexivity.
      * apply Hd, Ha. reflexivity.
      * symmetry. apply Hb, Hc. reflexivity.
    + intros _. unfold NewTree, SameTree in *. destruct Hs1 as [Ha Hb].
      destruct s1, (hasJoinNode n); split; intros H; try reflexivity; try discriminate;
        first [ discriminate (Ha eq_refl) | discriminate (Hb eq_refl) ].
Qed.

(** X4. [flattenTableAliases] run on its own result returns that result
    again and reports [SameTree]: one run flattens every stack of
    aliases. *)
Theorem flattenTableAliases_idempotent (n : Node) :
  exists n1 same,
    flattenTableAliases n = Ok n1 same
    /\ flattenTableAliases n1 = Ok n1 SameTree.
Proof.
  unfold flattenTableAliases.
  destruct (flattenTableAliases_tree n) as [n1 [s1 [H1 [Hflat _]]]].
  destruct (flattenTableAliases_tree n1) as [n2 [s2 [H2 [_ [Hs2 [Heq _]]]]]].
  exists n1, s1. split; [exact H1|].
  assert (Hs : s2 = SameTree) by (apply Hs2; exact Hflat).
  rewrite H2, (Heq Hs), Hs. reflexivity.
Qed.

Lemma WithName_WithName name name' (n : Node) :
  WithName name (WithName name' n) = WithName name n.
Proof.
  destruct n as [k|k c|k l r]; try reflexivity. destruct k; reflexivity.
Qed.

Lemma flattenTableAliasesFn_alias name (c : Node) :
  flattenTableAliasesFn (TableAlias name c)
  = if aliasLike c then Ok (WithName name c) NewTree
    else Ok (TableAlias name c) SameTree.
Proof.
  unfold aliasLike, TableAlias. cbn [flattenTableAliasesFn].
  destruct (isSubqueryAlias c), (isTableAlias c); reflexivity.
Qed.

(** X5. A stack of table aliases collapses to its outermost name: over a
    base [flattenTableAliases] turns into a derived table or a table alias,
    the result is that node renamed; over any other base, it is one table
    alias over the flattened base. The tree is the same only for one alias
    over a base that is unchanged and is not an alias. *)
Theorem flattenTableAliases_chain (name : string) (names : list string) (base : Node) :
  exists base' same,
    flattenTableAliases base = Ok base' same
    /\ flattenTableAliases (aliasChain (name :: names) base)
       = Ok (if aliasLike base' then WithName name base' else TableAlias name base')
            (same && negb (aliasLike base')
             && match names with [] => true | _ :: _ => false end).
Proof.
  unfold flattenTableAliases.
  destruct (flattenTableAliases_tree base) as [base' [same [Hb _]]].
  exists base', same. split; [exact Hb|].
  revert name. induction names as [|name2 rest IH]; intros name.
  - unfold aliasChain. cbn [fold_right]. unfold TableAlias at 1.
    rewrite (@transformNode_unary _ _ _ _ _ Hb).
    fold (TableAlias name base'). rewrite flattenTableAliasesFn_alias.
    destruct (aliasLike base'); unfold Ok at 1; cbn [bind negb];
      rewrite ?andb_false_r, ?andb_true_r; reflexivity.
  - specialize (IH name2).
    change (aliasChain (name :: name2 :: rest) base)
      with (Unary (KTableAlias name) (aliasChain (name2 :: rest) base)).
    rewrite (@transformNode_unary _ _ _ _ _ IH).
    match goal with
    | |- context [Unary (KTableAlias name) ?c] => fold (TableAlias name c)
    end.
    rewrite flattenTableAliasesFn_alias.
    rewrite !andb_false_r.
    destruct (aliasLike base') eqn:Ha.
    + assert (Hw : aliasLike (WithName name2 base') = true).
      { destruct base' as [k|k c|k l r]; try discriminate.
        destruct k; try discriminate; reflexivity. }
      rewrite Hw, WithName_WithName. unfold Ok at 1. cbn [bind].
      rewrite andb_false_r. reflexivity.
    + change (aliasLike (TableAlias name2 base')) with true. cbv iota.
      unfold Ok at 1. cbn [bind WithName TableAlias].
      rewrite andb_false_r. reflexivity.
Qed.

(** *** Cacheability *)

Lemma InPlan_trans (a b c : Node) : InPlan a b -> InPlan b c -> InPlan a c.
Proof.
  intros Hab Hbc. induction Hbc.
  - exact Hab.
  - apply InPlan_child. assumption.
  - apply InPlan_left. assumption.
  - apply InPlan_right. assumption.
Qed.

Lemma exprOk_mono (k k' : Z) (x : Expression) :
  k' <= k -> exprOk k x = true -> exprOk k' x = true.
Proof.
  intros Hk. rewrite !exprOk_spec. intros [H1 H2]. split; [|exact H2].
  intros i Hi. specialize (H1 i Hi). lia.
Qed.

(** X6. Cacheability of a subquery body is downward closed: a plan
    [nodeIsCacheable] accepts at a boundary index is accepted at every
    lower boundary, and so is each of its sub-plans. *)
Theorem nodeIsCacheable_downward (n m : Node) (lowest lowest' : Z) :
  nodeIsCacheable n lowest = true ->
  lowest' <= lowest ->
  InPlan m n ->
  nodeIsCacheable m lowest' = true.
Proof.
  rewrite !nodeIsCacheable_eq, !allNodesOk_spec.
  intros Hn Hk Hm p Hp.
  specialize (Hn p (InPlan_trans Hp Hm)).
  unfold nodeOk in *. destruct (Expressions p) as [exprs|]; [|exact Hn].
  rewrite forallb_forall in *. intros e He. specialize (Hn e He).
  rewrite allExprOk_spec in *. intros x Hx.
  apply exprOk_mono with (k := lowest); auto.
Qed.

(** *** Passthrough wrappers *)

(** X7. A plan is what [StripPassthroughNodes] returns for it under a
    stack of passthrough wrappers and nothing else: the function removes
    wrappers only from the top and loses no other node. *)
Theorem StripPassthroughNodes_wrappers (n : Node) :
  exists kinds,
    forallb passthroughKind kinds = true
    /\ n = wrapAll kinds (StripPassthroughNodes n).
Proof.
  induction n as [k|k c IH|k l IHl r IHr].
  - exists []. split; reflexivity.
  - destruct IH as [kinds [Hk Hn]].
    destruct (passthroughKind k) eqn:Hp.
    + exists (k :: kinds). split; [cbn [forallb]; rewrite Hp; exact Hk|].
      cbn [wrapAll fold_right]. fold (wrapAll kinds (StripPassthroughNodes (Unary k c))).
      destruct k; try discriminate; cbn [StripPassthroughNodes]; rewrite <- Hn;
        reflexivity.
    + exists []. split; [reflexivity|].
      destruct k; try discriminate; reflexivity.
  - exists []. split; reflexivity.
Qed.

(** X8. Conversely, [StripPassthroughNodes] returns the node under any
    stack of passthrough wrappers, when that node is no passthrough wrapper
    itself. *)
Theorem StripPassthroughNodes_unwraps (kinds : list (UnaryKind Expression)) (n : Node) :
  forallb passthroughKind kinds = true ->
  isPassthrough n = false ->
  StripPassthroughNodes (wrapAll kinds n) = n.
Proof.
  intros Hk Hn. induction kinds as [|k rest IH].
  - apply StripPassthroughNodes_fixed. exact Hn.
  - cbn [forallb] in Hk. apply andb_true_iff in Hk. destruct Hk as [Hp Hr].
    cbn [wrapAll fold_right]. fold (wrapAll rest n).
    destruct k; try discriminate; cbn [StripPassthroughNodes]; apply IH; exact Hr.
Qed.

(** *** Plans the subquery passes leave alone *)

Lemma rewriteChildren_same_all {A : Type} (g : A -> Result A) :
  forall children i,
    (forall c, In c children -> g c = Ok c SameTree) ->
    rewriteChildren (fun _ child => Some (g child)) i children = Ok children SameTree.
Proof.
  induction children as [|c rest IH]; intros i H; [reflexivity|].
  cbn [rewriteChildren]. rewrite (H c (or_introl eq_refl)).
  unfold Ok at 1. cbn [bind]. rewrite IH by (intros x Hx; apply H; right; exact Hx).
  reflexivity.
Qed.

Lemma transformExpr_no_subquery a scope sel finalize node :
  forall e, containsSubquery e = false ->
    transformExpr (subqueryExprFn a scope sel finalize node) e = Ok e SameTree.
Proof.
  induction e as [v|i|name|name nd args IH|q c] using Expression_ind';
    intros Hc; try reflexivity; [|discriminate].
  destruct args as [|x t]; [reflexivity|].
  cbn [transformExpr]. rewrite rewriteChildren_same_all.
  - reflexivity.
  - intros y Hy. rewrite Forall_forall in IH. apply (IH y Hy).
    cbn [containsSubquery] in Hc.
    destruct (containsSubquery y) eqn:Hcy; [|reflexivity].
    assert (Hex : existsb containsSubquery (x :: t) = true)
      by (apply existsb_exists; exists y; split; assumption).
    rewrite Hex in Hc. discriminate.
Qed.

Lemma ctxFunc_no_subquery a scope sel finalize node parent i :
  isSubqueryAlias node = false ->
  exprsHaveSubquery node = false ->
  ctxFunc a scope sel finalize (mkContext node parent i) = Ok node SameTree.
Proof.
  unfold ctxFunc, isSubqueryAlias, exprsHaveSubquery. cbn [CtxNode].
  destruct (asSubqueryAlias node); [discriminate|]. intros _.
  destruct (Expressions node) as [exprs|]; [|reflexivity].
  intros He. rewrite rewriteChildren_same_all; [reflexivity|].
  intros e Hin. apply transformExpr_no_subquery.
  destruct (containsSubquery e) eqn:Hce; [|reflexivity].
  assert (Hex : existsb containsSubquery exprs = true)
    by (apply existsb_exists; exists e; split; assumption).
  rewrite Hex in He. discriminate.
Qed.

Lemma visitChild_selectorFunc f (node : Node) i (child : Node) :
  visitChild (Some selectorFunc) f node i child
  = if isSubqueryAlias node then Ok child SameTree
    else nodeWithCtxHelper (Some selectorFunc) f child (Some node) i.
Proof.
  unfold visitChild, selected, selectorFunc. cbn [Parent].
  destruct (isSubqueryAlias node); reflexivity.
Qed.

Lemma resolve_helper_same a scope sel finalize :
  forall n parent i,
    hasAlias n = false -> subqueryInPlan n = false ->
    nodeWithCtxHelper (Some selectorFunc) (ctxFunc a scope sel finalize) n parent i
    = Ok n SameTree.
Proof.
  induction n as [k|k c IH|k l IHl r IHr]; intros parent i Ha Hs.
  - reflexivity.
  - cbn [hasAlias subqueryInPlan] in Ha, Hs.
    apply orb_false_elim in Ha. destruct Ha as [Ha Hac].
    apply orb_false_elim in Hs. destruct Hs as [He Hsc].
    rewrite nodeWithCtxHelper_unary with (c' := c) (sc := SameTree).
    + rewrite ctxFunc_no_subquery by assumption. reflexivity.
    + rewrite visitChild_selectorFunc, Ha. apply IH; assumption.
  - cbn [hasAlias subqueryInPlan] in Ha, Hs.
    apply orb_false_elim in Ha. destruct Ha as [Ha Hac].
    apply orb_false_elim in Hac. destruct Hac as [Hal Har].
    apply orb_false_elim in Hs. destruct Hs as [He Hsr].
    apply orb_false_elim in He. destruct He as [He Hsl].
    rewrite nodeWithCtxHelper_binary
      with (l' := l) (r' := r) (sl := SameTree) (sr := SameTree).
    + rewrite ctxFunc_no_subquery by assumption. reflexivity.
    + rewrite visitChild_selectorFunc, Ha. apply IHl; assumption.
    + rewrite visitChild_selectorFunc, Ha. apply IHr; assumption.
Qed.

Lemma subqueryInPass_no_alias :
  forall n, hasAlias n = false -> subqueryInPass n = subqueryInPlan n.
Proof.
  induction n as [k|k c IH|k l IHl r IHr]; intros Ha; [reflexivity| |];
    cbn [hasAlias] in Ha; apply orb_false_elim in Ha; destruct Ha as [Ha Hc].
  - cbn [subqueryInPass subqueryInPlan]. rewrite Ha, (IH Hc). reflexivity.
  - apply orb_false_elim in Hc. destruct Hc as [Hl Hr].
    cbn [subqueryInPass subqueryInPlan]. rewrite (IHl Hl), (IHr Hr). reflexivity.
Qed.

(** X9. On a plan without subquery-derived-table, [resolveSubqueries] and
    [finalizeSubqueries] return the plan as it is and report [SameTree]
    exactly when no expression of the plan holds a subquery expression,
    whatever the analyzer, which is then not consulted. *)
Theorem resolveSubqueries_unchanged
  (a : Analyzer) (n : Node) (scope : Scope) (sel : RuleSelector) :
  hasAlias n = false ->
  (resolveSubqueries a n scope sel = Ok n SameTree <-> subqueryInPlan n = false)
  /\ (finalizeSubqueries a n scope sel = Ok n SameTree <-> subqueryInPlan n = false).
Proof.
  intros Ha. unfold resolveSubqueries, finalizeSubqueries, NodeWithCtx.
  split; (split; [|intros Hs; apply resolve_helper_same; assumption]);
    intros H; destruct (subqueryInPlan n) eqn:Hs; try reflexivity;
    rewrite <- (subqueryInPass_no_alias n Ha) in Hs;
    pose proof (resolve_helper_new _ _ _ _ _ _ _ Hs H) as Hn; discriminate.
Qed.

(** *** Errors of the subquery passes *)

Lemma Fails_bind {A B : Type} (m : Fallible A) (k : A -> Fallible B) :
  Fails m -> Fails (bind m k).
Proof. intros [err ->]. exists err. reflexivity. Qed.

Lemma analyzeSubqueryAlias_raises a n scope sel finalize err :
  analyzedErr (subqueryAliasAnalysis a (sqaChild n) scope sel finalize) = Some err ->
  analyzeSubqueryAlias a n scope sel finalize = Raise err.
Proof.
  unfold analyzeSubqueryAlias, subqueryAliasAnalysis.
  pose proof (grantOuterScopeVisibility_fields scope n) as [_ [_ Hc]].
  rewrite Hc. intros H. destruct finalize; rewrite H; reflexivity.
Qed.

Lemma resolve_helper_reached f (m : Node) :
  (forall parent i, Fails (nodeWithCtxHelper (Some selectorFunc) f m parent i)) ->
  forall n, ReachedByPass m n ->
  forall parent i, Fails (nodeWithCtxHelper (Some selectorFunc) f n parent i).
Proof.
  intros Hm n Hr. induction Hr as [|k c Hk Hr IH|k l r Hr IH|k l r Hr IH];
    intros parent i.
  - apply Hm.
  - cbn [nodeWithCtxHelper rewriteChildren selected selectorFunc Parent].
    rewrite Hk. cbn [negb]. destruct (IH (Some (Unary k c)) 0) as [err ->].
    exists err. reflexivity.
  - cbn [nodeWithCtxHelper rewriteChildren selected selectorFunc Parent].
    change (isSubqueryAlias (Binary k l r)) with false. cbn [negb].
    destruct (IH (Some (Binary k l r)) 0) as [err ->].
    exists err. reflexivity.
  - cbn [nodeWithCtxHelper rewriteChildren selected selectorFunc Parent].
    change (isSubqueryAlias (Binary k l r)) with false. cbn [negb].
    destruct (nodeWithCtxHelper (Some selectorFunc) f l (Some (Binary k l r)) 0)
      as [[l' sl]|errl]; [|exists errl; reflexivity].
    destruct (IH (Some (Binary k l r)) (0 + 1)) as [err ->].
    exists err. reflexivity.
Qed.

(** X10. An error of the analysis of the body of a subquery-derived-table
    is never deferred: when a derived table the pass reaches has a body the
    analyzer returns an error for, [resolveSubqueries] fails, as
    [finalizeSubqueries] does, also when the error is of the class the
    tentative pass swallows for subquery expressions. *)
Theorem derived_table_errors_propagate
  (a : Analyzer) (n : Node) (s : SubqueryAliasT) (scope : Scope) (sel : RuleSelector)
  (finalize : bool) (err : ErrorKind) :
  ReachedByPass (sqaNode s) n ->
  analyzedErr (subqueryAliasAnalysis a (sqaChild s) scope sel finalize) = Some err ->
  Fails ((if finalize then finalizeSubqueries else resolveSubqueries) a n scope sel)
  /\ (n = sqaNode s ->
      (if finalize then finalizeSubqueries else resolveSubqueries) a n scope sel
      = Raise err).
Proof.
  intros Hr Herr.
  pose proof (analyzeSubqueryAlias_raises a s scope sel finalize Herr) as Hraise.
  assert (H : Fails (NodeWithCtx n (Some selectorFunc) (ctxFunc a scope sel finalize))).
  { unfold NodeWithCtx. apply resolve_helper_reached with (m := sqaNode s); [|exact Hr].
    intros parent i. rewrite resolve_helper_alias, Hraise. exists err. reflexivity. }
  split.
  - destruct finalize; exact H.
  - intros ->.
    assert (H' : NodeWithCtx (sqaNode s) (Some selectorFunc)
                   (ctxFunc a scope sel finalize) = Raise err)
      by (rewrite resolve_root_alias, Hraise; reflexivity).
    destruct finalize; exact H'.
Qed.

(** The loop over the children succeeds when the rewrite of every child
    does, and relates the lists as the rewrite relates the children. *)
Lemma rewriteChildren_total {A : Type} (g : A -> Result A) (R : A -> A -> Prop) :
  forall children i,
    (forall c, In c children -> exists c' s, g c = Ok c' s /\ R c c') ->
    exists out same,
      rewriteChildren (fun _ child => Some (g child)) i children = Ok out same
      /\ Forall2 R children out.
Proof.
  induction children as [|c rest IH]; intros i H.
  - exists [], SameTree. split; [reflexivity | constructor].
  - destruct (H c (or_introl eq_refl)) as [c' [s [Hc HR]]].
    destruct (IH (i + 1) (fun x Hx => H x (or_intror Hx))) as [out [same [Hout HF]]].
    exists (c' :: out), (s && same). cbn [rewriteChildren]. rewrite Hc.
    unfold Ok at 1. cbn [bind]. rewrite Hout. split; [reflexivity|].
    constructor; assumption.
Qed.

Lemma rewriteChildren_fails {A : Type} (g : A -> Result A) :
  forall children i c,
    In c children -> Fails (g c) ->
    Fails (rewriteChildren (fun _ child => Some (g child)) i children).
Proof.
  induction children as [|c0 rest IH]; intros i c Hin Hf; [contradiction|].
  cbn [rewriteChildren]. destruct (g c0) as [[c0' s0]|err0] eqn:H0.
  - destruct Hin as [->|Hin].
    + destruct Hf as [err Hf]. rewrite Hf in H0. discriminate.
    + cbn [bind]. destruct (IH (i + 1) c Hin Hf) as [err ->].
      exists err. reflexivity.
  - exists err0. reflexivity.
Qed.

(** [transform.Expr] succeeds when its function does, and relates the
    expression to the result as the function does, for a relation that is
    transitive and is kept by rebuilding a call over related arguments. *)
Lemma transformExpr_total (f : Expression -> Result Expression)
  (R : Expression -> Expression -> Prop) :
  (forall a b c, R a b -> R b c -> R a c) ->
  (forall name nd args args',
      Forall2 R args args' -> R (Call name nd args) (Call name nd args')) ->
  (forall e, exists e' s, f e = Ok e' s /\ R e e') ->
  forall e, exists e' s, transformExpr f e = Ok e' s /\ R e e'.
Proof.
  intros Htrans Hcall Hf.
  induction e as [v|i|name|name nd args IH|q c] using Expression_ind';
    try apply Hf.
  destruct args as [|x t]; [apply Hf|].
  cbn [transformExpr].
  destruct (@rewriteChildren_total _ (transformExpr f) R (x :: t) 0)
    as [out [same [Hout HF]]].
  { rewrite Forall_forall in IH. exact IH. }
  rewrite Hout. unfold rebuildAndApply, Ok at 1. cbn [bind].
  assert (Hnode : (if same then Done (exprWithSharedChildren (Call name nd (x :: t)) out)
                   else ExprWithChildren (Call name nd (x :: t)) out)
                  = Done (Call name nd out)).
  { destruct same; [reflexivity|]. cbn [ExprWithChildren].
    rewrite <- (Forall2_length HF), Nat.eqb_refl. reflexivity. }
  rewrite Hnode. cbn [bind].
  destruct (Hf (Call name nd out)) as [e'' [s [He HR]]].
  rewrite He. unfold Ok at 1. cbn [bind].
  exists e'', (same && s). split; [reflexivity|].
  apply Htrans with (b := Call name nd out); [apply Hcall; exact HF | exact HR].
Qed.

Lemma WithExpressions_total (n : Node) (exprs newExprs : list Expression) :
  Expressions n = Some exprs ->
  List.length newExprs = List.length exprs ->
  exists n', WithExpressions n newExprs = Done n'.
Proof.
  intros He Hlen.
  destruct n as [k|k c|k l r]; try discriminate; destruct k; try discriminate;
    inversion He; subst exprs; cbn [WithExpressions].
  - rewrite Hlen, Nat.eqb_refl. eauto.
  - destruct newExprs as [|e' [|e'' rest]]; try discriminate. eauto.
  - destruct newExprs as [|e' [|e'' rest]]; try discriminate. eauto.
  - destruct newExprs as [|e' [|e'' rest]]; try discriminate. eauto.
Qed.

Lemma analyzeSubqueryExpression_total a n query c scope sel :
  (forall q scope' sel' err,
      analyzedErr (analyzeWithSelector a q scope' SelectAllBatches sel') = Some err ->
      deferrable err = true) ->
  exists e' s, analyzeSubqueryExpression a n query c scope sel false = Ok e' s.
Proof.
  intros Hd. unfold analyzeSubqueryExpression.
  destruct (analyzedErr _) as [err|] eqn:Herr; [|eauto].
  apply Hd in Herr. unfold deferrable in Herr. rewrite Herr. cbn [negb andb]. eauto.
Qed.

Lemma ctxFunc_total a scope sel node parent i :
  (forall q scope' sel' err,
      analyzedErr (analyzeWithSelector a q scope' SelectAllBatches sel') = Some err ->
      deferrable err = true) ->
  isSubqueryAlias node = false ->
  exists n' s, ctxFunc a scope sel false (mkContext node parent i) = Ok n' s.
Proof.
  intros Hd. unfold ctxFunc, isSubqueryAlias. cbn [CtxNode].
  destruct (asSubqueryAlias node); [discriminate|]. intros _.
  destruct (Expressions node) as [exprs|] eqn:He; [|eauto].
  destruct (@rewriteChildren_total _
              (transformExpr (subqueryExprFn a scope sel false node))
              (fun _ _ => True) exprs 0) as [out [same [Hout HF]]].
  { intros e _.
    apply (@transformExpr_total (subqueryExprFn a scope sel false node)
             (fun _ _ => True)); auto.
    intros [v|j|name|name nd args|q c]; cbn [subqueryExprFn]; eauto.
    destruct (analyzeSubqueryExpression_total a node q c scope sel Hd) as [e' [s H]].
    eauto. }
  rewrite Hout. unfold Ok at 1. cbn [bind].
  destruct same; [eauto|].
  destruct (@WithExpressions_total node exprs out He) as [n' Hn'].
  { symmetry. apply (Forall2_length HF). }
  rewrite Hn'. cbn [bind]. eauto.
Qed.

Lemma resolve_helper_total a scope sel :
  (forall q scope' sel' err,
      analyzedErr (analyzeWithSelector a q scope' SelectAllBatches sel') = Some err ->
      deferrable err = true) ->
  forall n parent i,
    hasAlias n = false ->
    exists n' s,
      nodeWithCtxHelper (Some selectorFunc) (ctxFunc a scope sel false) n parent i
      = Ok n' s.
Proof.
  intros Hd. induction n as [k|k c IH|k l IHl r IHr]; intros parent i Ha.
  - apply ctxFunc_total; auto.
  - cbn [hasAlias] in Ha. apply orb_false_elim in Ha. destruct Ha as [Ha Hc].
    destruct (IH (Some (Unary k c)) 0 Hc) as [c' [sc Hc']].
    rewrite nodeWithCtxHelper_unary with (c' := c') (sc := sc)
      by (rewrite visitChild_selectorFunc, Ha; exact Hc').
    destruct (@ctxFunc_total a scope sel (Unary k c') parent i Hd) as [n' [s Hn']].
    { rewrite (isSubqueryAlias_kind k c c'). exact Ha. }
    rewrite Hn'. unfold Ok at 1. cbn [bind]. eauto.
  - cbn [hasAlias] in Ha. apply orb_false_elim in Ha. destruct Ha as [Ha Hc].
    apply orb_false_elim in Hc. destruct Hc as [Hl Hr].
    destruct (IHl (Some (Binary k l r)) 0 Hl) as [l' [sl Hl']].
    destruct (IHr (Some (Binary k l r)) 1 Hr) as [r' [sr Hr']].
    rewrite nodeWithCtxHelper_binary with (l' := l') (r' := r') (sl := sl) (sr := sr)
      by (rewrite visitChild_selectorFunc, Ha; assumption).
    destruct (@ctxFunc_total a scope sel (Binary k l' r') parent i Hd) as [n' [s Hn']].
    { reflexivity. }
    rewrite Hn'. unfold Ok at 1. cbn [bind]. eauto.
Qed.

(** X11. The tentative pass does not fail on what it may defer: on a plan
    without subquery-derived-table, [resolveSubqueries] returns a plan
    whenever every error the analyzer returns for the body of a subquery
    expression is of the deferrable class. *)
Theorem resolveSubqueries_defers
  (a : Analyzer) (n : Node) (scope : Scope) (sel : RuleSelector) :
  hasAlias n = false ->
  (forall q scope' sel' err,
      analyzedErr (analyzeWithSelector a q scope' SelectAllBatches sel') = Some err ->
      deferrable err = true) ->
  exists n' same, resolveSubqueries a n scope sel = Ok n' same.
Proof.
  intros Ha Hd. unfold resolveSubqueries, NodeWithCtx.
  apply resolve_helper_total; assumption.
Qed.

Lemma transformExpr_fails (f : Expression -> Result Expression) q c :
  Fails (f (Subquery q c)) ->
  forall e, InExpr (Subquery q c) e -> Fails (transformExpr f e).
Proof.
  intros Hf e Hin. induction Hin as [|name nd args x Hx Hin IH].
  - exact Hf.
  - destruct args as [|y t]; [contradiction|].
    cbn [transformExpr]. unfold rebuildAndApply. apply Fails_bind.
    apply rewriteChildren_fails with (c := x); assumption.
Qed.

Lemma ctxFunc_fails a scope sel finalize node parent i exprs e q c :
  isSubqueryAlias node = false ->
  Expressions node = Some exprs ->
  In e exprs ->
  InExpr (Subquery q c) e ->
  Fails (analyzeSubqueryExpression a node q c scope sel finalize) ->
  Fails (ctxFunc a scope sel finalize (mkContext node parent i)).
Proof.
  unfold ctxFunc, isSubqueryAlias. cbn [CtxNode].
  destruct (asSubqueryAlias node); [discriminate|]. intros _ -> Hin Hx Hf.
  apply Fails_bind. apply rewriteChildren_fails with (c := e); [exact Hin|].
  apply transformExpr_fails with (q := q) (c := c); assumption.
Qed.

Lemma nodeWithCtxHelper_unary_raises s f k c parent i err :
  visitChild s f (Unary k c) 0 c = Raise err ->
  nodeWithCtxHelper s f (Unary k c) parent i = Raise err.
Proof.
  unfold visitChild. intros Hc. cbn [nodeWithCtxHelper rewriteChildren].
  destruct (selected s _); [|discriminate]. rewrite Hc. reflexivity.
Qed.

Lemma nodeWithCtxHelper_binary_raises s f k l r parent i :
  Fails (visitChild s f (Binary k l r) 0 l)
  \/ Fails (visitChild s f (Binary k l r) 1 r) ->
  Fails (nodeWithCtxHelper s f (Binary k l r) parent i).
Proof.
  unfold visitChild. intros H.
  cbn [nodeWithCtxHelper rewriteChildren]. change (0 + 1) with 1.
  unfold rebuildAndApply. apply Fails_bind.
  destruct (selected s (mkContext l _ _)).
  - destruct (nodeWithCtxHelper s f l _ 0) as [[l' sl]|errl];
      [|exists errl; reflexivity].
    destruct H as [[err H]|H]; [discriminate|]. cbn [bind].
    destruct (selected s (mkContext r _ _)).
    + apply Fails_bind. destruct H as [err ->]. exists err. reflexivity.
    + destruct H as [err H]. discriminate.
  - destruct H as [[err H]|H]; [discriminate|].
    destruct (selected s (mkContext r _ _)).
    + apply Fails_bind. destruct H as [err ->]. exists err. reflexivity.
    + destruct H as [err H]. discriminate.
Qed.

Lemma resolve_helper_expression_fails a scope sel finalize q c (m : Node) exprs e :
  isSubqueryAlias m = false ->
  Expressions m = Some exprs ->
  In e exprs ->
  InExpr (Subquery q c) e ->
  (forall node, Fails (analyzeSubqueryExpression a node q c scope sel finalize)) ->
  forall parent i,
    Fails (nodeWithCtxHelper (Some selectorFunc) (ctxFunc a scope sel finalize)
             m parent i).
Proof.
  intros Ha He Hin Hx Hf parent i.
  destruct m as [k|k c0|k l r]; [discriminate| |].
  - destruct (visitChild (Some selectorFunc) (ctxFunc a scope sel finalize)
                (Unary k c0) 0 c0) as [[c' sc]|err] eqn:Hv.
    + rewrite nodeWithCtxHelper_unary with (c' := c') (sc := sc) by exact Hv.
      apply Fails_bind.
      apply ctxFunc_fails with (exprs := exprs) (e := e) (q := q) (c := c);
        try assumption; try apply Hf.
      rewrite (isSubqueryAlias_kind k c0 c'). exact Ha.
    + rewrite nodeWithCtxHelper_unary_raises with (err := err) by exact Hv.
      exists err. reflexivity.
  - destruct (visitChild (Some selectorFunc) (ctxFunc a scope sel finalize)
                (Binary k l r) 0 l) as [[l' sl]|errl] eqn:Hl;
      [|apply nodeWithCtxHelper_binary_raises; left; rewrite Hl; exists errl; reflexivity].
    destruct (visitChild (Some selectorFunc) (ctxFunc a scope sel finalize)
                (Binary k l r) 1 r) as [[r' sr]|errr] eqn:Hr;
      [|apply nodeWithCtxHelper_binary_raises; right; rewrite Hr; exists errr; reflexivity].
    rewrite nodeWithCtxHelper_binary with (l' := l') (r' := r') (sl := sl) (sr := sr)
      by assumption.
    apply Fails_bind.
    apply ctxFunc_fails with (exprs := exprs) (e := e) (q := q) (c := c);
      try assumption; try apply Hf; reflexivity.
Qed.

(** X12. An error of the analysis of the body of a subquery expression
    that the phase does not defer makes the whole pass fail: when the
    analyzer returns an error for the body of a subquery expression the pass
    reaches, [finalizeSubqueries] fails whatever the error, and
    [resolveSubqueries] fails when the error is not of the deferrable
    class. *)
Theorem subquery_expression_errors_propagate
  (a : Analyzer) (n q : Node) (c : bool) (scope : Scope) (sel : RuleSelector)
  (finalize : bool) :
  SubqueryReachedByPass q c n ->
  (forall scope' sel', exists err,
      analyzedErr (analyzeWithSelector a q scope' SelectAllBatches sel') = Some err
      /\ (finalize = true \/ deferrable err = false)) ->
  Fails ((if finalize then finalizeSubqueries else resolveSubqueries) a n scope sel).
Proof.
  intros [m [exprs [e [Hr [Ha [He [Hin Hx]]]]]]] Herr.
  assert (Hf : forall node,
             Fails (analyzeSubqueryExpression a node q c scope sel finalize)).
  { intros node.
    destruct (Herr (newScope scope node)
                (if finalize then sel else NewSubqueryExprResolveSelector sel))
      as [err [H1 H2]].
    exists err. apply analyzeSubqueryExpression_raises; [|exact H2].
    unfold subqueryExpressionAnalysis. destruct finalize; exact H1. }
  assert (H : Fails (NodeWithCtx n (Some selectorFunc) (ctxFunc a scope sel finalize))).
  { unfold NodeWithCtx. apply resolve_helper_reached with (m := m); [|exact Hr].
    apply resolve_helper_expression_fails with (q := q) (c := c) (exprs := exprs) (e := e);
      assumption. }
  destruct finalize; exact H.
Qed.

(** *** What [cacheSubqueryResults] changes *)

Lemma Forall2_flagsRaised_refl (l : list Expression) : Forall2 flagsRaised l l.
Proof. induction l; constructor; [apply Raised_same | assumption]. Qed.

Lemma flagsRaised_trans :
  forall a b c, flagsRaised a b -> flagsRaised b c -> flagsRaised a c.
Proof.
  induction a as [v|i|name|name nd args IH|q c0] using Expression_ind';
    intros b c Hab Hbc.
  1-3: inversion Hab; subst; exact Hbc.
  - inversion Hab as [|?|? ? ? args' Hargs]; subst; [exact Hbc|].
    inversion Hbc as [|?|? ? ? args'' Hargs']; subst; [exact Hab|].
    apply Raised_call.
    clear Hab Hbc. revert args' args'' Hargs Hargs'.
    induction IH as [|x t Hx Ht IHt]; intros args' args'' H1 H2.
    + inversion H1; subst. inversion H2; subst. constructor.
    + inversion H1 as [|? y ? t' Hxy Htt']; subst.
      inversion H2 as [|? z ? t'' Hyz Htt'']; subst.
      constructor; [apply (Hx y z); assumption | apply (IHt t' t''); assumption].
  - inversion Hab; subst; [exact Hbc|].
    inversion Hbc; subst; apply Raised_cached.
Qed.

Lemma cacheSubqueryResultsFn_raises (scope : Scope) (n : Node) (e : Expression) :
  exists e' s, cacheSubqueryResultsFn scope n e = Ok e' s /\ flagsRaised e e'.
Proof.
  destruct e as [v|i|name|name nd args|q c];
    try (eexists _, _; split; [reflexivity | apply Raised_same]).
  rewrite cacheSubqueryResultsFn_eq.
  destruct (Resolved q && _); eexists _, _; (split; [reflexivity|]).
  - apply Raised_cached.
  - apply Raised_same.
Qed.

Lemma WithExpressions_same (n : Node) (exprs : list Expression) :
  Expressions n = Some exprs -> WithExpressions n exprs = Done n.
Proof.
  intros He.
  destruct n as [k|k c|k l r]; try discriminate; destruct k; try discriminate;
    inversion He; subst exprs; cbn [WithExpressions]; try reflexivity.
  rewrite Nat.eqb_refl. reflexivity.
Qed.

Lemma nodeFlagsRaised_refl (n : Node) : nodeFlagsRaised n n.
Proof.
  unfold nodeFlagsRaised. destruct (Expressions n) as [exprs|] eqn:He; [|reflexivity].
  exists exprs. split; [apply Forall2_flagsRaised_refl | apply WithExpressions_same, He].
Qed.

Lemma planFlagsRaised_refl : forall n, planFlagsRaised n n.
Proof.
  induction n as [k|k c IH|k l IHl r IHr].
  - apply PlanRaised_leaf, nodeFlagsRaised_refl.
  - apply PlanRaised_unary with (c' := c); [exact IH | apply nodeFlagsRaised_refl].
  - apply PlanRaised_binary with (l' := l) (r' := r);
      [exact IHl | exact IHr | apply nodeFlagsRaised_refl].
Qed.

Lemma OneNodeExprsWithNode_raises (scope : Scope) (n : Node) :
  exists n' s,
    OneNodeExprsWithNode n (cacheSubqueryResultsFn scope) = Ok n' s
    /\ nodeFlagsRaised n n'.
Proof.
  unfold OneNodeExprsWithNode, nodeFlagsRaised.
  destruct (Expressions n) as [exprs|] eqn:He; [|eexists _, _; split; reflexivity].
  destruct (@rewriteChildren_total _
              (transformExpr (cacheSubqueryResultsFn scope n)) flagsRaised exprs 0)
    as [out [same [Hout HF]]].
  { intros e _.
    apply (@transformExpr_total (cacheSubqueryResultsFn scope n) flagsRaised).
    - exact flagsRaised_trans.
    - intros. apply Raised_call. assumption.
    - apply cacheSubqueryResultsFn_raises. }
  rewrite Hout. unfold Ok at 1. cbn [bind].
  destruct same.
  - eexists _, _. split; [reflexivity|].
    exists exprs. split; [apply Forall2_flagsRaised_refl | apply WithExpressions_same, He].
  - destruct (@WithExpressions_total n exprs out He) as [n' Hn'].
    { symmetry. apply (Forall2_length HF). }
    rewrite Hn'. cbn [bind]. eexists _, _. split; [reflexivity|].
    exists out. split; assumption.
Qed.

Lemma NodeExprsWithNode_raises (scope : Scope) :
  forall n, exists n' s,
    NodeExprsWithNode n (cacheSubqueryResultsFn scope) = Ok n' s
    /\ planFlagsRaised n n'.
Proof.
  unfold NodeExprsWithNode.
  induction n as [k|k c IH|k l IHl r IHr].
  - cbn [transformNode].
    destruct (OneNodeExprsWithNode_raises scope (Leaf k)) as [n' [s [H HR]]].
    exists n', s. split; [exact H | apply PlanRaised_leaf, HR].
  - destruct IH as [c' [sc [Hc HRc]]].
    rewrite (@transformNode_unary _ k _ _ _ Hc).
    destruct (OneNodeExprsWithNode_raises scope (Unary k c')) as [n' [s [H HR]]].
    rewrite H. unfold Ok at 1. cbn [bind].
    eexists _, _. split; [reflexivity|].
    apply PlanRaised_unary with (c' := c'); assumption.
  - destruct IHl as [l' [sl [Hl HRl]]]. destruct IHr as [r' [sr [Hr HRr]]].
    rewrite (@transformNode_binary _ k _ _ _ _ _ _ Hl Hr).
    destruct (OneNodeExprsWithNode_raises scope (Binary k l' r')) as [n' [s [H HR]]].
    rewrite H. unfold Ok at 1. cbn [bind].
    eexists _, _. split; [reflexivity|].
    apply PlanRaised_binary with (l' := l') (r' := r'); assumption.
Qed.

(** X13. [cacheSubqueryResults] never fails, and the plan it returns is
    the plan it was given except for [canCacheResults] flags it has set on
    subquery expressions: no node, no other expression and no body of a
    subquery is changed, and no flag is cleared. *)
Theorem cacheSubqueryResults_raises_flags (n : Node) (scope : Scope) :
  exists n' same,
    cacheSubqueryResults n scope = Ok n' same /\ planFlagsRaised n n'.
Proof.
  assert (H := NodeExprsWithNode_raises scope n).
  unfold cacheSubqueryResults.
  destruct n as [k|k c|k l r]; try exact H.
  destruct k; try exact H.
  eexists _, _. split; [reflexivity | apply planFlagsRaised_refl].
Qed.

(** *** The order of Go strings *)

Lemma ascii_compare_refl (a : Ascii.ascii) : Ascii.compare a a = Eq.
Proof. unfold Ascii.compare. apply N.compare_refl. Qed.

Lemma ascii_compare_lt_trans (a b c : Ascii.ascii) :
  Ascii.compare a b = Lt -> Ascii.compare b c = Lt -> Ascii.compare a c = Lt.
Proof.
  unfold Ascii.compare. rewrite !N.compare_lt_iff. apply N.lt_trans.
Qed.

Lemma string_compare_refl : forall s, String.compare s s = Eq.
Proof.
  induction s as [|a s IH]; [reflexivity|].
  cbn [String.compare]. rewrite ascii_compare_refl. exact IH.
Qed.

Lemma string_compare_lt_trans :
  forall s1 s2 s3,
    String.compare s1 s2 = Lt -> String.compare s2 s3 = Lt -> String.compare s1 s3 = Lt.
Proof.
  induction s1 as [|a s1 IH]; intros [|b s2] [|c s3]; cbn [String.compare];
    try discriminate; try reflexivity.
  destruct (Ascii.compare a b) eqn:Hab; try discriminate;
    destruct (Ascii.compare b c) eqn:Hbc; try discriminate; intros H1 H2.
  - apply Ascii.compare_eq_iff in Hab, Hbc. subst.
    rewrite ascii_compare_refl. apply (IH s2 s3); assumption.
  - apply Ascii.compare_eq_iff in Hab. subst. rewrite Hbc. reflexivity.
  - apply Ascii.compare_eq_iff in Hbc. subst. rewrite Hab. reflexivity.
  - rewrite (@ascii_compare_lt_trans _ _ _ Hab Hbc). reflexivity.
Qed.

Lemma string_ltb_lt (s1 s2 : string) :
  String.ltb s1 s2 = true <-> String.compare s1 s2 = Lt.
Proof.
  unfold String.ltb. destruct (String.compare s1 s2); split; congruence.
Qed.

Lemma string_ltb_irrefl (s : string) : String.ltb s s = false.
Proof. unfold String.ltb. rewrite string_compare_refl. reflexivity. Qed.

Lemma string_ltb_trans (s1 s2 s3 : string) :
  String.ltb s1 s2 = true -> String.ltb s2 s3 = true -> String.ltb s1 s3 = true.
Proof. rewrite !string_ltb_lt. apply string_compare_lt_trans. Qed.

(** Of two different strings one is less than the other. *)
Lemma string_ltb_total (s1 s2 : string) :
  String.ltb s1 s2 = false -> s1 <> s2 -> String.ltb s2 s1 = true.
Proof.
  unfold String.ltb. rewrite (String.compare_antisym s2 s1).
  destruct (String.compare s1 s2) eqn:H; intros Hlt Hne; try discriminate.
  - apply String.compare_eq_iff in H. contradiction.
  - reflexivity.
Qed.

Lemma rowLess_transitiveOrdering : transitiveOrdering rowLess.
Proof.
  unfold transitiveOrdering, rowLess. split; [|split].
  - intros a. apply string_ltb_irrefl.
  - intros a b c. apply string_ltb_trans.
  - intros a b c Hab Hbc.
    destruct (String.ltb (fst a) (fst c)) eqn:Hac; [|reflexivity].
    destruct (string_dec (fst a) (fst b)) as [Heq|Hne].
    + rewrite Heq in Hac. congruence.
    + pose proof (@string_ltb_total _ _ Hab Hne) as Hba.
      pose proof (@string_ltb_trans _ _ _ Hba Hac) as Hbc'. congruence.
Qed.

(** *** The rows of [SHOW VARIABLES] *)

(** The loop returns when the filter answers with a bool for every
    variable, and then appends the variables it lets through, in order. *)
Lemma ShowVariables_loop_returns (sv : ShowVariables) :
  forall vars rows,
    (forall kv, In kv vars -> filterAnswers sv (fst kv)) ->
    ShowVariables_loop sv vars rows = Returns (rows ++ List.filter (keeps sv) vars).
Proof.
  unfold filterAnswers, keeps.
  induction vars as [|[k v] rest IH]; intros rows H.
  - cbn. rewrite app_nil_r. reflexivity.
  - cbn [ShowVariables_loop List.filter fst].
    pose proof (H (k, v) (or_introl eq_refl)) as Hk. cbn [fst] in Hk.
    assert (Hrest : forall kv, In kv rest ->
                      match svFilter sv with
                      | Some eval => exists b, eval (fst kv) = Done (VBool b)
                      | None => True
                      end) by (intros kv Hkv; apply H; right; exact Hkv).
    destruct (svFilter sv) as [eval|].
    + destruct Hk as [b Hk]. rewrite Hk. destruct b.
      * rewrite (IH _ Hrest), <- app_assoc. reflexivity.
      * apply IH. exact Hrest.
    + rewrite (IH _ Hrest), <- app_assoc. reflexivity.
Qed.

(** A variable the filter has no bool for stops the loop. *)
Lemma ShowVariables_loop_stops (sv : ShowVariables) :
  forall vars rows out,
    ShowVariables_loop sv vars rows = Returns out ->
    forall kv, In kv vars -> filterAnswers sv (fst kv).
Proof.
  unfold filterAnswers.
  induction vars as [|[k v] rest IH]; intros rows out H kv Hin; [contradiction|].
  cbn [ShowVariables_loop] in H.
  destruct (svFilter sv) as [eval|] eqn:Hf; [|exact I].
  destruct Hin as [<-|Hin].
  - cbn [fst]. destruct (eval k) as [[b| | |]|err]; try discriminate. eauto.
  - destruct (eval k) as [[[|]| | |]|err]; try discriminate;
      exact (IH _ _ H kv Hin).
Qed.

(** X14. [RowIter] of [SHOW VARIABLES] returns rows exactly when the
    filter evaluates to a bool for every session variable (always, for a
    node without filter); an evaluation that returns an error or a value
    that is no bool makes the call fail or panic, also when the variable
    would not have been shown. *)
Theorem ShowVariables_RowIter_returns
  (sortSlice : (Row -> Row -> bool) -> list Row -> list Row)
  (sv : ShowVariables) (vars : list (string * Value)) :
  (exists rows, ShowVariables_RowIter sortSlice sv vars = Returns rows)
  <-> (forall kv, In kv vars -> filterAnswers sv (fst kv)).
Proof.
  unfold ShowVariables_RowIter. split.
  - intros [rows H].
    destruct (ShowVariables_loop sv vars []) as [out| |] eqn:Hl; try discriminate.
    apply (@ShowVariables_loop_stops _ _ _ _ Hl).
  - intros H. rewrite (ShowVariables_loop_returns sv vars [] H). eauto.
Qed.

Lemma ShowVariables_RowIter_rows
  (sortSlice : (Row -> Row -> bool) -> list Row -> list Row)
  (sv : ShowVariables) (vars : list (string * Value)) (rows : list Row) :
  ShowVariables_RowIter sortSlice sv vars = Returns rows ->
  (forall kv, In kv vars -> filterAnswers sv (fst kv))
  /\ rows = sortSlice rowLess (List.filter (keeps sv) vars).
Proof.
  intros H.
  assert (Ha : forall kv, In kv vars -> filterAnswers sv (fst kv))
    by (apply (ShowVariables_RowIter_returns sortSlice); eauto).
  split; [exact Ha|].
  unfold ShowVariables_RowIter in H.
  rewrite (ShowVariables_loop_returns sv vars [] Ha) in H.
  cbn [app] in H. inversion H. reflexivity.
Qed.

Lemma keeps_passesFilter (sv : ShowVariables) (kv : string * Value) :
  keeps sv kv = true <-> passesFilter sv (fst kv).
Proof.
  unfold keeps, passesFilter. destruct (svFilter sv) as [eval|]; [|tauto].
  destruct (eval (fst kv)) as [[[|]| | |]|err]; split; congruence.
Qed.

Lemma filter_Permutation {A : Type} (f : A -> bool) (l l' : list A) :
  Permutation l l' -> Permutation (List.filter f l) (List.filter f l').
Proof.
  induction 1 as [|x l l' H IH|x y l|l l' l'' H1 IH1 H2 IH2]; cbn [List.filter].
  - constructor.
  - destruct (f x); [constructor|]; exact IH.
  - destruct (f x), (f y); try apply Permutation_refl. apply perm_swap.
  - apply Permutation_trans with (l' := List.filter f l'); assumption.
Qed.

Lemma NoDup_map_filter {A B : Type} (g : A -> B) (f : A -> bool) :
  forall l, NoDup (map g l) -> NoDup (map g (List.filter f l)).
Proof.
  induction l as [|x l IH]; cbn [map List.filter]; intros H; [constructor|].
  inversion H as [|? ? Hx Hl]; subst.
  destruct (f x); [|apply IH; exact Hl].
  cbn [map]. constructor; [|apply IH; exact Hl].
  intros Hin. apply Hx. apply in_map_iff in Hin. destruct Hin as [y [Hy Hin]].
  apply in_map_iff. exists y. split; [exact Hy|].
  apply filter_In in Hin. tauto.
Qed.

(** Rows with distinct names that are sorted are strictly sorted. *)
Lemma sorted_strictly :
  forall rows : list Row,
    StronglySorted (fun a b => rowLess b a = false) rows ->
    NoDup (map fst rows) ->
    StronglySorted (fun a b => rowLess a b = true) rows.
Proof.
  induction 1 as [|a rows Hs IH Ha]; intros Hn; [constructor|].
  cbn [map] in Hn. inversion Hn as [|? ? Hx Hl]; subst.
  constructor; [apply IH; exact Hl|].
  rewrite Forall_forall in *. intros b Hb.
  unfold rowLess in *. apply string_ltb_total; [apply Ha; exact Hb|].
  intros Heq. apply Hx. rewrite <- Heq. apply in_map. exact Hb.
Qed.

(** Two strictly sorted slices of the same rows are the same slice. *)
Lemma sorted_unique :
  forall l l' : list Row,
    StronglySorted (fun a b => rowLess a b = true) l ->
    StronglySorted (fun a b => rowLess a b = true) l' ->
    Permutation l l' ->
    l = l'.
Proof.
  induction l as [|a l IH]; intros l' Hs Hs' Hp.
  - apply Permutation_nil in Hp. symmetry. exact Hp.
  - destruct l' as [|b l'].
    + apply Permutation_sym, Permutation_nil in Hp. discriminate.
    + inversion Hs as [|? ? Hl Ha]; subst. inversion Hs' as [|? ? Hl' Hb]; subst.
      rewrite Forall_forall in Ha, Hb.
      assert (Hab : a = b).
      { assert (Hina : In a (b :: l'))
          by (apply (Permutation_in _ Hp); left; reflexivity).
        assert (Hinb : In b (a :: l))
          by (apply (Permutation_in _ (Permutation_sym Hp)); left; reflexivity).
        destruct Hina as [Hina|Hina]; [symmetry; exact Hina|].
        destruct Hinb as [Hinb|Hinb]; [exact Hinb|].
        pose proof (Hb a Hina) as H1. pose proof (Ha b Hinb) as H2.
        unfold rowLess in *.
        pose proof (@string_ltb_trans _ _ _ H1 H2) as H3.
        rewrite string_ltb_irrefl in H3. discriminate. }
      subst b. f_equal. apply IH; try assumption.
      apply Permutation_cons_inv with (a := a). exact Hp.
Qed.

Lemma ShowVariables_sorted_rows
  (sortSlice : (Row -> Row -> bool) -> list Row -> list Row)
  (sv : ShowVariables) (vars : list (string * Value)) :
  sortsSlices sortSlice ->
  NoDup (map fst vars) ->
  StronglySorted (fun a b => rowLess a b = true)
    (sortSlice rowLess (List.filter (keeps sv) vars)).
Proof.
  intros Hsort Hn.
  destruct (Hsort rowLess (List.filter (keeps sv) vars)) as [Hp Hs].
  apply sorted_strictly; [apply Hs, rowLess_transitiveOrdering|].
  apply (Permutation_NoDup (l := map fst (List.filter (keeps sv) vars))).
  - apply Permutation_map. exact Hp.
  - apply NoDup_map_filter. exact Hn.
Qed.

(** X15. The rows [RowIter] of [SHOW VARIABLES] returns are in strictly
    ascending order of the variable names and are the session variables
    the filter lets through, each with its value: no variable is shown
    twice, none is lost, and a node without filter shows them all. *)
Theorem ShowVariables_RowIter_sorted
  (sortSlice : (Row -> Row -> bool) -> list Row -> list Row)
  (sv : ShowVariables) (vars : list (string * Value)) (rows : list Row) :
  sortsSlices sortSlice ->
  NoDup (map fst vars) ->
  ShowVariables_RowIter sortSlice sv vars = Returns rows ->
  StronglySorted (fun r r' => String.ltb (fst r) (fst r') = true) rows
  /\ (forall k v, In (NewRow k v) rows <-> In (k, v) vars /\ passesFilter sv k).
Proof.
  intros Hsort Hn H.
  destruct (ShowVariables_RowIter_rows _ _ _ H) as [_ ->].
  split; [apply ShowVariables_sorted_rows; assumption|].
  intros k v. unfold NewRow.
  destruct (Hsort rowLess (List.filter (keeps sv) vars)) as [Hp _].
  rewrite <- (keeps_passesFilter sv (k, v)), <- filter_In. split.
  - apply Permutation_in, Permutation_sym, Hp.
  - apply Permutation_in, Hp.
Qed.

(** X16. The rows [RowIter] of [SHOW VARIABLES] returns do not depend on
    the order in which the iteration over the map of session variables
    yields them: when the call returns rows for one order, it returns the
    same rows for every other. *)
Theorem ShowVariables_RowIter_order
  (sortSlice : (Row -> Row -> bool) -> list Row -> list Row)
  (sv : ShowVariables) (vars vars' : list (string * Value)) (rows : list Row) :
  sortsSlices sortSlice ->
  NoDup (map fst vars) ->
  Permutation vars vars' ->
  ShowVariables_RowIter sortSlice sv vars = Returns rows ->
  ShowVariables_RowIter sortSlice sv vars' = Returns rows.
Proof.
  intros Hsort Hn Hp H.
  destruct (ShowVariables_RowIter_rows _ _ _ H) as [Ha ->].
  assert (Ha' : forall kv, In kv vars' -> filterAnswers sv (fst kv)).
  { intros kv Hin. apply Ha. apply (Permutation_in _ (Permutation_sym Hp)). exact Hin. }
  unfold ShowVariables_RowIter.
  rewrite (ShowVariables_loop_returns sv vars' [] Ha'). cbn [app]. f_equal.
  assert (Hn' : NoDup (map fst vars'))
    by (apply (Permutation_NoDup (Permutation_map fst Hp)); exact Hn).
  apply sorted_unique; try (apply ShowVariables_sorted_rows; assumption).
  destruct (Hsort rowLess (List.filter (keeps sv) vars)) as [H1 _].
  destruct (Hsort rowLess (List.filter (keeps sv) vars')) as [H2 _].
  apply Permutation_trans with (l' := List.filter (keeps sv) vars);
    [|exact H1].
  apply Permutation_trans with (l' := List.filter (keeps sv) vars');
    [apply Permutation_sym; exact H2|].
  apply filter_Permutation, Permutation_sym. exact Hp.
Qed.

(** *** What the subquery passes ask the analyzer *)

Lemma nodeWithCtxHelper_unary_ext s (f f' : Context -> Result Node) k c parent i :
  visitChild s f (Unary k c) 0 c = visitChild s f' (Unary k c) 0 c ->
  (forall c', f (mkContext (Unary k c') parent i) = f' (mkContext (Unary k c') parent i)) ->
  nodeWithCtxHelper s f (Unary k c) parent i
  = nodeWithCtxHelper s f' (Unary k c) parent i.
Proof.
  unfold visitChild. intros Hv Hf. cbn [nodeWithCtxHelper rewriteChildren].
  destruct (selected s _).
  - rewrite Hv. destruct (nodeWithCtxHelper s f' c _ 0) as [[c' sc]|err]; [|reflexivity].
    unfold rebuildAndApply. cbn. destruct sc; cbn; rewrite Hf; reflexivity.
  - unfold rebuildAndApply. cbn. rewrite Hf. reflexivity.
Qed.

Lemma nodeWithCtxHelper_binary_ext s (f f' : Context -> Result Node) k l r parent i :
  visitChild s f (Binary k l r) 0 l = visitChild s f' (Binary k l r) 0 l ->
  visitChild s f (Binary k l r) 1 r = visitChild s f' (Binary k l r) 1 r ->
  (forall l' r',
      f (mkContext (Binary k l' r') parent i) = f' (mkContext (Binary k l' r') parent i)) ->
  nodeWithCtxHelper s f (Binary k l r) parent i
  = nodeWithCtxHelper s f' (Binary k l r) parent i.
Proof.
  unfold visitChild. intros Hl Hr Hf.
  cbn [nodeWithCtxHelper rewriteChildren]. change (0 + 1) with 1.
  destruct (selected s (mkContext l _ _)), (selected s (mkContext r _ _));
    try rewrite Hl; try rewrite Hr;
    try (destruct (nodeWithCtxHelper s f' l _ 0) as [[l' sl]|errl]; [|reflexivity]);
    try (destruct (nodeWithCtxHelper s f' r _ 1) as [[r' sr]|errr]; [|reflexivity]);
    unfold rebuildAndApply; cbn;
    try destruct sl; try destruct sr; cbn; rewrite Hf; reflexivity.
Qed.

Lemma analyzeSubqueryAlias_ext a a' n scope sel finalize :
  (forall child,
      subqueryAliasAnalysis a child scope sel finalize
      = subqueryAliasAnalysis a' child scope sel finalize) ->
  analyzeSubqueryAlias a n scope sel finalize
  = analyzeSubqueryAlias a' n scope sel finalize.
Proof.
  intros H. unfold analyzeSubqueryAlias.
  specialize (H (sqaChild (grantOuterScopeVisibility scope n))).
  unfold subqueryAliasAnalysis in H. rewrite H. reflexivity.
Qed.

Lemma ctxFunc_alias_ext a a' scope sel finalize node parent i :
  (forall child,
      subqueryAliasAnalysis a child scope sel finalize
      = subqueryAliasAnalysis a' child scope sel finalize) ->
  exprsHaveSubquery node = false ->
  ctxFunc a scope sel finalize (mkContext node parent i)
  = ctxFunc a' scope sel finalize (mkContext node parent i).
Proof.
  intros H He. destruct (asSubqueryAlias node) as [sqa|] eqn:Ha.
  - unfold ctxFunc. cbn [CtxNode]. rewrite Ha. apply analyzeSubqueryAlias_ext. exact H.
  - rewrite !ctxFunc_no_subquery; auto; unfold isSubqueryAlias; rewrite Ha; reflexivity.
Qed.

Lemma resolve_helper_alias_ext a a' scope sel finalize :
  (forall child,
      subqueryAliasAnalysis a child scope sel finalize
      = subqueryAliasAnalysis a' child scope sel finalize) ->
  forall n parent i,
    subqueryInPass n = false ->
    nodeWithCtxHelper (Some selectorFunc) (ctxFunc a scope sel finalize) n parent i
    = nodeWithCtxHelper (Some selectorFunc) (ctxFunc a' scope sel finalize) n parent i.
Proof.
  intros H. induction n as [k|k c IH|k l IHl r IHr]; intros parent i Hs.
  - reflexivity.
  - apply nodeWithCtxHelper_unary_ext.
    + rewrite !visitChild_selectorFunc.
      cbn [subqueryInPass] in Hs.
      destruct (isSubqueryAlias (Unary k c)); [reflexivity|].
      apply orb_false_elim in Hs. destruct Hs as [_ Hc]. apply IH. exact Hc.
    + intros c'. apply ctxFunc_alias_ext; [exact H|].
      rewrite (exprsHaveSubquery_unary k c c').
      cbn [subqueryInPass] in Hs.
      destruct (isSubqueryAlias (Unary k c)) eqn:Ha.
      * unfold exprsHaveSubquery.
        destruct k; try discriminate; reflexivity.
      * apply orb_false_elim in Hs. destruct Hs as [He _]. exact He.
  - cbn [subqueryInPass] in Hs.
    apply orb_false_elim in Hs. destruct Hs as [Hs Hr].
    apply orb_false_elim in Hs. destruct Hs as [He Hl].
    apply nodeWithCtxHelper_binary_ext.
    + rewrite !visitChild_selectorFunc. apply IHl. exact Hl.
    + rewrite !visitChild_selectorFunc. apply IHr. exact Hr.
    + intros l' r'. apply ctxFunc_alias_ext; [exact H|].
      rewrite (exprsHaveSubquery_binary k l r l' r'). exact He.
Qed.

(** X17. For a plan whose subquery expressions all sit below
    subquery-derived-tables, the passes ask the analyzer for nothing but
    the bodies of the derived tables they reach, under the scope of a
    derived table and with batch default-rules: [resolveSubqueries] gives
    the same result for two analyzers that agree on [analyzeThroughBatch]
    there, [finalizeSubqueries] for two that agree on
    [analyzeStartingAtBatch]; the subquery expressions below the derived
    tables are left to these calls. *)
Theorem derived_tables_batch_analysis
  (a a' : Analyzer) (n : Node) (scope : Scope) (sel : RuleSelector) :
  subqueryInPass n = false ->
  ((forall child,
       analyzeThroughBatch a child (subqueryAliasScope scope) "default-rules" sel
       = analyzeThroughBatch a' child (subqueryAliasScope scope) "default-rules" sel) ->
   resolveSubqueries a n scope sel = resolveSubqueries a' n scope sel)
  /\ ((forall child,
          analyzeStartingAtBatch a child (subqueryAliasScope scope) "default-rules" sel
          = analyzeStartingAtBatch a' child (subqueryAliasScope scope) "default-rules" sel) ->
      finalizeSubqueries a n scope sel = finalizeSubqueries a' n scope sel).
Proof.
  intros Hs. unfold resolveSubqueries, finalizeSubqueries, NodeWithCtx.
  split; intros H; apply resolve_helper_alias_ext; try exact Hs;
    intros child; unfold subqueryAliasAnalysis; apply H.
Qed.

Lemma rewriteChildren_ext {A : Type} (g g' : A -> Result A) :
  forall children i,
    (forall c, In c children -> g c = g' c) ->
    rewriteChildren (fun _ child => Some (g child)) i children
    = rewriteChildren (fun _ child => Some (g' child)) i children.
Proof.
  induction children as [|c rest IH]; intros i H; [reflexivity|].
  cbn [rewriteChildren]. rewrite (H c (or_introl eq_refl)).
  rewrite (IH (i + 1)) by (intros x Hx; apply H; right; exact Hx).
  reflexivity.
Qed.

Lemma transformExpr_ext (f f' : Expression -> Result Expression) :
  (forall e, f e = f' e) ->
  forall e, transformExpr f e = transformExpr f' e.
Proof.
  intros Hf.
  induction e as [v|i|name|name nd args IH|q c] using Expression_ind';
    try apply Hf.
  destruct args as [|x t]; [apply Hf|].
  cbn [transformExpr]. rewrite Forall_forall in IH.
  rewrite (rewriteChildren_ext _ _ (x :: t) 0 IH).
  unfold rebuildAndApply.
  destruct (rewriteChildren _ 0 (x :: t)) as [[out same]|err]; [|reflexivity].
  cbn [bind]. destruct (if same then _ else _) as [node'|err]; [|reflexivity].
  cbn [bind]. rewrite Hf. reflexivity.
Qed.

Lemma ctxFunc_selector_ext a a' scope sel finalize node parent i :
  (forall q scope' sel',
      analyzeWithSelector a q scope' SelectAllBatches sel'
      = analyzeWithSelector a' q scope' SelectAllBatches sel') ->
  isSubqueryAlias node = false ->
  ctxFunc a scope sel finalize (mkContext node parent i)
  = ctxFunc a' scope sel finalize (mkContext node parent i).
Proof.
  intros H. unfold ctxFunc, isSubqueryAlias. cbn [CtxNode].
  destruct (asSubqueryAlias node); [discriminate|]. intros _.
  destruct (Expressions node) as [exprs|]; [|reflexivity].
  rewrite (@rewriteChildren_ext _
             (transformExpr (subqueryExprFn a scope sel finalize node))
             (transformExpr (subqueryExprFn a' scope sel finalize node)));
    [reflexivity|].
  intros e _. apply transformExpr_ext.
  intros [v|j|name|name nd args|q c]; try reflexivity.
  cbn [subqueryExprFn]. unfold analyzeSubqueryExpression.
  destruct finalize; rewrite H; reflexivity.
Qed.

Lemma resolve_helper_selector_ext a a' scope sel finalize :
  (forall q scope' sel',
      analyzeWithSelector a q scope' SelectAllBatches sel'
      = analyzeWithSelector a' q scope' SelectAllBatches sel') ->
  forall n parent i,
    hasAlias n = false ->
    nodeWithCtxHelper (Some selectorFunc) (ctxFunc a scope sel finalize) n parent i
    = nodeWithCtxHelper (Some selectorFunc) (ctxFunc a' scope sel finalize) n parent i.
Proof.
  intros H. induction n as [k|k c IH|k l IHl r IHr]; intros parent i Ha.
  - apply ctxFunc_selector_ext; [exact H | reflexivity].
  - cbn [hasAlias] in Ha. apply orb_false_elim in Ha. destruct Ha as [Ha Hc].
    apply nodeWithCtxHelper_unary_ext.
    + rewrite !visitChild_selectorFunc, Ha. apply IH. exact Hc.
    + intros c'. apply ctxFunc_selector_ext; [exact H|].
      rewrite (isSubqueryAlias_kind k c c'). exact Ha.
  - cbn [hasAlias] in Ha. apply orb_false_elim in Ha. destruct Ha as [Ha Hc].
    apply orb_false_elim in Hc. destruct Hc as [Hl Hr].
    apply nodeWithCtxHelper_binary_ext.
    + rewrite !visitChild_selectorFunc. apply IHl. exact Hl.
    + rewrite !visitChild_selectorFunc. apply IHr. exact Hr.
    + intros l' r'. apply ctxFunc_selector_ext; [exact H | reflexivity].
Qed.

(** X18. For a plan without subquery-derived-table, the passes ask the
    analyzer for nothing but the bodies of subquery expressions, with all
    batches selected: [resolveSubqueries] and [finalizeSubqueries] give the
    same result for two analyzers that agree on [analyzeWithSelector]
    there, whatever their [analyzeThroughBatch] and
    [analyzeStartingAtBatch] do. *)
Theorem subquery_expressions_selector_analysis
  (a a' : Analyzer) (n : Node) (scope : Scope) (sel : RuleSelector) :
  hasAlias n = false ->
  (forall q scope' sel',
      analyzeWithSelector a q scope' SelectAllBatches sel'
      = analyzeWithSelector a' q scope' SelectAllBatches sel') ->
  resolveSubqueries a n scope sel = resolveSubqueries a' n scope sel
  /\ finalizeSubqueries a n scope sel = finalizeSubqueries a' n scope sel.
Proof.
  intros Ha H. unfold resolveSubqueries, finalizeSubqueries, NodeWithCtx.
  split; apply resolve_helper_selector_ext; assumption.
Qed.

(** *** Caching nodes *)

Lemma withoutCachedResults_wrapJoined :
  forall n joined,
    withoutCachedResults (wrapJoined joined n) = withoutCachedResults n.
Proof.
  induction n as [k|k c IH|k l IHl r IHr]; intros joined; cbn [wrapJoined].
  - destruct (joined && _); reflexivity.
  - assert (H : withoutCachedResults (Unary k (wrapJoined false c))
                = withoutCachedResults (Unary k c))
      by (cbn [withoutCachedResults]; rewrite IH; reflexivity).
    destruct (joined && _); [|exact H].
    unfold CachedResults. cbn [withoutCachedResults]. exact H.
  - assert (H : withoutCachedResults
                  (Binary k (wrapJoined (isJoinKind k) l) (wrapJoined (isJoinKind k) r))
                = withoutCachedResults (Binary k l r))
      by (cbn [withoutCachedResults]; rewrite IHl, IHr; reflexivity).
    destruct (joined && _); [|exact H].
    unfold CachedResults. cbn [withoutCachedResults]. exact H.
Qed.

Lemma withoutCachedResults_uncachePrimary :
  forall n, withoutCachedResults (uncachePrimary n) = withoutCachedResults n.
Proof.
  induction n as [k|k c IH|k l IHl r IHr]; [reflexivity| |].
  - destruct k; cbn [uncachePrimary withoutCachedResults]; rewrite ?IH; reflexivity.
  - cbn [uncachePrimary withoutCachedResults].
    destruct (leftIsPrimary k), (rightIsPrimary k); rewrite ?IHl, ?IHr; reflexivity.
Qed.

(** X19. [cacheSubqueryAlisesInJoins] adds and removes caching nodes and
    changes nothing else: the plan it returns and the plan it was given
    are the same plan once their caching nodes are taken out. *)
Theorem cacheSubqueryAlisesInJoins_only_caching (n : Node) (scope : Scope) :
  exists n' same,
    cacheSubqueryAlisesInJoins n scope = Ok n' same
    /\ withoutCachedResults n' = withoutCachedResults n.
Proof.
  rewrite cacheSubqueryAlisesInJoins_eq.
  destruct (IsEmpty scope); eexists _, _; (split; [reflexivity|]).
  - rewrite withoutCachedResults_uncachePrimary. apply withoutCachedResults_wrapJoined.
  - apply withoutCachedResults_wrapJoined.
Qed.

(** *** Strip-wrappers *)

Lemma withoutScopeLen_withJoinScopeLen (scopeLen : Z) :
  forall n, withoutScopeLen (withJoinScopeLen scopeLen n) = withoutScopeLen n.
Proof.
  induction n as [k|k c IH|k l IHl r IHr]; [reflexivity| |].
  - cbn [withJoinScopeLen]. destruct k; cbn [withoutScopeLen]; rewrite IH; reflexivity.
  - cbn [withJoinScopeLen]. destruct k as [jt cond sl|jt cond|].
    + destruct (isStripRowNode (withJoinScopeLen scopeLen l)).
      * cbn [withoutScopeLen]. rewrite IHl, IHr. reflexivity.
      * unfold StripRowNode. cbn [withoutScopeLen]. rewrite IHl, IHr. reflexivity.
    + cbn [withoutScopeLen]. rewrite IHl, IHr. reflexivity.
    + cbn [withoutScopeLen]. rewrite IHl, IHr. reflexivity.
Qed.

(** X20. [setJoinScopeLen] never fails, and it inserts strip-wrappers and
    sets the scope length of join nodes and changes nothing else: the plan
    it returns and the plan it was given are the same plan once their
    strip-wrappers are taken out and the scope lengths of their joins are
    reset. *)
Theorem setJoinScopeLen_only_wrappers (n : Node) (scope : Scope) :
  exists n' same,
    setJoinScopeLen n scope = Ok n' same
    /\ withoutScopeLen n' = withoutScopeLen n.
Proof.
  unfold setJoinScopeLen. destruct (scopeSchemaLen scope =? 0).
  - exists n, SameTree. split; reflexivity.
  - destruct (setJoinScopeLen_tree (scopeSchemaLen scope) n) as [same [H _]].
    exists (withJoinScopeLen (scopeSchemaLen scope) n), same.
    split; [exact H | apply withoutScopeLen_withJoinScopeLen].
Qed.

End Rules.

(** ** The properties on the sample plans *)

Lemma analyzeSubqueryExpression_errors_witness :
  analyzedErr
    (subqueryExpressionAnalysis sampleNewScope sampleResolveSelector sampleAnalyzer
       sampleTable sampleUnresolvedFilter None sampleSelector false)
  = Some ErrColumnNotFound
  /\ deferrable ErrColumnNotFound = true
  /\ analyzeSubqueryExpression sampleNewScope sampleResolveSelector sampleAnalyzer
       sampleTable sampleUnresolvedFilter false None sampleSelector false
     = Ok (Subquery sampleUnresolvedFilter false) NewTree
  /\ analyzeSubqueryExpression sampleNewScope sampleResolveSelector sampleAnalyzer
       sampleTable sampleUnresolvedFilter false None sampleSelector true
     = Raise ErrColumnNotFound.
Proof.
  split; [reflexivity|]. split; [reflexivity|]. split.
  - exact (proj1 (@analyzeSubqueryExpression_errors sampleNewScope
                    sampleResolveSelector sampleAnalyzer sampleTable
                    sampleUnresolvedFilter false None sampleSelector false
                    ErrColumnNotFound eq_refl) eq_refl eq_refl).
  - exact (proj2 (@analyzeSubqueryExpression_errors sampleNewScope
                    sampleResolveSelector sampleAnalyzer sampleTable
                    sampleUnresolvedFilter false None sampleSelector true
                    ErrColumnNotFound eq_refl) (or_introl eq_refl)).
Defined.

Lemma analyzeSubqueryAlias_column_count_witness :
  analyzedErr
    (subqueryAliasAnalysis sampleAnalyzer (sqaChild sampleBadAlias) None
       sampleSelector false) = None
  /\ sqaColumns sampleBadAlias <> []
  /\ sampleSchemaLength
       (analyzed (subqueryAliasAnalysis sampleAnalyzer (sqaChild sampleBadAlias) None
                    sampleSelector false))
     <> Z.of_nat (List.length (sqaColumns sampleBadAlias))
  /\ analyzeSubqueryAlias sampleSchemaLength sampleAnalyzer sampleBadAlias None
       sampleSelector false
     = Raise ErrColumnCountMismatch
  /\ resolveSubqueries sampleSchemaLength sampleNewScope sampleResolveSelector
       sampleAnalyzer (sqaNode sampleBadAlias) None sampleSelector
     = Raise ErrColumnCountMismatch.
Proof.
  assert (Hcols : sqaColumns sampleBadAlias <> []) by (simpl; discriminate).
  assert (Hlen : sampleSchemaLength
                   (analyzed (subqueryAliasAnalysis sampleAnalyzer
                                (sqaChild sampleBadAlias) None sampleSelector false))
                 <> Z.of_nat (List.length (sqaColumns sampleBadAlias)))
    by (vm_compute; discriminate).
  split; [reflexivity|]. split; [exact Hcols|]. split; [exact Hlen|].
  destruct (@analyzeSubqueryAlias_column_count sampleSchemaLength sampleNewScope
              sampleResolveSelector sampleAnalyzer sampleBadAlias None sampleSelector
              false eq_refl Hcols Hlen) as [H1 [H2 _]].
  split; [exact H1 | exact H2].
Defined.

Lemma StripPassthroughNodes_idempotent_witness :
  analyzedErr
    (subqueryExpressionAnalysis sampleNewScope sampleResolveSelector
       sampleTrackingAnalyzer sampleTable sampleTwoColumns None sampleSelector false)
  = None
  /\ analyzeSubqueryExpression sampleNewScope sampleResolveSelector
       sampleTrackingAnalyzer sampleTable sampleTwoColumns false None sampleSelector false
     = Ok (Subquery sampleTwoColumns false) NewTree
  /\ analyzeSubqueryAlias sampleSchemaLength sampleTrackingAnalyzer sampleAlias None
       sampleSelector true
     = Ok (sqaNode sampleAlias) NewTree
  /\ sqaNode sampleAlias
     = SubqueryAlias "y" [] false
         (StripPassthroughNodes (Unary KQueryProcess sampleTwoColumns)).
Proof.
  destruct (StripPassthroughNodes_idempotent sampleSchemaLength sampleNewScope
              sampleResolveSelector) as [_ [_ [H3 H4]]].
  split; [reflexivity|]. split.
  - exact (H3 sampleTrackingAnalyzer sampleTable sampleTwoColumns false None
             sampleSelector false eq_refl).
  - split; [reflexivity|].
    exact (H4 sampleTrackingAnalyzer sampleAlias None sampleSelector true
             (sqaNode sampleAlias) eq_refl).
Defined.

Lemma subqueryAliasScope_recursion_depth_witness :
  RecursionDepth (subqueryAliasScope sampleScope) = RecursionDepth sampleScope + 1
  /\ RecursionDepth (nestedAliasScope 3 None) = 3
  /\ analyzeSubqueryAlias sampleSchemaLength sampleAnalyzer sampleAlias sampleScope
       sampleSelector false
     = Ok (SubqueryAlias "y" [] true sampleTwoColumns) SameTree
  /\ (exists m,
        asSubqueryAlias (SubqueryAlias "y" [] true sampleTwoColumns) = Some m
        /\ OuterScopeVisibility m
           = negb (IsEmpty sampleScope) || OuterScopeVisibility sampleAlias)
  /\ resolveSubqueries sampleSchemaLength sampleNewScope sampleResolveSelector
       sampleAnalyzer (sampleProjectOfAlias false) sampleScope sampleSelector
     = Ok (sampleProjectOfAlias true) SameTree
  /\ resolveSubqueries sampleSchemaLength sampleNewScope sampleResolveSelector
       sampleAnalyzer (sampleProjectOfAlias false) None sampleSelector
     = Ok (sampleProjectOfAlias false) SameTree.
Proof.
  destruct (subqueryAliasScope_recursion_depth sampleSchemaLength)
    as [H1 [H2 [_ [_ [_ [_ H7]]]]]].
  split; [exact (H1 sampleScope)|]. split; [exact (H2 3%nat)|].
  split; [reflexivity|].
  split; [|split; reflexivity].
  exact (H7 sampleAnalyzer sampleAlias sampleScope sampleSelector false
           (SubqueryAlias "y" [] true sampleTwoColumns) SameTree eq_refl).
Defined.

Lemma cacheSubqueryAlisesInJoins_cleanup_witness :
  cacheSubqueryAlisesInJoins sampleJoin None
  = Ok (Binary (KJoin JoinTypeInner (Literal 1) 0) (sqaNode sampleAlias)
          (CachedResults (sqaNode sampleAlias))) NewTree
  /\ cacheSubqueryAlisesInJoins sampleJoin sampleScope
     = Ok (Binary (KJoin JoinTypeInner (Literal 1) 0)
             (CachedResults (sqaNode sampleAlias))
             (CachedResults (sqaNode sampleAlias))) NewTree.
Proof.
  destruct cacheSubqueryAlisesInJoins_cleanup as [_ [_ [_ [_ [_ [_ H7]]]]]].
  split.
  - exact (H7 (KJoin JoinTypeInner (Literal 1) 0) "y"%string [] false sampleTwoColumns
             "y"%string [] false sampleTwoColumns None
             eq_refl eq_refl eq_refl eq_refl eq_refl).
  - exact (H7 (KJoin JoinTypeInner (Literal 1) 0) "y"%string [] false sampleTwoColumns
             "y"%string [] false sampleTwoColumns sampleScope
             eq_refl eq_refl eq_refl eq_refl eq_refl).
Defined.

Lemma cacheSubqueryAlisesInJoins_wraps_witness :
  cacheAliasFn (mkContext (sqaNode sampleAlias) (Some sampleJoin) 1)
  = Ok (CachedResults (sqaNode sampleAlias)) NewTree
  /\ exists l' r0,
       cacheSubqueryAlisesInJoins sampleJoin None
       = Ok (Binary (KJoin JoinTypeInner (Literal 1) 0) l' (CachedResults r0)) NewTree
       /\ isSubqueryAlias r0 = true.
Proof.
  destruct cacheSubqueryAlisesInJoins_wraps as [H1 [_ [H3 _]]].
  split.
  - exact (H1 (sqaNode sampleAlias) (Some sampleJoin) 1 eq_refl eq_refl).
  - exact (H3 (KJoin JoinTypeInner (Literal 1) 0) (sqaNode sampleAlias)
             (sqaNode sampleAlias) None eq_refl eq_refl eq_refl).
Defined.

Lemma setJoinScopeLen_annotates_witness :
  sampleScopeSchemaLen None = 0
  /\ setJoinScopeLen sampleScopeSchemaLen sampleJoin None = Ok sampleJoin SameTree
  /\ sampleScopeSchemaLen sampleScope <> 0
  /\ exists same,
       setJoinScopeLen sampleScopeSchemaLen sampleJoin sampleScope
       = Ok (Binary (KJoin JoinTypeInner (Literal 1) 1)
               (StripRowNode (sqaNode sampleAlias) 1)
               (StripRowNode (sqaNode sampleAlias) 1)) same
       /\ (same = SameTree <-> hasJoinNode sampleJoin = false)
       /\ joinsAnnotated 1
            (Binary (KJoin JoinTypeInner (Literal 1) 1)
               (StripRowNode (sqaNode sampleAlias) 1)
               (StripRowNode (sqaNode sampleAlias) 1)) = true.
Proof.
  assert (Hlen : sampleScopeSchemaLen sampleScope <> 0) by (vm_compute; discriminate).
  split; [reflexivity|]. split.
  - exact (proj1 (setJoinScopeLen_annotates sampleScopeSchemaLen sampleJoin None)
             eq_refl).
  - split; [exact Hlen|].
    exact (proj2 (setJoinScopeLen_annotates sampleScopeSchemaLen sampleJoin sampleScope)
             Hlen).
Defined.


Lemma flattenTableAliases_rewrites_witness :
  aliasLike (TableAlias "a" sampleTable) = true
  /\ flattenTableAliasesFn sampleNestedAlias = Ok (TableAlias "b" sampleTable) NewTree
  /\ flattenable sampleTable = false
  /\ flattenTableAliasesFn sampleTable = Ok sampleTable SameTree.
Proof.
  destruct flattenTableAliases_rewrites as [H1 [H2 _]].
  split; [reflexivity|]. split.
  - exact (H1 "b"%string (TableAlias "a" sampleTable) eq_refl).
  - split; [reflexivity|]. exact (H2 sampleTable eq_refl).
Defined.

Lemma cacheSubqueryResults_marks_cacheable_witness :
  sampleResolved sampleInnerColumns = true
  /\ bodyCacheable sampleSubqueryNonDeterministic sampleInnerColumns
       (sampleScopeSchemaLen (sampleNewScope None (sampleFilter sampleInnerColumns)))
  /\ cacheSubqueryResults sampleNewScope sampleScopeSchemaLen sampleResolved
       sampleSubqueryNonDeterministic (sampleFilter sampleInnerColumns) None
     = Ok (Unary (KFilter (Subquery sampleInnerColumns true)) sampleTable) NewTree.
Proof.
  destruct (cacheSubqueryResults_marks_cacheable sampleNewScope sampleScopeSchemaLen
              sampleResolved sampleSubqueryNonDeterministic) as [H1 [_ [_ [_ H5]]]].
  assert (Hc : bodyCacheable sampleSubqueryNonDeterministic sampleInnerColumns
                 (sampleScopeSchemaLen
                    (sampleNewScope None (sampleFilter sampleInnerColumns)))).
  { exact (proj1 (proj1 (H1 None (sampleFilter sampleInnerColumns) sampleInnerColumns
                           false eq_refl)) eq_refl). }
  split; [reflexivity|]. split; [exact Hc|].
  exact (proj1 (H5 None sampleInnerColumns false (KResolvedTable "t") eq_refl) Hc).
Defined.

(** ** Where the specification and the rules part *)

(** C1 as stated fails: a resolved subquery expression whose body is a
    derived table without outer-scope visibility, over field references at
    or above the boundary and no non-deterministic expression, meets the
    four conditions of the specification and is not marked cacheable. *)
Lemma cacheable_outer_only_counterexample :
  sampleResolved sampleDerivedBody = true
  /\ bodyCacheableOuterOnly sampleSubqueryNonDeterministic sampleDerivedBody
       (sampleScopeSchemaLen (sampleNewScope None (sampleFilter sampleDerivedBody)))
  /\ cacheSubqueryResultsFn sampleNewScope sampleScopeSchemaLen sampleResolved
       sampleSubqueryNonDeterministic None (sampleFilter sampleDerivedBody)
       (Subquery sampleDerivedBody false)
     = Ok (Subquery sampleDerivedBody false) SameTree
  /\ cacheSubqueryResults sampleNewScope sampleScopeSchemaLen sampleResolved
       sampleSubqueryNonDeterministic (sampleFilter sampleDerivedBody) None
     = Ok (sampleFilter sampleDerivedBody) SameTree.
Proof.
  split; [reflexivity|]. split; [|split; reflexivity].
  assert (Hx : forall x,
             exprOfPlan sampleDerivedBody x -> x = GetField 1 \/ x = GetField 2).
  { intros x [m [exprs [e [Hm [He [Hin Hx]]]]]].
    inversion Hm as [|k c Hc|k l r Hl|k l r Hr]; subst; [discriminate|].
    inversion Hc as [|k c Hc'|k l r Hl|k l r Hr]; subst.
    - inversion He; subst exprs.
      destruct Hin as [<-|[<-|[]]]; inversion Hx; subst; auto.
    - inversion Hc'; subst; discriminate. }
  split; [|split].
  - intros i Hi. destruct (Hx _ Hi) as [H|H]; inversion H; subst; vm_compute;
      discriminate.
  - intros x Hi. destruct (Hx _ Hi) as [->| ->]; reflexivity.
  - intros m s Hm Hs.
    inversion Hm as [|k c Hc|k l r Hl|k l r Hr]; subst.
    + inversion Hs; subst. reflexivity.
    + inversion Hc as [|k c Hc'|k l r Hl|k l r Hr]; subst; [discriminate|].
      inversion Hc'; subst; discriminate.
Qed.

(** C3 as stated fails: the derived table [x (c)] of [z JOIN x (c)]
    declares one column over a body whose analysis succeeds with two
    columns, and whether the analysis of the query fails with the
    column-count-mismatch error is decided by the analysis of another part
    of the query, which runs first: with an analyzer that accepts the body
    of [z] the mismatch is returned, and with one that treats the body of
    [x] in the same way and rejects the body of [z], the error of [z] is
    returned in both phases. *)
Lemma column_count_mismatch_counterexample :
  InPlan (sqaNode sampleBadAlias) sampleJoinOfAliases
  /\ sqaColumns sampleBadAlias = ["c"%string]
  /\ subqueryAliasAnalysis sampleAnalyzer (sqaChild sampleBadAlias) None
       sampleSelector false
     = subqueryAliasAnalysis sampleLenientAnalyzer (sqaChild sampleBadAlias) None
         sampleSelector false
  /\ analyzedErr
       (subqueryAliasAnalysis sampleAnalyzer (sqaChild sampleBadAlias) None
          sampleSelector false) = None
  /\ sampleSchemaLength
       (analyzed (subqueryAliasAnalysis sampleAnalyzer (sqaChild sampleBadAlias) None
                    sampleSelector false)) = 2
  /\ resolveSubqueries sampleSchemaLength sampleNewScope sampleResolveSelector
       sampleLenientAnalyzer sampleJoinOfAliases None sampleSelector
     = Raise ErrColumnCountMismatch
  /\ resolveSubqueries sampleSchemaLength sampleNewScope sampleResolveSelector
       sampleAnalyzer sampleJoinOfAliases None sampleSelector
     = Raise (ErrOther 1)
  /\ finalizeSubqueries sampleSchemaLength sampleNewScope sampleResolveSelector
       sampleAnalyzer sampleJoinOfAliases None sampleSelector
     = Raise (ErrOther 1)
  /\ Is ErrColumnCountMismatch (ErrOther 1) = false.
Proof.
  split; [apply InPlan_right; apply InPlan_here|].
  repeat split; reflexivity.
Qed.

(** ** The further properties on the sample plans *)

Lemma nodeIsCacheable_downward_witness :
  nodeIsCacheable sampleSubqueryNonDeterministic sampleInnerColumns 1 = true
  /\ 0 <= 1
  /\ InPlan sampleTable sampleInnerColumns
  /\ nodeIsCacheable sampleSubqueryNonDeterministic sampleTable 0 = true.
Proof.
  assert (Hin : InPlan sampleTable sampleInnerColumns)
    by (apply InPlan_child, InPlan_here).
  assert (Hle : 0 <= 1) by lia.
  split; [reflexivity|]. split; [exact Hle|]. split; [exact Hin|].
  exact (@nodeIsCacheable_downward sampleSubqueryNonDeterministic sampleInnerColumns
           sampleTable 1 0 eq_refl Hle Hin).
Defined.

Lemma StripPassthroughNodes_unwraps_witness :
  forallb passthroughKind [KQueryProcess; KStartTransaction] = true
  /\ isPassthrough sampleTwoColumns = false
  /\ StripPassthroughNodes
       (Unary KQueryProcess
          (Unary KStartTransaction sampleTwoColumns))
     = sampleTwoColumns.
Proof.
  split; [reflexivity|]. split; [reflexivity|].
  exact (@StripPassthroughNodes_unwraps
           [KQueryProcess; KStartTransaction] sampleTwoColumns
           eq_refl eq_refl).
Defined.

Lemma resolveSubqueries_unchanged_witness :
  hasAlias sampleTwoColumns = false
  /\ subqueryInPlan sampleTwoColumns = false
  /\ resolveSubqueries sampleSchemaLength sampleNewScope sampleResolveSelector
       sampleAnalyzer sampleTwoColumns None sampleSelector
     = Ok sampleTwoColumns SameTree
  /\ hasAlias (sampleFilter sampleTwoColumns) = false
  /\ subqueryInPlan (sampleFilter sampleTwoColumns) = true
  /\ resolveSubqueries sampleSchemaLength sampleNewScope sampleResolveSelector
       sampleAnalyzer (sampleFilter sampleTwoColumns) None sampleSelector
     <> Ok (sampleFilter sampleTwoColumns) SameTree.
Proof.
  split; [reflexivity|]. split; [reflexivity|]. split.
  - exact (proj2 (proj1 (@resolveSubqueries_unchanged sampleSchemaLength sampleNewScope
                           sampleResolveSelector sampleAnalyzer sampleTwoColumns None
                           sampleSelector eq_refl)) eq_refl).
  - split; [reflexivity|]. split; [reflexivity|].
    intros H.
    pose proof (proj1 (proj1 (@resolveSubqueries_unchanged sampleSchemaLength
                                sampleNewScope sampleResolveSelector sampleAnalyzer
                                (sampleFilter sampleTwoColumns) None sampleSelector
                                eq_refl)) H) as Hs.
    discriminate Hs.
Defined.

Lemma derived_table_errors_propagate_witness :
  ReachedByPass (sqaNode sampleUnresolvedAlias) sampleProjectOfUnresolved
  /\ analyzedErr
       (subqueryAliasAnalysis sampleAnalyzer (sqaChild sampleUnresolvedAlias) None
          sampleSelector false)
     = Some ErrColumnNotFound
  /\ deferrable ErrColumnNotFound = true
  /\ Fails (resolveSubqueries sampleSchemaLength sampleNewScope sampleResolveSelector
              sampleAnalyzer sampleProjectOfUnresolved None sampleSelector).
Proof.
  assert (Hr : ReachedByPass (sqaNode sampleUnresolvedAlias) sampleProjectOfUnresolved)
    by (apply Reached_child; [reflexivity | apply Reached_here]).
  split; [exact Hr|]. split; [reflexivity|]. split; [reflexivity|].
  exact (proj1 (@derived_table_errors_propagate sampleSchemaLength sampleNewScope
                  sampleResolveSelector sampleAnalyzer sampleProjectOfUnresolved
                  sampleUnresolvedAlias None sampleSelector false ErrColumnNotFound
                  Hr eq_refl)).
Defined.

Lemma sampleDeferringAnalyzer_defers :
  forall q scope' sel' err,
    analyzedErr (analyzeWithSelector sampleDeferringAnalyzer q scope' SelectAllBatches sel')
    = Some err ->
    deferrable err = true.
Proof.
  intros q scope' sel' err. cbn.
  repeat match goal with
         | |- context [match ?x with _ => _ end] => destruct x
         end;
    intros H; inversion H; reflexivity.
Qed.

Lemma resolveSubqueries_defers_witness :
  hasAlias (sampleFilter sampleUnresolvedFilter) = false
  /\ analyzedErr
       (analyzeWithSelector sampleDeferringAnalyzer sampleUnresolvedFilter None
          SelectAllBatches sampleSelector)
     = Some ErrColumnNotFound
  /\ exists n' same,
       resolveSubqueries sampleSchemaLength sampleNewScope sampleResolveSelector
         sampleDeferringAnalyzer (sampleFilter sampleUnresolvedFilter) None
         sampleSelector
       = Ok n' same.
Proof.
  split; [reflexivity|]. split; [reflexivity|].
  exact (@resolveSubqueries_defers sampleSchemaLength sampleNewScope
           sampleResolveSelector sampleDeferringAnalyzer
           (sampleFilter sampleUnresolvedFilter) None sampleSelector eq_refl
           sampleDeferringAnalyzer_defers).
Defined.

Lemma subquery_expression_errors_propagate_witness :
  SubqueryReachedByPass sampleUnresolvedFilter false
    (sampleFilter sampleUnresolvedFilter)
  /\ (forall scope' sel', exists err,
         analyzedErr
           (analyzeWithSelector sampleDeferringAnalyzer sampleUnresolvedFilter scope'
              SelectAllBatches sel')
         = Some err
         /\ (true = true \/ deferrable err = false))
  /\ Fails (finalizeSubqueries sampleSchemaLength sampleNewScope sampleResolveSelector
              sampleDeferringAnalyzer (sampleFilter sampleUnresolvedFilter) None
              sampleSelector).
Proof.
  assert (Hr : SubqueryReachedByPass sampleUnresolvedFilter false
                 (sampleFilter sampleUnresolvedFilter)).
  { exists (sampleFilter sampleUnresolvedFilter),
      [Subquery sampleUnresolvedFilter false], (Subquery sampleUnresolvedFilter false).
    split; [apply Reached_here|]. split; [reflexivity|]. split; [reflexivity|].
    split; [left; reflexivity | apply InExpr_here]. }
  assert (Herr : forall scope' sel', exists err,
             analyzedErr
               (analyzeWithSelector sampleDeferringAnalyzer sampleUnresolvedFilter scope'
                  SelectAllBatches sel')
             = Some err
             /\ (true = true \/ deferrable err = false)).
  { intros scope' sel'. exists ErrColumnNotFound. split; [reflexivity | left; reflexivity]. }
  split; [exact Hr|]. split; [exact Herr|].
  exact (@subquery_expression_errors_propagate sampleSchemaLength sampleNewScope
           sampleResolveSelector sampleDeferringAnalyzer
           (sampleFilter sampleUnresolvedFilter) sampleUnresolvedFilter false None
           sampleSelector true Hr Herr).
Defined.

(** The sort by insertion keeps what [sort.Slice] promises. *)
Lemma sampleInsert_Permutation (less : Row -> Row -> bool) (x : Row) :
  forall rows, Permutation (x :: rows) (sampleInsert less x rows).
Proof.
  induction rows as [|y rest IH]; cbn [sampleInsert]; [apply Permutation_refl|].
  destruct (less x y); [apply Permutation_refl|].
  apply Permutation_trans with (l' := y :: x :: rest); [apply perm_swap|].
  apply perm_skip. exact IH.
Qed.

Lemma sampleInsert_sorted (less : Row -> Row -> bool) (x : Row) :
  transitiveOrdering less ->
  forall rows,
    StronglySorted (fun a b => less b a = false) rows ->
    StronglySorted (fun a b => less b a = false) (sampleInsert less x rows).
Proof.
  intros [Hirr [Htrans _]].
  induction 1 as [|y rest Hs IH Hy]; cbn [sampleInsert].
  - constructor; constructor.
  - rewrite Forall_forall in Hy. destruct (less x y) eqn:Hxy.
    + constructor; [constructor; [exact Hs | apply Forall_forall; exact Hy]|].
      apply Forall_forall. intros z [<-|Hz].
      * destruct (less y x) eqn:Hyx; [|reflexivity].
        rewrite <- (Hirr x). symmetry. apply (Htrans x y x); assumption.
      * destruct (less z x) eqn:Hzx; [|reflexivity].
        rewrite <- (Hy z Hz). symmetry. apply (Htrans z x y); assumption.
    + constructor; [exact IH|].
      apply Forall_forall. intros z Hz.
      apply (Permutation_in _ (Permutation_sym (sampleInsert_Permutation less x rest)))
        in Hz.
      destruct Hz as [<-|Hz]; [exact Hxy | apply Hy; exact Hz].
Qed.

Lemma sampleSortSlice_sorts : sortsSlices sampleSortSlice.
Proof.
  intros less rows. unfold sampleSortSlice. split.
  - induction rows as [|x rest IH]; cbn [fold_right]; [constructor|].
    apply Permutation_trans with (l' := x :: fold_right (sampleInsert less) [] rest);
      [apply perm_skip; exact IH | apply sampleInsert_Permutation].
  - intros Hto. induction rows as [|x rest IH]; cbn [fold_right]; [constructor|].
    apply sampleInsert_sorted; assumption.
Qed.

Lemma sampleVariables_NoDup : NoDup (map fst sampleVariables).
Proof.
  cbn. repeat constructor; cbn; intuition discriminate.
Qed.

Lemma ShowVariables_RowIter_sorted_witness :
  sortsSlices sampleSortSlice
  /\ NoDup (map fst sampleVariables)
  /\ ShowVariables_RowIter sampleSortSlice sampleShowVariables sampleVariables
     = Returns [("autocommit"%string, VInt 1); ("max_connections"%string, VInt 151)]
  /\ StronglySorted (fun r r' => String.ltb (fst r) (fst r') = true)
       [("autocommit"%string, VInt 1); ("max_connections"%string, VInt 151)].
Proof.
  split; [exact sampleSortSlice_sorts|]. split; [exact sampleVariables_NoDup|].
  split; [reflexivity|].
  exact (proj1 (@ShowVariables_RowIter_sorted sampleSortSlice sampleShowVariables
                  sampleVariables _ sampleSortSlice_sorts sampleVariables_NoDup
                  eq_refl)).
Defined.

Lemma ShowVariables_RowIter_order_witness :
  sortsSlices sampleSortSlice
  /\ NoDup (map fst sampleVariables)
  /\ Permutation sampleVariables sampleVariablesReordered
  /\ ShowVariables_RowIter sampleSortSlice sampleShowVariables sampleVariables
     = Returns [("autocommit"%string, VInt 1); ("max_connections"%string, VInt 151)]
  /\ ShowVariables_RowIter sampleSortSlice sampleShowVariables sampleVariablesReordered
     = Returns [("autocommit"%string, VInt 1); ("max_connections"%string, VInt 151)].
Proof.
  assert (Hp : Permutation sampleVariables sampleVariablesReordered)
    by (apply Permutation_sym;
        exact (Permutation_cons_append
                 [("sql_mode"%string, VString "ANSI"); ("autocommit"%string, VInt 1)]
                 ("max_connections"%string, VInt 151))).
  split; [exact sampleSortSlice_sorts|]. split; [exact sampleVariables_NoDup|].
  split; [exact Hp|]. split; [reflexivity|].
  exact (@ShowVariables_RowIter_order sampleSortSlice sampleShowVariables
           sampleVariables sampleVariablesReordered _ sampleSortSlice_sorts
           sampleVariables_NoDup Hp eq_refl).
Defined.

Lemma derived_tables_batch_analysis_witness :
  subqueryInPass sampleAliasOfFilter = false
  /\ subqueryInPlan sampleAliasOfFilter = true
  /\ resolveSubqueries sampleSchemaLength sampleNewScope sampleResolveSelector
       sampleAnalyzer sampleAliasOfFilter None sampleSelector
     = resolveSubqueries sampleSchemaLength sampleNewScope sampleResolveSelector
         sampleAnalyzerOtherSelector sampleAliasOfFilter None sampleSelector
  /\ finalizeSubqueries sampleSchemaLength sampleNewScope sampleResolveSelector
       sampleAnalyzer sampleAliasOfFilter None sampleSelector
     = finalizeSubqueries sampleSchemaLength sampleNewScope sampleResolveSelector
         sampleAnalyzerOtherSelector sampleAliasOfFilter None sampleSelector.
Proof.
  split; [reflexivity|]. split; [reflexivity|].
  destruct (@derived_tables_batch_analysis sampleSchemaLength sampleNewScope
              sampleResolveSelector sampleAnalyzer sampleAnalyzerOtherSelector
              sampleAliasOfFilter None sampleSelector eq_refl) as [H1 H2].
  split; [apply H1 | apply H2]; intros child; reflexivity.
Defined.

Lemma subquery_expressions_selector_analysis_witness :
  hasAlias (sampleFilter sampleTwoColumns) = false
  /\ resolveSubqueries sampleSchemaLength sampleNewScope sampleResolveSelector
       sampleAnalyzer (sampleFilter sampleTwoColumns) None sampleSelector
     = resolveSubqueries sampleSchemaLength sampleNewScope sampleResolveSelector
         sampleAnalyzerOtherBatches (sampleFilter sampleTwoColumns) None sampleSelector.
Proof.
  split; [reflexivity|].
  exact (proj1 (@subquery_expressions_selector_analysis sampleSchemaLength
                  sampleNewScope sampleResolveSelector sampleAnalyzer
                  sampleAnalyzerOtherBatches (sampleFilter sampleTwoColumns) None
                  sampleSelector eq_refl (fun _ _ _ => eq_refl))).
Defined.
